(** * Unit converter: conversion, formatting, time and date engines

    A shallow embedding of the logic-bearing TypeScript modules of the
    unit-converter application

      - [src/lib/conversions/conversion-utils.ts]  (formatNumber)
      - [src/lib/conversions/length.ts], [volume.ts], [weight.ts]
      - [src/lib/conversions/temperature.ts]
      - [src/lib/conversions/time.ts]
      - the date calculator and the numbers calculator forms

    together with the part of the JavaScript platform these modules call.

    Numbers are IEEE-754 binary64 values: [Js.number] is Rocq's primitive
    [float], whose [+ - * /] and comparisons are the JavaScript ones.
    Functions of the platform that have no primitive counterpart are
    written out on the exact value of a number, which [Prim2SF] exposes
    as sign, mantissa and exponent: [Math.round] and [Math.floor], and
    [Number.prototype.toLocaleString], which prints the decimal numeral
    of the number, rounded.  Strings are the bytes of their UTF-8
    encoding.  Date time values are integral numbers of magnitude at
    most 8.64e15 < 2^53 and are carried as [Z]; [None] stands for the
    NaN time value of an invalid Date. *)

Set Warnings "-inexact-float".
From Stdlib Require Import ZArith NArith QArith Qround Qabs Qpower Qfield Lqa.
From Stdlib Require Import List String Ascii Bool Lia Floats DecimalString.
Import ListNotations.
Open Scope Z_scope.
Open Scope list_scope.

(* ================================================================= *)
(** ** The JavaScript platform *)

Module Js.

Definition number := float.

(** Thrown values: the three native error classes the code can raise,
    each with its [message]. *)
Inductive exn : Type :=
| Error (message : string)
| TypeError (message : string)
| RangeError (message : string).

Definition message (e : exn) : string :=
  match e with Error m | TypeError m | RangeError m => m end.

(** The outcome of a call: a returned value or a thrown error. *)
Inductive completion (A : Type) : Type :=
| Return (a : A)
| Throw (e : exn).
Arguments Return {A} a.
Arguments Throw {A} e.

Definition bind {A B} (c : completion A) (k : A -> completion B) : completion B :=
  match c with
  | Return a => k a
  | Throw e => Throw e
  end.

(** *** Plain objects used as string-keyed tables

    An object literal is the ordered list of its own properties; a
    property read [obj[key]] that finds no own property continues in
    [Object.prototype]. *)
Definition object (A : Type) := list (string * A).

Definition objectPrototypeKeys : list string :=
  [ "constructor"; "__defineGetter__"; "__defineSetter__"; "hasOwnProperty";
    "__lookupGetter__"; "__lookupSetter__"; "isPrototypeOf";
    "propertyIsEnumerable"; "toString"; "valueOf"; "__proto__";
    "toLocaleString" ]%string.

Inductive property (A : Type) : Type :=
| Own (a : A)      (* an own property of the literal *)
| Inherited        (* a member of Object.prototype: truthy, not an [A] *)
| Undefined.       (* no such property: the read gives undefined *)
Arguments Own {A} a.
Arguments Inherited {A}.
Arguments Undefined {A}.

Fixpoint getOwn {A} (obj : object A) (key : string) : option A :=
  match obj with
  | [] => None
  | (k, v) :: rest => if String.eqb k key then Some v else getOwn rest key
  end.

Definition get {A} (obj : object A) (key : string) : property A :=
  match getOwn obj key with
  | Some v => Own v
  | None =>
      if existsb (String.eqb key) objectPrototypeKeys then Inherited else Undefined
  end.

(** [Object.values]: own property values in insertion order. *)
Definition values {A} (obj : object A) : list A := map snd obj.

Definition keys {A} (obj : object A) : list string := map fst obj.

(** *** Numbers *)

Definition isNaN (x : number) : bool := is_nan x.
Definition isFinite (x : number) : bool := negb (is_nan x) && negb (is_infinity x).

(** [x !== y] on numbers. *)
Definition strictNe (x y : number) : bool := negb (x =? y)%float.

(** The integer nearest to [(+/- m) * 2^e * k], ties going up. *)
Definition roundHalfUp (s : bool) (m : positive) (e : Z) (k : Z) : Z :=
  let v := (if s then Z.neg m else Z.pos m) * k in
  if 0 <=? e then v * 2 ^ e
  else (2 * v + 2 ^ (- e)) / (2 * 2 ^ (- e)).

(** The integer part of [(+/- m) * 2^e], rounding toward zero. *)
Definition truncate (s : bool) (m : positive) (e : Z) : Z :=
  let a := if 0 <=? e then Z.pos m * 2 ^ e else Z.pos m / 2 ^ (- e) in
  if s then - a else a.

(** The binary64 value of a positive integer of at most 53 bits: the
    mantissa is shifted left until it has 53 bits. *)
Definition mantissaOf (r : positive) : positive :=
  match Z.sub 53 (Z.pos (digits2_pos r)) with Zpos k => Pos.iter xO r k | _ => r end.

Definition canonical (r : positive) : spec_float :=
  S754_finite false (mantissaOf r) (Z.pos (digits2_pos r) - 53).

Definition ofZ (r : Z) : number :=
  match r with
  | Z0 => 0%float
  | Zpos p => SF2Prim (canonical p)
  | Zneg p => (- SF2Prim (canonical p))%float
  end.

(** [Math.round]: the integral number closest to [x], ties toward
    +Infinity; NaN, the infinities and numbers that are already
    integral are returned unchanged, and a negative [x] that rounds to
    zero gives -0. *)
Definition Math_round (x : number) : number :=
  match Prim2SF x with
  | S754_finite s m e =>
      if 0 <=? e then x
      else match roundHalfUp s m e 1 with
           | Z0 => if s then (-0)%float else 0%float
           | r => ofZ r
           end
  | _ => x
  end.

(** [Math.floor]: the largest integral number not above [x]. *)
Definition Math_floor (x : number) : number :=
  match Prim2SF x with
  | S754_finite s m e =>
      if 0 <=? e then x
      else match (if s then Z.neg m else Z.pos m) / 2 ^ (- e) with
           | Z0 => 0%float
           | k => ofZ k
           end
  | _ => x
  end.

Definition Math_abs (x : number) : number := abs x.

(** *** Strings

    A string is carried as the bytes of its UTF-8 encoding: a character
    below U+0080 is one byte, and literals such as "°F" stand for the
    bytes of their characters. *)

Definition decimal (n : N) : list ascii :=
  list_ascii_of_string (NilZero.string_of_uint (N.to_uint n)).

(** [String(z)] for an integral number. *)
Definition stringOfZ (z : Z) : string :=
  match z with
  | Zneg p => String "-" (string_of_list_ascii (decimal (Npos p)))
  | _ => string_of_list_ascii (decimal (Z.to_N z))
  end.

Fixpoint repeatChar (n : nat) (c : ascii) : string :=
  match n with O => EmptyString | S n' => String c (repeatChar n' c) end.

(** [s.padStart(n, c)] with a one-character filler. *)
Definition padStart (n : nat) (c : ascii) (s : string) : string :=
  (repeatChar (n - String.length s) c ++ s)%string.

(** The code point at the head of a string and the number of bytes of
    its UTF-8 encoding; [None] when the string is empty or does not start
    with a well-formed encoding. *)
Definition continuationByte (b : ascii) : option N :=
  let n := N_of_ascii b in
  if ((128 <=? n) && (n <? 192))%N then Some (n - 128)%N else None.

Definition headCodePoint (s : string) : option (N * nat) :=
  match s with
  | EmptyString => None
  | String b0 r0 =>
      let n0 := N_of_ascii b0 in
      if (n0 <? 128)%N then Some (n0, 1%nat)
      else if (n0 <? 192)%N then None
      else if (n0 <? 224)%N then
        match r0 with
        | String b1 _ =>
            match continuationByte b1 with
            | Some c1 => Some (((n0 - 192) * 64 + c1)%N, 2%nat)
            | None => None
            end
        | EmptyString => None
        end
      else if (n0 <? 240)%N then
        match r0 with
        | String b1 (String b2 _) =>
            match continuationByte b1, continuationByte b2 with
            | Some c1, Some c2 => Some ((((n0 - 224) * 64 + c1) * 64 + c2)%N, 3%nat)
            | _, _ => None
            end
        | _ => None
        end
      else if (n0 <? 248)%N then
        match r0 with
        | String b1 (String b2 (String b3 _)) =>
            match continuationByte b1, continuationByte b2, continuationByte b3 with
            | Some c1, Some c2, Some c3 =>
                Some (((((n0 - 240) * 64 + c1) * 64 + c2) * 64 + c3)%N, 4%nat)
            | _, _, _ => None
            end
        | _ => None
        end
      else None
  end.

(** StrWhiteSpaceChar, by code point: the WhiteSpace characters (TAB,
    VT, FF, ZWNBSP and the Unicode category Zs) and the LineTerminator
    characters (LF, CR, LS, PS). *)
Definition isStrWhiteSpaceChar (c : N) : bool :=
  ((c =? 9) || (c =? 11) || (c =? 12) || (c =? 65279)          (* TAB VT FF ZWNBSP *)
   || (c =? 32) || (c =? 160) || (c =? 5760)                    (* Zs *)
   || ((8192 <=? c) && (c <=? 8202))
   || (c =? 8239) || (c =? 8287) || (c =? 12288)
   || (c =? 10) || (c =? 13) || (c =? 8232) || (c =? 8233))%N.  (* LF CR LS PS *)

(** The number of bytes of the white space character at the head of
    [s]; 0 when [s] does not start with one. *)
Definition whiteSpaceBytes (s : string) : nat :=
  match headCodePoint s with
  | Some (c, n) => if isStrWhiteSpaceChar c then n else O
  | None => O
  end.

Fixpoint trimStart (s : string) : string :=
  match whiteSpaceBytes s, s with
  | 1%nat, String _ r => trimStart r
  | 2%nat, String _ (String _ r) => trimStart r
  | 3%nat, String _ (String _ (String _ r)) => trimStart r
  | _, _ => s
  end.

(** [s] without the white space at its end: a suffix of white space
    only is dropped. *)
Fixpoint trimEnd (s : string) : string :=
  match s with
  | EmptyString => EmptyString
  | String b r => if String.eqb (trimStart s) "" then EmptyString else String b (trimEnd r)
  end.

Definition trim (s : string) : string := trimEnd (trimStart s).

Definition contains (needle hay : string) : bool :=
  let n := String.length needle in
  existsb (fun i => String.eqb (substring i n hay) needle)
          (seq 0 (S (String.length hay - n))).

(** *** The decimal numeral of a number

    What is printed for a number is the decimal numeral that
    Number::toString defines: of the decimals [c * 10^q] whose nearest
    binary64 number is the number itself, the one with the fewest digits
    and, among those, the one closest to its value. *)

Definition pow10 (q : Z) : Q := (10 ^ q)%Q.

(** [a * 2^e]. *)
Definition dyadic (a e : Z) : Q := (inject_Z a * 2 ^ e)%Q.

(** [d] is read back as the number [m * 2^e]: it lies between the
    midpoints to the two neighbouring numbers.  The lower neighbour is
    half as far when [m] is the least mantissa of its exponent; the
    midpoints themselves go to the number whose mantissa is even. *)
Definition readsBack (m : positive) (e : Z) (d : Q) : bool :=
  let low :=
    if (Z.pos m =? 2 ^ 52) && (-1074 <? e) then dyadic (4 * Z.pos m - 1) (e - 2)
    else dyadic (2 * Z.pos m - 1) (e - 1) in
  let high := dyadic (2 * Z.pos m + 1) (e - 1) in
  if Z.even (Z.pos m) then Qle_bool low d && Qle_bool d high
  else negb (Qle_bool d low) && negb (Qle_bool high d).

(** The multiple of [10^q] that is read back as [m * 2^e] and is closest
    to it, if there is one: the multiple just below or the one just
    above. *)
Definition closestMultiple (m : positive) (e : Z) (q : Z) : option Z :=
  let scaled := (dyadic (Z.pos m) e / pow10 q)%Q in
  let c := Qfloor scaled in
  match readsBack m e (inject_Z c * pow10 q), readsBack m e (inject_Z (c + 1) * pow10 q) with
  | true, false => Some c
  | false, true => Some (c + 1)
  | false, false => None
  | true, true =>
      match (scaled - inject_Z c ?= 1 # 2)%Q with
      | Lt => Some c
      | Gt => Some (c + 1)
      | Eq => if Z.even c then Some c else Some (c + 1)
      end
  end.

(** The value itself as a decimal. *)
Definition exactDecimal (m : positive) (e : Z) : Z * Z :=
  if 0 <=? e then (Z.pos m * 2 ^ e, 0) else (Z.pos m * 5 ^ (- e), e).

(** An exponent [q] with [m * 2^e < 10^q]: with [b] the number of bits
    of [m] plus [e], the value is below [2^b], and [log 2 / log 10] lies
    between 0.30102 and 0.30103. *)
Definition exponentAbove (m : positive) (e : Z) : Z :=
  let b := Z.pos (digits2_pos m) + e in
  (if 0 <=? b then b * 30103 else b * 30102) / 100000 + 1.

(** The fewest digits are those of the largest [q] that has such a
    multiple.  [q] runs down from an exponent above that of the value;
    17 digits always suffice, so that the search ends long before the
    25th step. *)
Fixpoint shortestFrom (fuel : nat) (q : Z) (m : positive) (e : Z) : Z * Z :=
  match fuel with
  | O => exactDecimal m e
  | S fuel' =>
      match closestMultiple m e q with
      | Some c => (c, q)
      | None => shortestFrom fuel' (q - 1) m e
      end
  end.

Definition shortestDecimal (m : positive) (e : Z) : Z * Z :=
  shortestFrom 25 (exponentAbove m e) m e.

(** *** Number.prototype.toLocaleString('en-US', ...)

    Decimal style, comma grouping, [minFD]..[maxFD] fraction digits, as
    V8 prints it with ICU: the decimal numeral of the number is rounded
    to [maxFD] fraction digits, ties away from zero ("halfExpand");
    trailing zeros beyond [minFD] are dropped; the sign of a negative
    number, negative zero included, is kept. *)

(** The integer nearest to [c * 10^j] for [c >= 0], ties going up. *)
Definition roundDecimal (c j : Z) : Z :=
  if 0 <=? j then c * 10 ^ j else (2 * c + 10 ^ (- j)) / (2 * 10 ^ (- j)).

Definition digitChar (d : Z) : ascii := ascii_of_N (48 + Z.to_N d).

Fixpoint fractionDigits (f : nat) (n : Z) : list ascii :=
  match f with
  | O => []
  | S f' => fractionDigits f' (n / 10) ++ [digitChar (n mod 10)]
  end.

Fixpoint dropZeros (k : nat) (l : list ascii) : list ascii :=
  match k, l with
  | S k', c :: l' => if Ascii.eqb c "0" then dropZeros k' l' else l
  | _, _ => l
  end.

Definition stripTrailingZeros (minFD : nat) (ds : list ascii) : list ascii :=
  rev (dropZeros (List.length ds - minFD) (rev ds)).

(** Grouping works from the least significant digit: every complete
    group of three that has a digit to its left is preceded by a comma. *)
Fixpoint groupRev (l : list ascii) : list ascii :=
  match l with
  | a :: b :: c :: ((_ :: _) as rest) => a :: b :: c :: ","%char :: groupRev rest
  | _ => l
  end.

Definition groupThousands (ds : list ascii) : list ascii := rev (groupRev (rev ds)).

(** [n] is the magnitude scaled by [10^maxFD] and rounded. *)
Definition formatFixed (minFD maxFD : nat) (n : Z) : list ascii :=
  let p := 10 ^ Z.of_nat maxFD in
  let frac := stripTrailingZeros minFD (fractionDigits maxFD (n mod p)) in
  groupThousands (decimal (Z.to_N (n / p)))
  ++ match frac with [] => [] | _ => "."%char :: frac end.

Definition signPrefix (s : bool) : list ascii := if s then ["-"%char] else [].

Definition toLocaleString (minFD maxFD : nat) (x : number) : string :=
  match Prim2SF x with
  | S754_nan => "NaN"%string
  | S754_infinity s => (string_of_list_ascii (signPrefix s) ++ "∞")%string
  | S754_zero s => string_of_list_ascii (signPrefix s ++ formatFixed minFD maxFD 0)
  | S754_finite s m e =>
      let (c, q) := shortestDecimal m e in
      string_of_list_ascii
        (signPrefix s ++ formatFixed minFD maxFD (roundDecimal c (q + Z.of_nat maxFD)))
  end.

End Js.

Import Js.
Notation "x <- c ;; k" := (Js.bind c (fun x => k))
  (at level 61, c at next level, right associativity).

(* ================================================================= *)
(** ** conversion-utils.ts *)

Record ConversionResult : Type := {
  unitId : string;
  unitName : string;
  symbol : string;
  value : string  (* smart formatted: no decimals if whole, 2 decimals otherwise *)
}.

Definition isWholeNumber (num : number) : bool :=
  (Math_abs (num - Math_round num) <? 0.0001)%float.

Definition formatNumber (num : number) : string :=
  if isWholeNumber num then
    (* whole number with commas *)
    toLocaleString 0 3 (Math_round num)
  else
    (* 2 decimal places and commas *)
    toLocaleString 2 2 num.

(* ================================================================= *)
(** ** length.ts, volume.ts, weight.ts *)

(** [LengthUnit], [VolumeUnit] and [WeightUnit] are the same interface. *)
Record Unit : Type := {
  id : string;
  name : string;
  unitSymbol : string;
  toBase : number -> number;
  fromBase : number -> number
}.

Section LinearEngine.
(** The body shared, word for word, by [convertLength], [convertVolume]
    and [convertWeight]; [units] is the category's table. *)
Variable units : Js.object Unit.

Definition convertWith (value : number) (fromUnitId : string)
  : completion (list ConversionResult) :=
  match Js.get units fromUnitId with
  | Undefined => Throw (Error ("Invalid unit ID: " ++ fromUnitId))
  | Inherited =>
      (* [!fromUnit] is false; [fromUnit.toBase] is undefined *)
      Throw (TypeError "fromUnit.toBase is not a function")
  | Own fromUnit =>
      let baseValue := toBase fromUnit value in
      Return
        (map (fun unit =>
                {| unitId := id unit;
                   unitName := name unit;
                   symbol := unitSymbol unit;
                   value := formatNumber (fromBase unit baseValue) |})
             (filter (fun unit => negb (String.eqb (id unit) fromUnitId))
                     (Js.values units)))
  end.

Definition unitNames : list string := map name (Js.values units).
End LinearEngine.

Section Tables.
Local Open Scope float_scope.
Local Open Scope string_scope.

Definition lengthUnits : Js.object Unit :=
  [ ("kilometer",
     {| id := "kilometer"; name := "Kilometers"; unitSymbol := "km";
        toBase := fun value => value * 1000;
        fromBase := fun value => value / 1000 |});
    ("mile",
     {| id := "mile"; name := "Miles"; unitSymbol := "mi";
        toBase := fun value => value * 1609.344;
        fromBase := fun value => value / 1609.344 |});
    ("inch",
     {| id := "inch"; name := "Inches"; unitSymbol := "in";
        toBase := fun value => value * 0.0254;
        fromBase := fun value => value / 0.0254 |});
    ("foot",
     {| id := "foot"; name := "Feet"; unitSymbol := "ft";
        toBase := fun value => value * 0.3048;
        fromBase := fun value => value / 0.3048 |});
    ("yard",
     {| id := "yard"; name := "Yards"; unitSymbol := "yd";
        toBase := fun value => value * 0.9144;
        fromBase := fun value => value / 0.9144 |});
    ("millimeter",
     {| id := "millimeter"; name := "Millimeters"; unitSymbol := "mm";
        toBase := fun value => value / 1000;
        fromBase := fun value => value * 1000 |});
    ("centimeter",
     {| id := "centimeter"; name := "Centimeters"; unitSymbol := "cm";
        toBase := fun value => value / 100;
        fromBase := fun value => value * 100 |});
    ("meter",
     {| id := "meter"; name := "Meters"; unitSymbol := "m";
        toBase := fun value => value;
        fromBase := fun value => value |}) ]%list.

Definition volumeUnits : Js.object Unit :=
  [ ("milliliter",
     {| id := "milliliter"; name := "Milliliters"; unitSymbol := "mL";
        toBase := fun value => value / 1000;
        fromBase := fun value => value * 1000 |});
    ("liter",
     {| id := "liter"; name := "Liters"; unitSymbol := "L";
        toBase := fun value => value;
        fromBase := fun value => value |});
    ("fluidOunce",
     {| id := "fluidOunce"; name := "Fluid Ounces"; unitSymbol := "fl oz";
        toBase := fun value => value * 0.0295735;
        fromBase := fun value => value / 0.0295735 |});
    ("cup",
     {| id := "cup"; name := "Cups"; unitSymbol := "cup";
        toBase := fun value => value * 0.236588;
        fromBase := fun value => value / 0.236588 |});
    ("pint",
     {| id := "pint"; name := "Pints"; unitSymbol := "pt";
        toBase := fun value => value * 0.473176;
        fromBase := fun value => value / 0.473176 |});
    ("quart",
     {| id := "quart"; name := "Quarts"; unitSymbol := "qt";
        toBase := fun value => value * 0.946353;
        fromBase := fun value => value / 0.946353 |});
    ("gallon",
     {| id := "gallon"; name := "Gallons"; unitSymbol := "gal";
        toBase := fun value => value * 3.78541;
        fromBase := fun value => value / 3.78541 |}) ]%list.

Definition weightUnits : Js.object Unit :=
  [ ("gram",
     {| id := "gram"; name := "Grams"; unitSymbol := "g";
        toBase := fun value => value / 1000;
        fromBase := fun value => value * 1000 |});
    ("kilogram",
     {| id := "kilogram"; name := "Kilograms"; unitSymbol := "kg";
        toBase := fun value => value;
        fromBase := fun value => value |});
    ("metricTon",
     {| id := "metricTon"; name := "Metric Tons"; unitSymbol := "t";
        toBase := fun value => value * 1000;
        fromBase := fun value => value / 1000 |});
    ("ounce",
     {| id := "ounce"; name := "Ounces"; unitSymbol := "oz";
        toBase := fun value => value * 0.0283495;
        fromBase := fun value => value / 0.0283495 |});
    ("pound",
     {| id := "pound"; name := "Pounds"; unitSymbol := "lb";
        toBase := fun value => value * 0.453592;
        fromBase := fun value => value / 0.453592 |});
    ("usTon",
     {| id := "usTon"; name := "US Tons"; unitSymbol := "ton";
        toBase := fun value => value * 907.185;
        fromBase := fun value => value / 907.185 |});
    ("stone",
     {| id := "stone"; name := "Stone"; unitSymbol := "st";
        toBase := fun value => value * 6.35029;
        fromBase := fun value => value / 6.35029 |}) ]%list.
End Tables.

Definition convertLength := convertWith lengthUnits.
Definition convertVolume := convertWith volumeUnits.
Definition convertWeight := convertWith weightUnits.

Definition getLengthUnitNames := unitNames lengthUnits.
Definition getVolumeUnitNames := unitNames volumeUnits.
Definition getWeightUnitNames := unitNames weightUnits.

(* ================================================================= *)
(** ** temperature.ts *)

Record TemperatureUnit : Type := {
  tid : string;
  tname : string;
  tsymbol : string
}.

Section Temperature.
Local Open Scope float_scope.
Local Open Scope string_scope.

Definition temperatureUnits : Js.object TemperatureUnit :=
  [ ("celsius", {| tid := "celsius"; tname := "Celsius"; tsymbol := "°C" |});
    ("fahrenheit", {| tid := "fahrenheit"; tname := "Fahrenheit"; tsymbol := "°F" |});
    ("kelvin", {| tid := "kelvin"; tname := "Kelvin"; tsymbol := "K" |}) ]%list.

Definition celsiusToFahrenheit (celsius : number) : number := (celsius * 9) / 5 + 32.
Definition celsiusToKelvin (celsius : number) : number := celsius + 273.15.
Definition fahrenheitToCelsius (fahrenheit : number) : number := ((fahrenheit - 32) * 5) / 9.
Definition fahrenheitToKelvin (fahrenheit : number) : number :=
  ((fahrenheit - 32) * 5) / 9 + 273.15.
Definition kelvinToCelsius (kelvin : number) : number := kelvin - 273.15.
Definition kelvinToFahrenheit (kelvin : number) : number := ((kelvin - 273.15) * 9) / 5 + 32.

Definition convertTemperature (value : number) (fromUnitId : string)
  : completion (list ConversionResult) :=
  match Js.get temperatureUnits fromUnitId with
  | Undefined => Throw (Error ("Invalid unit ID: " ++ fromUnitId))
  | _ =>
      if String.eqb fromUnitId "celsius" then
        Return
          [ {| unitId := "fahrenheit"; unitName := "Fahrenheit"; symbol := "°F";
               value := formatNumber (celsiusToFahrenheit value) |};
            {| unitId := "kelvin"; unitName := "Kelvin"; symbol := "K";
               value := formatNumber (celsiusToKelvin value) |} ]%list
      else if String.eqb fromUnitId "fahrenheit" then
        Return
          [ {| unitId := "celsius"; unitName := "Celsius"; symbol := "°C";
               value := formatNumber (fahrenheitToCelsius value) |};
            {| unitId := "kelvin"; unitName := "Kelvin"; symbol := "K";
               value := formatNumber (fahrenheitToKelvin value) |} ]%list
      else if String.eqb fromUnitId "kelvin" then
        Return
          [ {| unitId := "celsius"; unitName := "Celsius"; symbol := "°C";
               value := formatNumber (kelvinToCelsius value) |};
            {| unitId := "fahrenheit"; unitName := "Fahrenheit"; symbol := "°F";
               value := formatNumber (kelvinToFahrenheit value) |} ]%list
      else
        Throw (Error ("Unsupported temperature unit: " ++ fromUnitId))
  end.

Definition getTemperatureUnitNames : list string :=
  map tname (Js.values temperatureUnits).
End Temperature.

(* ================================================================= *)
(** ** The Date object *)

Module JsDate.

(** A Date is its time value: an integral number of milliseconds since
    the epoch, of magnitude at most 8.64e15, or NaN ([None]). *)
Definition Date := option Z.

Definition msPerDay : Z := 86400000.
Definition msPerMinute : Z := 60000.
Definition maxTime : Z := 8640000000000000.

(** [TimeClip]. *)
Definition timeClip (t : Z) : Date :=
  if maxTime <? Z.abs t then None else Some t.

(** [new Date(value)] for a number: a finite number is truncated to an
    integer; beyond 8.64e15, where every binary64 value is integral,
    the Date is invalid. *)
Definition ofNumber (v : number) : Date :=
  match Prim2SF v with
  | S754_zero _ => Some 0
  | S754_finite s m e => timeClip (truncate s m e)
  | _ => None
  end.

Definition getTime (d : Date) : number :=
  match d with
  | Some t => ofZ t
  | None => nan
  end.

(** Proleptic Gregorian calendar: the civil date of a day number
    (days since 1970-01-01) and back; months count from 1 here. *)
Definition civilFromDays (day : Z) : Z * Z * Z :=
  let z := day + 719468 in
  let era := z / 146097 in
  let doe := z - era * 146097 in
  let yoe := (doe - doe / 1460 + doe / 36524 - doe / 146096) / 365 in
  let doy := doe - (365 * yoe + yoe / 4 - yoe / 100) in
  let mp := (5 * doy + 2) / 153 in
  let d := doy - (153 * mp + 2) / 5 + 1 in
  let m := if mp <? 10 then mp + 3 else mp - 9 in
  let y := yoe + era * 400 + (if m <=? 2 then 1 else 0) in
  (y, m, d).

Definition daysFromCivil (y m d : Z) : Z :=
  let y' := if m <=? 2 then y - 1 else y in
  let era := y' / 400 in
  let yoe := y' - era * 400 in
  let doy := (153 * (if 2 <? m then m - 3 else m + 9) + 2) / 5 + d - 1 in
  let doe := yoe * 365 + yoe / 4 - yoe / 100 + doy in
  era * 146097 + doe - 719468.

Definition yearOf (t : Z) : Z := fst (fst (civilFromDays (t / msPerDay))).
Definition monthOf (t : Z) : Z := snd (fst (civilFromDays (t / msPerDay))) - 1.
Definition dateOf (t : Z) : Z := snd (civilFromDays (t / msPerDay)).
Definition hourOf (t : Z) : Z := (t mod msPerDay) / 3600000.
Definition minuteOf (t : Z) : Z := (t mod 3600000) / 60000.
Definition secondOf (t : Z) : Z := (t mod 60000) / 1000.
Definition msOf (t : Z) : Z := t mod 1000.

Definition pad (n : nat) (z : Z) : string := padStart n "0" (stringOfZ z).

(** [Date.prototype.toISOString]: throws on an invalid Date. *)
Definition toISOString (d : Date) : completion string :=
  match d with
  | None => Throw (RangeError "Invalid time value")
  | Some t =>
      let y := yearOf t in
      let year :=
        if (0 <=? y) && (y <=? 9999) then pad 4 y
        else ((if (y <? 0)%Z then "-" else "+") ++ pad 6 (Z.abs y))%string in
      Return (year ++ "-" ++ pad 2 (monthOf t + 1) ++ "-" ++ pad 2 (dateOf t)
              ++ "T" ++ pad 2 (hourOf t) ++ ":" ++ pad 2 (minuteOf t)
              ++ ":" ++ pad 2 (secondOf t) ++ "." ++ pad 3 (msOf t) ++ "Z")%string
  end.

Section LocalZone.
(** [LocalTZA(t, isUTC)]: the offset of the local time zone in
    milliseconds, an implementation-defined function of the host. *)
Variable LocalTZA : Z -> bool -> Z.

Definition LocalTime (t : Z) : Z := t + LocalTZA t true.
Definition UTC (t : Z) : Z := t - LocalTZA t false.

(** The local getters give NaN on an invalid Date. *)
Definition getFullYear (d : Date) : option Z := option_map (fun t => yearOf (LocalTime t)) d.
Definition getMonth (d : Date) : option Z := option_map (fun t => monthOf (LocalTime t)) d.
Definition getDate (d : Date) : option Z := option_map (fun t => dateOf (LocalTime t)) d.
Definition getHours (d : Date) : option Z := option_map (fun t => hourOf (LocalTime t)) d.
Definition getMinutes (d : Date) : option Z := option_map (fun t => minuteOf (LocalTime t)) d.
Definition getSeconds (d : Date) : option Z := option_map (fun t => secondOf (LocalTime t)) d.

(** [getTimezoneOffset()] is [(t - LocalTime t) / msPerMinute]; the
    model keeps the undivided difference, which compares the same way. *)
Definition timezoneOffsetMs (d : Date) : option Z :=
  option_map (fun t => t - LocalTime t) d.

(** [new Date(year, month, 1)] in local time; a year in 0..99 means
    1900 + year. *)
Definition ofLocalYearMonth (year : option Z) (month : Z) : Date :=
  match year with
  | None => None
  | Some y =>
      let yr := if (0 <=? y) && (y <=? 99) then 1900 + y else y in
      timeClip (UTC (daysFromCivil yr (month + 1) 1 * msPerDay))
  end.

(** The local midnight that starts calendar day [day]. *)
Definition localMidnight (day : Z) : Z := UTC (day * msPerDay).

(** [d.setHours(0, 0, 0, 0)]. *)
Definition startOfDay (d : Date) : Date :=
  match d with
  | None => None
  | Some t => timeClip (localMidnight (LocalTime t / msPerDay))
  end.
End LocalZone.

End JsDate.

(* ================================================================= *)
(** ** time.ts *)

(** Integral results of the Date getters, NaN being [None]. *)
Definition integral := option Z.

Record TimeConversionResult : Type := {
  unixSeconds : number;
  unixMilliseconds : number;
  localDatetime : string;
  utcDatetime : string;
  timezone : string;
  isDST : bool
}.

Section TimeEngine.
Import JsDate.
Local Open Scope string_scope.

(** The host: the local time zone, the Date string parser (the time
    value a string denotes, [None] when it denotes none) and the zone
    name Intl.DateTimeFormat reports for an instant. *)
Variable LocalTZA : Z -> bool -> Z.
Variable Date_parse : string -> option Z.
Variable timeZoneNamePart : Z -> option string.
(** [StringNumericValue]: the number denoted by a non-empty, trimmed
    numeric string, NaN when it is not a numeric literal. *)
Variable StringNumericValue : string -> number.

(** [String(n)] for a getter result. *)
Definition showIntegral (n : integral) : string :=
  match n with Some z => stringOfZ z | None => "NaN" end.

Definition formatLocalDatetime (date : Date) : string :=
  let year := showIntegral (getFullYear LocalTZA date) in
  let month := padStart 2 "0" (showIntegral (option_map (fun m => m + 1) (getMonth LocalTZA date))) in
  let day := padStart 2 "0" (showIntegral (getDate LocalTZA date)) in
  let hours := padStart 2 "0" (showIntegral (getHours LocalTZA date)) in
  let minutes := padStart 2 "0" (showIntegral (getMinutes LocalTZA date)) in
  let seconds := padStart 2 "0" (showIntegral (getSeconds LocalTZA date)) in
  year ++ "-" ++ month ++ "-" ++ day ++ "T" ++ hours ++ ":" ++ minutes ++ ":" ++ seconds.

(** [Math.max] and [<] on offsets that may be NaN. *)
Definition maxOffset (a b : option Z) : option Z :=
  match a, b with Some x, Some y => Some (Z.max x y) | _, _ => None end.
Definition ltOffset (a b : option Z) : bool :=
  match a, b with Some x, Some y => (x <? y)%Z | _, _ => false end.

Definition getTimezoneInfo (date : Date) : completion (string * bool) :=
  match date with
  | None => Throw (RangeError "Invalid time value")   (* formatToParts *)
  | Some t =>
      let timezone :=
        match timeZoneNamePart t with
        | Some v => if String.eqb v "" then "Unknown" else v
        | None => "Unknown"
        end in
      let january := ofLocalYearMonth LocalTZA (getFullYear LocalTZA date) 0 in
      let july := ofLocalYearMonth LocalTZA (getFullYear LocalTZA date) 6 in
      let stdOffset :=
        maxOffset (timezoneOffsetMs LocalTZA january) (timezoneOffsetMs LocalTZA july) in
      let isDST := ltOffset (timezoneOffsetMs LocalTZA date) stdOffset in
      Return (timezone, isDST)
  end.

Definition convertDate (date : Date) : completion TimeConversionResult :=
  let unixMilliseconds := getTime date in
  let unixSeconds := Math_floor (unixMilliseconds / 1000)%float in
  let localDatetime := formatLocalDatetime date in
  utcDatetime <- toISOString date ;;
  info <- getTimezoneInfo date ;;
  Return {| unixSeconds := unixSeconds;
            unixMilliseconds := unixMilliseconds;
            localDatetime := localDatetime;
            utcDatetime := utcDatetime;
            timezone := fst info;
            isDST := snd info |}.

(** [getCurrentTime]; [now] is the clock reading of [new Date()]. *)
Definition getCurrentTime (now : Z) : completion TimeConversionResult :=
  let date : Date := timeClip now in
  let unixMilliseconds := getTime date in
  let unixSeconds := Math_floor (unixMilliseconds / 1000)%float in
  let localDatetime := formatLocalDatetime date in
  utcDatetime <- toISOString date ;;
  info <- getTimezoneInfo date ;;
  Return {| unixSeconds := unixSeconds;
            unixMilliseconds := unixMilliseconds;
            localDatetime := localDatetime;
            utcDatetime := utcDatetime;
            timezone := fst info;
            isDST := snd info |}.

Definition fromUnixSeconds (seconds : number) : completion TimeConversionResult :=
  let date := ofNumber (seconds * 1000)%float in
  convertDate date.

Definition fromUnixMilliseconds (milliseconds : number) : completion TimeConversionResult :=
  let date := ofNumber milliseconds in
  convertDate date.

(** [new Date(string)]: the parsed time value, clipped. *)
Definition newDate (text : string) : Date :=
  match Date_parse text with
  | Some t => timeClip t
  | None => None
  end.

Definition fromLocalDatetime (datetimeString : string) : completion TimeConversionResult :=
  let date := newDate datetimeString in
  convertDate date.

Definition fromUTCDatetime (datetimeString : string) : completion TimeConversionResult :=
  let date := newDate datetimeString in
  convertDate date.

(** [Number(value)] on a string: surrounding white space is ignored
    and the empty string is +0. *)
Definition Number (value : string) : number :=
  let text := trim value in
  if String.eqb text "" then 0%float else StringNumericValue text.

Definition isValidUnixSeconds (value : string) : bool :=
  let num := Number value in
  if isNaN num || negb (isFinite num) then false
  else ((0 <=? num) && (num <=? 4102444800))%float.

Definition isValidUnixMilliseconds (value : string) : bool :=
  let num := Number value in
  if isNaN num || negb (isFinite num) then false
  else ((0 <=? num) && (num <=? 4102444800000))%float.

Definition isValidDatetime (value : string) : bool :=
  let date := newDate value in
  negb (isNaN (getTime date)).
End TimeEngine.

(* ================================================================= *)
(** ** The date calculator form (difference mode) *)

Section DateCalculator.
Import JsDate.

(** [Math.round((toDate.getTime() - fromDate.getTime()) / (1000 * 60 * 60 * 24))]. *)
Definition dayDifference (fromDate toDate : Date) : number :=
  Math_round ((getTime toDate - getTime fromDate) / (1000 * 60 * 60 * 24))%float.

(** The effect of the form with the two modes, in mode 'date': a form
    value may be missing ([None]) or an invalid Date; the result is the
    day difference or [null] ([None]). *)
Definition differenceMode (fromDate toDate : option Date) : option number :=
  match fromDate with
  | None => None
  | Some f =>
      if isNaN (getTime f) then None
      else match toDate with
           | None => None
           | Some t => if isNaN (getTime t) then None else Some (dayDifference f t)
           end
  end.

End DateCalculator.

(* ================================================================= *)
(** ** The numbers calculator form *)

Record CompareFormData : Type := { first : string; second : string }.
Record CompareResult : Type := { diff : number; percent : number }.
Record PercentFormData : Type := { base : string; percentText : string }.

Section NumbersCalculator.
(** [parseFloat] of the host. *)
Variable parseFloat : string -> number.
Local Open Scope float_scope.

Definition handleCompare (data : CompareFormData) : CompareResult :=
  let first := parseFloat (first data) in
  let second := parseFloat (second data) in
  let diff := second - first in
  let percent := if strictNe first 0 then (diff / first) * 100 else 0 in
  {| diff := diff; percent := percent |}.

Definition handlePercent (data : PercentFormData) : number :=
  let base := parseFloat (base data) in
  let percent := parseFloat (percentText data) in
  base * (1 + percent / 100).
End NumbersCalculator.

(* ================================================================= *)
(** ** Vocabulary of the properties *)

(** The three linear categories and the engine of each. *)
Inductive LinearCategory : Type := Length | Volume | Weight.

Definition unitsOf (c : LinearCategory) : Js.object Unit :=
  match c with
  | Length => lengthUnits
  | Volume => volumeUnits
  | Weight => weightUnits
  end.

Definition convertIn (c : LinearCategory) : number -> string -> completion (list ConversionResult) :=
  match c with
  | Length => convertLength
  | Volume => convertVolume
  | Weight => convertWeight
  end.

(** A table is well formed when every entry is filed under its own id
    and no id occurs twice. *)
Definition wellKeyed (units : Js.object Unit) : Prop :=
  Forall (fun kv => id (snd kv) = fst kv) units /\ NoDup (Js.keys units).

(** The exact value of a finite number, as a rational. *)
Definition SFvalue (s : bool) (m : positive) (e : Z) : Q :=
  let v := if s then Z.neg m else Z.pos m in
  if 0 <=? e then inject_Z (v * 2 ^ e) else v # Z.to_pos (2 ^ (- e)).

Definition exactValue (x : number) : Q :=
  match Prim2SF x with
  | S754_finite s m e => SFvalue s m e
  | _ => 0
  end.

Definition signBit (x : number) : bool :=
  match Prim2SF x with
  | S754_zero s | S754_infinity s | S754_finite s _ _ => s
  | S754_nan => false
  end.

Definition pow2 (e : Z) : Q := (2 ^ e)%Q.

(** The unit in the last place of a finite number: the distance to the
    next number of larger magnitude. *)
Definition ulp (x : number) : Q :=
  match Prim2SF x with
  | S754_finite _ _ e => pow2 e
  | _ => 0
  end.

(** The magnitude of the decimal numeral of a finite number. *)
Definition printedMagnitude (x : number) : Q :=
  match Prim2SF x with
  | S754_finite _ m e => let (c, q) := Js.shortestDecimal m e in inject_Z c * Js.pow10 q
  | _ => 0
  end.

(** The integer nearest to the value of [x], ties going up, and the
    integer nearest to a hundred times the magnitude of its numeral. *)
Definition roundedZ (x : number) : Z := Qfloor (exactValue x + (1 # 2)).

Definition scaledMagnitude (x : number) : Z :=
  Qfloor (printedMagnitude x * inject_Z 100 + (1 # 2)).

Definition isDigit (c : ascii) : bool :=
  ((48 <=? N_of_ascii c) && (N_of_ascii c <=? 57))%N.

(** [Grouped ds out]: [out] is the digit string [ds] with a comma in
    front of every complete group of three digits counted from the
    right, the leading group having one to three digits. *)
Inductive Grouped : list ascii -> list ascii -> Prop :=
| Grouped_lead (ds : list ascii) :
    (1 <= List.length ds <= 3)%nat -> Grouped ds ds
| Grouped_more (ds out : list ascii) (a b c : ascii) :
    Grouped ds out -> Grouped (ds ++ [a; b; c]) (out ++ ","%char :: [a; b; c]).

(** [y] is finite and within relative distance [tol] of the finite [x],
    on exact values. *)
Definition withinRelative (tol : Q) (y x : number) : bool :=
  Js.isFinite y && Js.isFinite x
  && Qle_bool (Qabs (exactValue y - exactValue x)) (tol * Qabs (exactValue x)).

(** The numbers whose conversions neither overflow nor underflow. *)
Definition inSafeRange (x : number) : bool :=
  ((x =? 0) || ((1e-300 <=? abs x) && (abs x <=? 1e300)))%float.

(** The conversion factors of the tables: positive normal numbers
    between 2^-6 and 2^11. *)
Definition goodFactor (c : number) : bool :=
  match Prim2SF c with
  | S754_finite false m e => (Z.pos (digits2_pos m) =? 53) && (-58 <=? e) && (e <=? -42)
  | _ => false
  end.

(** The units of a table whose round trip leaves the 1e-9 tolerance at [x]. *)
Definition outOfTolerance (units : Js.object Unit) (x : number) : list string :=
  map id
    (filter (fun u => negb (withinRelative (1 # 1000000000) (fromBase u (toBase u x)) x))
            (Js.values units)).

(** [s] ends in a decimal point followed by exactly two digits. *)
Definition endsInTwoDecimals (s : string) : bool :=
  match rev (list_ascii_of_string s) with
  | d2 :: d1 :: p :: _ => isDigit d2 && isDigit d1 && Ascii.eqb p "."
  | _ => false
  end.

(** A host for examples: UTC as the local zone, a parser that knows one
    timestamp, and the zone name "UTC". *)
Definition utcZone : Z -> bool -> Z := fun _ _ => 0.
Definition epochParser : string -> option Z :=
  fun s => if String.eqb s "1970-01-01T00:00:00.000Z" then Some 0 else None.
Definition utcName : Z -> option string := fun _ => Some "UTC"%string.

(** A [parseFloat] for examples: it knows four numerals. *)
Definition sampleParseFloat (s : string) : number :=
  if String.eqb s "200" then 200%float
  else if String.eqb s "205" then 205%float
  else if String.eqb s "0" then 0%float
  else if String.eqb s "-0" then (-0)%float
  else if String.eqb s "5" then 5%float
  else nan.

(** A zone for examples: one hour ahead of UTC from day 19 000 on
    (a daylight-saving shift), on UTC before. *)
Definition shiftingZone : Z -> bool -> Z :=
  fun t _ => if 19000 * 86400000 <=? t then 3600000 else 0.

(** A zone for examples that crosses the date line: ten hours behind
    UTC until the end of its day 15 337 (29 December 2011) and fourteen
    hours ahead from then on, so that day 15 338 does not occur in it.
    A local time of the day that is skipped is read with the offset
    before the change. *)
Definition dateLineZone : Z -> bool -> Z :=
  fun t isUTC =>
    if isUTC then if t <? 15338 * 86400000 + 36000000 then -36000000 else 50400000
    else if t <? 15339 * 86400000 then -36000000 else 50400000.

(* ================================================================= *)
(** ** Unit lookup by display name *)

Section UnitLookup.
(** [String.prototype.toLowerCase] of the host. *)
Variable toLowerCase : string -> string.

(** The body shared by the [getUnitIdFromName] of length.ts, volume.ts
    and weight.ts: the id of the first unit of the table whose name
    equals [name'] when both are lower-cased, [undefined] ([None]) when
    there is none. *)
Definition getUnitIdFromName (units : Js.object Unit) (name' : string) : option string :=
  let unit :=
    find (fun u => String.eqb (toLowerCase (name u)) (toLowerCase name'))
         (Js.values units) in
  option_map id unit.

Definition getLengthUnitId := getUnitIdFromName lengthUnits.
Definition getVolumeUnitId := getUnitIdFromName volumeUnits.
Definition getWeightUnitId := getUnitIdFromName weightUnits.

(** [getUnitIdFromName] of temperature.ts. *)
Definition getTemperatureUnitId (name' : string) : option string :=
  let unit :=
    find (fun u => String.eqb (toLowerCase (tname u)) (toLowerCase name'))
         (Js.values temperatureUnits) in
  option_map tid unit.
End UnitLookup.

(* ================================================================= *)
(** ** unit-converter-form.tsx *)

Module UnitConverterForm.

Record FormData : Type := { value : string; fromUnit : string }.

(** The state the handler writes: [results] and [hasConverted]. *)
Record State : Type := { results : list ConversionResult; hasConverted : bool }.

Section Form.
Variable parseFloat : string -> number.
Variable convertFunction : number -> string -> completion (list ConversionResult).
Variable getUnitIdFunction : string -> option string.

(** The zod schema: both strings have at least one character and the
    value parses to a finite number. *)
Definition formSchema (data : FormData) : bool :=
  negb (String.eqb (value data) "")
  && (let num := parseFloat (value data) in negb (isNaN num) && isFinite num)
  && negb (String.eqb (fromUnit data) "").

(** [handleConvert]: an [undefined] or empty unit id is falsy and leaves
    the state as it is. *)
Definition handleConvert (data : FormData) (st : State) : completion State :=
  let numericValue := parseFloat (value data) in
  let unitId := getUnitIdFunction (fromUnit data) in
  match unitId with
  | Some unitId' =>
      if String.eqb unitId' "" then Return st
      else
        conversionResults <- convertFunction numericValue unitId' ;;
        Return {| results := conversionResults; hasConverted := true |}
  | None => Return st
  end.
End Form.

End UnitConverterForm.

(* ================================================================= *)
(** ** time.ts: display of timestamps *)

(** [seconds.toLocaleString('en-US')]: the default options keep at most
    three fraction digits. *)
Definition formatUnixSeconds (seconds : number) : string := toLocaleString 0 3 seconds.

Definition formatUnixMilliseconds (milliseconds : number) : string :=
  toLocaleString 0 3 milliseconds.

(* ================================================================= *)
(** ** time-converter-form.tsx *)

Module TimeConverterForm.

Record FormData : Type := { value : string; fromUnit : string }.

(** What [handleConvert] does to the component. *)
Inductive Effect : Type :=
| SetResults (conversionResult : TimeConversionResult)
    (* setResults(conversionResult); setHasConverted(true) *)
| SetError (message : string)
    (* form.setError('value', { type: 'manual', message }) *)
| NoEffect.
    (* the default case returns *)

Section Form.
Local Open Scope string_scope.
Variable LocalTZA : Z -> bool -> Z.
Variable Date_parse : string -> option Z.
Variable timeZoneNamePart : Z -> option string.
Variable StringNumericValue : string -> number.
Variable parseFloat : string -> number.

(** [createFormSchema(unitType)] applied to the form data. *)
Definition createFormSchema (unitType : string) (data : FormData) : bool :=
  negb (String.eqb (fromUnit data) "")
  && negb (String.eqb (value data) "")
  && (if String.eqb unitType "unix-seconds" then
        isValidUnixSeconds StringNumericValue (value data)
      else if String.eqb unitType "unix-milliseconds" then
        isValidUnixMilliseconds StringNumericValue (value data)
      else if String.eqb unitType "local-datetime" || String.eqb unitType "utc-datetime" then
        isValidDatetime Date_parse (value data)
      else true).

(** [handleConvert]: every exception of the conversion is caught and
    reported on the value field. *)
Definition handleConvert (data : FormData) : Effect :=
  let attempt :=
    if String.eqb (fromUnit data) "unix-seconds" then
      Some (fromUnixSeconds LocalTZA timeZoneNamePart (parseFloat (value data)))
    else if String.eqb (fromUnit data) "unix-milliseconds" then
      Some (fromUnixMilliseconds LocalTZA timeZoneNamePart (parseFloat (value data)))
    else if String.eqb (fromUnit data) "local-datetime" then
      Some (fromLocalDatetime LocalTZA Date_parse timeZoneNamePart (value data))
    else if String.eqb (fromUnit data) "utc-datetime" then
      Some (fromUTCDatetime LocalTZA Date_parse timeZoneNamePart (value data))
    else None in
  match attempt with
  | Some (Return conversionResult) => SetResults conversionResult
  | Some (Throw _) => SetError "Failed to convert. Please check your input."
  | None => NoEffect
  end.
End Form.

End TimeConverterForm.

(* ================================================================= *)
(** ** The numbers calculator form: its schemas *)

Section NumbersSchemas.
Variable StringNumericValue : string -> number.

(** A field of [compareSchema] and [percentSchema]: at least one
    character, and [Number] of it is not NaN. *)
Definition numberField (val : string) : bool :=
  negb (String.eqb val "") && negb (isNaN (Number StringNumericValue val)).

Definition compareSchema (data : CompareFormData) : bool :=
  numberField (first data) && numberField (second data).

Definition percentSchema (data : PercentFormData) : bool :=
  numberField (base data) && numberField (percentText data).
End NumbersSchemas.

(* ================================================================= *)
(** ** The Date object: setDate *)

Section DateSetters.
Import JsDate.
Variable LocalTZA : Z -> bool -> Z.

(** [MakeDay(year, month, date)] on integers: the day number of the
    first of the month, plus [date - 1]. *)
Definition MakeDay (year month date : Z) : Z :=
  let ym := year + month / 12 in
  let mn := month mod 12 in
  daysFromCivil ym (mn + 1) 1 + date - 1.

(** [MakeDate(day, time)]. *)
Definition MakeDate (day time : Z) : Z := day * msPerDay + time.

(** [d.setDate(dt)]: the day of the month of the local time of [d]
    becomes the integer part of [dt]; the Date is invalid when [d] is,
    or when [dt] is NaN or an infinity. *)
Definition setDate (d : Date) (dt : number) : Date :=
  match d with
  | None => None
  | Some t0 =>
      let t := LocalTime LocalTZA t0 in
      let newDate' (date : Z) :=
        MakeDate (MakeDay (yearOf t) (monthOf t) date) (t mod msPerDay) in
      match Prim2SF dt with
      | S754_zero _ => timeClip (UTC LocalTZA (newDate' 0))
      | S754_finite s m e => timeClip (UTC LocalTZA (newDate' (truncate s m e)))
      | _ => None
      end
  end.

(** A getter result as a number. *)
Definition numberOf (n : option Z) : number :=
  match n with Some z => ofZ z | None => nan end.
End DateSetters.

(* ================================================================= *)
(** ** The date calculator form: both modes *)

Module DateConverterForm.

(** The [result] state: [daysDiff] and [endDate], each possibly [null]. *)
Record Result : Type := { daysDiff : option number; endDate : option JsDate.Date }.

Section Form.
Variable LocalTZA : Z -> bool -> Z.
Variable StringNumericValue : string -> number.

(** [Number(days)]; the field is optional and [Number(undefined)] is NaN. *)
Definition NumberOfField (days : option string) : number :=
  match days with
  | Some text => Number StringNumericValue text
  | None => nan
  end.

(** The effect that computes the result from the watched form values:
    the new [result] state, or [None] when the effect leaves it as it
    is (a mode other than 'date' and 'days'). *)
Definition effect (mode : string) (fromDate toDate : option JsDate.Date)
    (days : option string) : option Result :=
  match fromDate with
  | None => Some {| daysDiff := None; endDate := None |}
  | Some fromDate' =>
      if isNaN (JsDate.getTime fromDate') then Some {| daysDiff := None; endDate := None |}
      else if String.eqb mode "date" then
        match toDate with
        | Some toDate' =>
            if negb (isNaN (JsDate.getTime toDate')) then
              let diff := dayDifference fromDate' toDate' in
              Some {| daysDiff := Some diff; endDate := None |}
            else Some {| daysDiff := None; endDate := None |}
        | None => Some {| daysDiff := None; endDate := None |}
        end
      else if String.eqb mode "days" then
        let n := NumberOfField days in
        if negb (isNaN n) then
          let end0 : JsDate.Date := fromDate' in   (* new Date(fromDate) *)
          let end1 :=
            setDate LocalTZA end0 (numberOf (JsDate.getDate LocalTZA end0) + n)%float in
          Some {| daysDiff := Some n; endDate := Some end1 |}
        else Some {| daysDiff := None; endDate := None |}
      else None
  end.
End Form.

End DateConverterForm.

(* ================================================================= *)
(** ** Vocabulary of the further properties *)

(** Lower-casing of the letters A to Z, and the strings of characters
    below 128, on which [toLowerCase] is that function. *)
Definition lowerChar (c : ascii) : ascii :=
  let n := N_of_ascii c in
  if ((65 <=? n) && (n <=? 90))%N then ascii_of_N (n + 32) else c.

Definition asciiLower (s : string) : string :=
  string_of_list_ascii (map lowerChar (list_ascii_of_string s)).

Definition isAscii (s : string) : bool :=
  forallb (fun c => (N_of_ascii c <? 128)%N) (list_ascii_of_string s).

Definition lowersAscii (toLowerCase : string -> string) : Prop :=
  forall s, isAscii s = true -> toLowerCase s = asciiLower s.

(** The integer part of a finite number, rounding toward zero. *)
Definition integerPart (x : number) : Z :=
  match Prim2SF x with
  | S754_finite s m e => Js.truncate s m e
  | _ => 0
  end.

(** A string of white space characters only. *)
Fixpoint isBlank (s : string) : bool :=
  match s with
  | EmptyString => true
  | String _ r0 =>
      match Js.whiteSpaceBytes s, r0 with
      | 1%nat, _ => isBlank r0
      | 2%nat, String _ r1 => isBlank r1
      | 3%nat, String _ (String _ r2) => isBlank r2
      | _, _ => false
      end
  end.

(** The strings of one character each: NO-BREAK SPACE (U+00A0),
    IDEOGRAPHIC SPACE (U+3000), ZERO WIDTH NO-BREAK SPACE (U+FEFF) and
    ZERO WIDTH SPACE (U+200B), which is not white space. *)
Definition noBreakSpace : string := String (ascii_of_N 194) (String (ascii_of_N 160) "").
Definition ideographicSpace : string :=
  String (ascii_of_N 227) (String (ascii_of_N 128) (String (ascii_of_N 128) "")).
Definition byteOrderMark : string :=
  String (ascii_of_N 239) (String (ascii_of_N 187) (String (ascii_of_N 191) "")).
Definition zeroWidthSpace : string :=
  String (ascii_of_N 226) (String (ascii_of_N 128) (String (ascii_of_N 139) "")).

(** A character of a digit group, as opposed to the separator. *)
Definition notComma (c : ascii) : bool := negb (Ascii.eqb c ","%char).

(** Checks over a range of integers, for the facts that are settled by
    running the code on every value of the range. *)
Fixpoint holdsFrom (f : Z -> bool) (from : Z) (n : nat) : bool :=
  match n with
  | O => true
  | S n' => f from && holdsFrom f (from + 1) n'
  end.

(** The exponent that the search for a numeral starts from, for a value
    below [2^b]: [10^q] is not below [2^b], and [10^(q-24)] is at most
    [2^(b-54)]. *)
Definition exponentCheck (b : Z) : bool :=
  let q := (if 0 <=? b then b * 30103 else b * 30102) / 100000 + 1 in
  Qle_bool (2 ^ b) (Js.pow10 q) && Qle_bool (Js.pow10 (q - 24)) (2 ^ (b - 54)).

(** The calendar functions on one 400-year era; [doe] is the day of the era. *)
Definition eraCheck (doe : Z) : bool :=
  let yoe := (doe - doe / 1460 + doe / 36524 - doe / 146096) / 365 in
  let doy := doe - (365 * yoe + yoe / 4 - yoe / 100) in
  let mp := (5 * doy + 2) / 153 in
  let d := doy - (153 * mp + 2) / 5 + 1 in
  let m := if mp <? 10 then mp + 3 else mp - 9 in
  (0 <=? yoe) && (yoe <=? 399) && (1 <=? m) && (m <=? 12) && (1 <=? d) && (d <=? 31)
  && (yoe * 365 + yoe / 4 - yoe / 100
      + ((153 * (if 2 <? m then m - 3 else m + 9) + 2) / 5 + d - 1) =? doe).

(** The decimal strings of the fields of a datetime. *)
Definition twoDigits (v : Z) : bool :=
  Nat.eqb (String.length (Js.padStart 2 "0" (Js.stringOfZ v))) 2.

Definition fourDigits (y : Z) : bool :=
  Nat.eqb (String.length (Js.stringOfZ y)) 4
  && String.eqb (JsDate.pad 4 y) (Js.stringOfZ y).

(* ================================================================= *)
(** * Properties *)

(** ** Property reads *)

Lemma getOwn_In {A} (obj : Js.object A) (key : string) :
  In key (Js.keys obj) -> exists v, Js.getOwn obj key = Some v /\ In (key, v) obj.
Proof.
  induction obj as [| [k v] rest IH]; simpl; [tauto |].
  intros Hin. destruct (String.eqb_spec k key) as [-> | Hne].
  - exists v. auto.
  - destruct Hin as [Heq | Hin]; [congruence |].
    destruct (IH Hin) as (w & Hw & Hi). exists w. auto.
Qed.

Lemma getOwn_notIn {A} (obj : Js.object A) (key : string) :
  ~ In key (Js.keys obj) -> Js.getOwn obj key = None.
Proof.
  induction obj as [| [k v] rest IH]; simpl; [reflexivity |].
  intros Hnot. destruct (String.eqb_spec k key) as [-> | Hne]; [tauto |].
  apply IH. tauto.
Qed.

Lemma get_absent {A} (obj : Js.object A) (key : string) :
  ~ In key (Js.keys obj) -> ~ In key Js.objectPrototypeKeys ->
  Js.get obj key = Undefined.
Proof.
  intros Hown Hproto. unfold Js.get. rewrite (getOwn_notIn _ _ Hown).
  destruct (existsb (String.eqb key) objectPrototypeKeys) eqn:E; [| reflexivity].
  apply existsb_exists in E. destruct E as (k & Hk & Heq).
  apply String.eqb_eq in Heq. subst k. contradiction.
Qed.

Lemma get_inherited {A} (obj : Js.object A) (key : string) :
  ~ In key (Js.keys obj) -> In key Js.objectPrototypeKeys ->
  Js.get obj key = Inherited.
Proof.
  intros Hown Hproto. unfold Js.get. rewrite (getOwn_notIn _ _ Hown).
  replace (existsb (String.eqb key) objectPrototypeKeys) with true; [reflexivity |].
  symmetry. apply existsb_exists. exists key. split; [assumption | apply String.eqb_refl].
Qed.

(** ** The linear engine on a well-keyed table *)

Lemma ids_of_entries (units : Js.object Unit) :
  Forall (fun kv => id (snd kv) = fst kv) units ->
  map id (Js.values units) = Js.keys units.
Proof.
  unfold Js.values, Js.keys.
  induction 1 as [| [k v] rest Hhd _ IH]; simpl; [reflexivity |].
  simpl in Hhd. rewrite Hhd. f_equal. exact IH.
Qed.

Section LinearFacts.
Variable units : Js.object Unit.
Hypothesis Hkeyed : wellKeyed units.

Lemma ids_are_keys : map id (Js.values units) = Js.keys units.
Proof. apply ids_of_entries, Hkeyed. Qed.

Lemma others_length (key : string) (us : list Unit) :
  NoDup (map id us) -> In key (map id us) ->
  List.length (filter (fun unit => negb (String.eqb (id unit) key)) us)
  = (List.length us - 1)%nat.
Proof.
  induction us as [| u rest IH]; simpl; [tauto |].
  intros Hnd Hin. inversion Hnd as [| ? ? Hfresh Hrest]; subst.
  destruct (String.eqb_spec (id u) key) as [Heq | Hne]; simpl.
  - rewrite Nat.sub_0_r. f_equal.
    rewrite <- Heq in *. clear - Hfresh.
    induction rest as [| v rest IH]; simpl in *; [reflexivity |].
    destruct (String.eqb_spec (id v) (id u)) as [E | E]; simpl.
    + exfalso. apply Hfresh. now left.
    + f_equal. apply IH. tauto.
  - destruct Hin as [Heq | Hin]; [congruence |].
    rewrite (IH Hrest Hin).
    destruct rest; simpl in *; [tauto | lia].
Qed.

Lemma convertWith_own (value : number) (fromUnitId : string) :
  In fromUnitId (Js.keys units) ->
  exists results,
    convertWith units value fromUnitId = Return results
    /\ List.length results = (List.length units - 1)%nat
    /\ forall r, In r results -> unitId r <> fromUnitId.
Proof.
  intros Hin. destruct (getOwn_In _ _ Hin) as (u & Hget & _).
  unfold convertWith, Js.get. rewrite Hget.
  eexists. split; [reflexivity |]. split.
  - rewrite length_map, others_length.
    + unfold Js.values. now rewrite length_map.
    + rewrite ids_are_keys. apply Hkeyed.
    + now rewrite ids_are_keys.
  - intros r Hr. apply in_map_iff in Hr. destruct Hr as (v & <- & Hv).
    apply filter_In in Hv. destruct Hv as [_ Hv]. simpl.
    destruct (String.eqb_spec (id v) fromUnitId); [discriminate | assumption].
Qed.

Lemma convertWith_undefined (value : number) (fromUnitId : string) :
  ~ In fromUnitId (Js.keys units) -> ~ In fromUnitId Js.objectPrototypeKeys ->
  convertWith units value fromUnitId = Throw (Error ("Invalid unit ID: " ++ fromUnitId)).
Proof.
  intros Hown Hproto. unfold convertWith. now rewrite get_absent.
Qed.

Lemma convertWith_inherited (value : number) (fromUnitId : string) :
  ~ In fromUnitId (Js.keys units) -> In fromUnitId Js.objectPrototypeKeys ->
  convertWith units value fromUnitId = Throw (TypeError "fromUnit.toBase is not a function").
Proof.
  intros Hown Hproto. unfold convertWith. now rewrite get_inherited.
Qed.
End LinearFacts.

Lemma NoDup_strings (l : list string) :
  (fix distinct (l : list string) : bool :=
     match l with
     | [] => true
     | x :: r => negb (existsb (String.eqb x) r) && distinct r
     end) l = true -> NoDup l.
Proof.
  induction l as [| x r IH]; intros H; constructor.
  - apply andb_prop in H. destruct H as [H _].
    intros Hin. apply negb_true_iff in H.
    assert (existsb (String.eqb x) r = true); [| congruence].
    apply existsb_exists. exists x. split; [assumption | apply String.eqb_refl].
  - apply IH. apply andb_prop in H. tauto.
Qed.

Lemma tables_wellKeyed (c : LinearCategory) : wellKeyed (unitsOf c).
Proof.
  destruct c; (split; [repeat constructor | apply NoDup_strings; reflexivity]).
Qed.

(** C1.  Completeness of the linear engines: for every value and every
    unit id of a linear category's table (length, volume, weight), the
    category's convert function returns a list with one result per unit
    of the table except the source unit, so exactly (number of units) - 1
    results, and no result carries the source unit's id. *)
Theorem convert_completeness (c : LinearCategory) (value : number) (fromUnitId : string) :
  In fromUnitId (Js.keys (unitsOf c)) ->
  exists results,
    convertIn c value fromUnitId = Return results
    /\ List.length results = (List.length (unitsOf c) - 1)%nat
    /\ forall r, In r results -> unitId r <> fromUnitId.
Proof.
  intros Hin.
  destruct c.
  - exact (convertWith_own lengthUnits (tables_wellKeyed Length) value fromUnitId Hin).
  - exact (convertWith_own volumeUnits (tables_wellKeyed Volume) value fromUnitId Hin).
  - exact (convertWith_own weightUnits (tables_wellKeyed Weight) value fromUnitId Hin).
Qed.

Lemma convert_completeness_witness :
  exists results,
    convertLength 1%float "meter" = Return results
    /\ List.length results = 7%nat
    /\ forall r, In r results -> unitId r <> "meter"%string.
Proof.
  apply (convert_completeness Length 1%float "meter"%string).
  simpl. tauto.
Defined.

(** ** The temperature engine *)

(** C4.  For every value and each of the three temperature units, the
    temperature convert returns exactly two results, in declaration
    order, whose values are the formatter applied to the pairwise
    formulas F = C*9/5 + 32, K = C + 273.15, C = (F-32)*5/9,
    K = (F-32)*5/9 + 273.15, C = K - 273.15 and F = (K-273.15)*9/5 + 32,
    evaluated left to right in binary64 arithmetic. *)
Theorem convertTemperature_formulas (value : number) :
  convertTemperature value "celsius"
  = Return
      [ {| unitId := "fahrenheit"; unitName := "Fahrenheit"; symbol := "°F";
           value := formatNumber (value * 9 / 5 + 32)%float |};
        {| unitId := "kelvin"; unitName := "Kelvin"; symbol := "K";
           value := formatNumber (value + 273.15)%float |} ]
  /\ convertTemperature value "fahrenheit"
     = Return
         [ {| unitId := "celsius"; unitName := "Celsius"; symbol := "°C";
              value := formatNumber ((value - 32) * 5 / 9)%float |};
           {| unitId := "kelvin"; unitName := "Kelvin"; symbol := "K";
              value := formatNumber ((value - 32) * 5 / 9 + 273.15)%float |} ]
  /\ convertTemperature value "kelvin"
     = Return
         [ {| unitId := "celsius"; unitName := "Celsius"; symbol := "°C";
              value := formatNumber (value - 273.15)%float |};
           {| unitId := "fahrenheit"; unitName := "Fahrenheit"; symbol := "°F";
              value := formatNumber ((value - 273.15) * 9 / 5 + 32)%float |} ].
Proof.
  repeat split; reflexivity.
Qed.

Example temperature_scenario :
  option_map (map value)
    (match convertTemperature 0%float "celsius" with Return l => Some l | Throw _ => None end)
  = Some ["32"; "273.15"]%string
  /\ option_map (map value)
       (match convertTemperature 100%float "celsius" with Return l => Some l | Throw _ => None end)
     = Some ["212"; "373.15"]%string.
Proof. split; vm_compute; reflexivity. Qed.

Lemma convertTemperature_unknown (value : number) (fromUnitId : string) :
  ~ In fromUnitId (Js.keys temperatureUnits) ->
  convertTemperature value fromUnitId
  = Throw (Error ((if existsb (String.eqb fromUnitId) Js.objectPrototypeKeys
                   then "Unsupported temperature unit: " else "Invalid unit ID: ")
                  ++ fromUnitId)).
Proof.
  intros Hnot. unfold convertTemperature, Js.get.
  rewrite (getOwn_notIn _ _ Hnot).
  destruct (existsb (String.eqb fromUnitId) objectPrototypeKeys); [| reflexivity].
  simpl in Hnot.
  destruct (String.eqb_spec fromUnitId "celsius"); [subst; tauto |].
  destruct (String.eqb_spec fromUnitId "fahrenheit"); [subst; tauto |].
  destruct (String.eqb_spec fromUnitId "kelvin"); [subst; tauto |].
  reflexivity.
Qed.

(** ** Unknown units *)

(** C5.  The linear engines on a unit id that is not in the table but
    names a member of Object.prototype: the lookup finds the inherited
    member, the guard for a missing unit does not fire, and the call of
    its [toBase] raises a TypeError whose message does not mention the
    id.  An id that is in neither place raises the intended
    "Invalid unit ID: <id>", and the temperature engine names the id in
    both situations. *)
Theorem convert_inherited_key :
  convertLength 1%float "toString" = Throw (TypeError "fromUnit.toBase is not a function")
  /\ convertVolume 1%float "toString" = Throw (TypeError "fromUnit.toBase is not a function")
  /\ convertWeight 1%float "toString" = Throw (TypeError "fromUnit.toBase is not a function")
  /\ Js.contains "toString" (Js.message (TypeError "fromUnit.toBase is not a function")) = false
  /\ convertLength 1%float "not-a-real-unit" = Throw (Error "Invalid unit ID: not-a-real-unit")
  /\ convertTemperature 1%float "toString" = Throw (Error "Unsupported temperature unit: toString").
Proof.
  repeat split; reflexivity.
Qed.

(* ================================================================= *)
(** ** Binary64 representations *)

Lemma digits2_bounds (p : positive) :
  2 ^ (Z.pos (digits2_pos p) - 1) <= Z.pos p < 2 ^ Z.pos (digits2_pos p).
Proof.
  induction p as [p IH | p IH |]; simpl digits2_pos.
  - rewrite Pos2Z.inj_succ, Z.pow_succ_r by lia.
    replace (Z.succ (Z.pos (digits2_pos p)) - 1) with (Z.succ (Z.pos (digits2_pos p) - 1)) by lia.
    rewrite Z.pow_succ_r by lia. lia.
  - rewrite Pos2Z.inj_succ, Z.pow_succ_r by lia.
    replace (Z.succ (Z.pos (digits2_pos p)) - 1) with (Z.succ (Z.pos (digits2_pos p) - 1)) by lia.
    rewrite Z.pow_succ_r by lia. lia.
  - simpl. lia.
Qed.

Lemma digits2_unique (p : positive) (d : Z) :
  2 ^ (d - 1) <= Z.pos p < 2 ^ d -> Z.pos (digits2_pos p) = d.
Proof.
  intros [Hlo Hhi]. pose proof (digits2_bounds p) as [Hlo' Hhi'].
  assert (0 < d).
  { destruct (Z.ltb_spec 0 d); [assumption |].
    exfalso. assert (2 ^ d <= 2 ^ 0) by (apply Z.pow_le_mono_r; lia). simpl in *. lia. }
  assert (d - 1 < Z.pos (digits2_pos p)).
  { apply (Z.pow_lt_mono_r_iff 2); lia. }
  assert (Z.pos (digits2_pos p) - 1 < d).
  { apply (Z.pow_lt_mono_r_iff 2); lia. }
  lia.
Qed.

Lemma iter_xO_value (p k : positive) :
  Z.pos (Pos.iter xO p k) = Z.pos p * 2 ^ Z.pos k.
Proof.
  induction k as [| k IH] using Pos.peano_ind.
  - simpl. lia.
  - rewrite Pos.iter_succ, Pos2Z.inj_succ, Z.pow_succ_r by lia.
    rewrite Pos2Z.inj_xO, IH. lia.
Qed.

Lemma mantissaOf_value (r : positive) :
  Z.pos (digits2_pos r) <= 53 ->
  Z.pos (mantissaOf r) = Z.pos r * 2 ^ (53 - Z.pos (digits2_pos r)).
Proof.
  intros Hd. unfold mantissaOf.
  destruct (53 - Z.pos (digits2_pos r)) eqn:E.
  - rewrite Z.pow_0_r. lia.
  - apply iter_xO_value.
  - lia.
Qed.

Lemma mantissaOf_digits (r : positive) :
  Z.pos (digits2_pos r) <= 53 -> Z.pos (digits2_pos (mantissaOf r)) = 53.
Proof.
  intros Hd. apply digits2_unique. rewrite (mantissaOf_value r Hd).
  pose proof (digits2_bounds r) as [Hlo Hhi].
  set (d := Z.pos (digits2_pos r)) in *.
  assert (Hp : 0 < 2 ^ (53 - d)) by (apply Z.pow_pos_nonneg; lia).
  assert (H52 : 2 ^ (53 - 1) = 2 ^ (d - 1) * 2 ^ (53 - d)).
  { rewrite <- Z.pow_add_r by lia. f_equal. lia. }
  assert (H53 : 2 ^ 53 = 2 ^ d * 2 ^ (53 - d)).
  { rewrite <- Z.pow_add_r by lia. f_equal. lia. }
  rewrite H52, H53. nia.
Qed.

Lemma canonical_valid (r : positive) :
  Z.pos (digits2_pos r) <= 53 -> valid_binary (canonical r) = true.
Proof.
  intros Hd. unfold canonical.
  unfold valid_binary, bounded, canonical_mantissa. rewrite (mantissaOf_digits r Hd).
  unfold fexp, SpecFloat.emin, prec, emax.
  apply andb_true_intro. split.
  - apply Z.eqb_eq. lia.
  - apply Z.leb_le. lia.
Qed.

Lemma Prim2SF_ofZ_pos (r : positive) :
  Z.pos (digits2_pos r) <= 53 ->
  Prim2SF (ofZ (Z.pos r)) = S754_finite false (mantissaOf r) (Z.pos (digits2_pos r) - 53).
Proof.
  intros Hd. unfold ofZ. rewrite Prim2SF_SF2Prim by (apply canonical_valid, Hd). reflexivity.
Qed.

Lemma Prim2SF_ofZ_neg (r : positive) :
  Z.pos (digits2_pos r) <= 53 ->
  Prim2SF (ofZ (Z.neg r)) = S754_finite true (mantissaOf r) (Z.pos (digits2_pos r) - 53).
Proof.
  intros Hd. unfold ofZ. rewrite opp_spec, Prim2SF_SF2Prim by (apply canonical_valid, Hd). reflexivity.
Qed.

Lemma digits_of_small (p : positive) : Z.pos p < 2 ^ 53 -> Z.pos (digits2_pos p) <= 53.
Proof.
  intros Hp. pose proof (digits2_bounds p) as [Hlo _].
  assert (Z.pos (digits2_pos p) - 1 < 53); [| lia].
  apply (Z.pow_lt_mono_r_iff 2); lia.
Qed.


(** The sign, mantissa and exponent of a finite non-zero number obey the
    binary64 bounds. *)
Lemma finite_mantissa_bound (x : number) (s : bool) (m : positive) (e : Z) :
  Prim2SF x = S754_finite s m e -> Z.pos (digits2_pos m) <= 53 /\ -1074 <= e <= 971.
Proof.
  intros Hx. pose proof (Prim2SF_valid x) as Hv. rewrite Hx in Hv.
  unfold valid_binary, bounded, canonical_mantissa in Hv.
  apply andb_prop in Hv. destruct Hv as [Hc Hb].
  apply Z.eqb_eq in Hc. apply Z.leb_le in Hb.
  unfold fexp, SpecFloat.emin, prec, emax in *. lia.
Qed.

Lemma isFinite_cases (x : number) :
  Js.isFinite x = true ->
  (exists s, Prim2SF x = S754_zero s) \/ (exists s m e, Prim2SF x = S754_finite s m e).
Proof.
  unfold Js.isFinite, is_nan, is_infinity. rewrite !eqb_spec, abs_spec.
  change (Prim2SF infinity) with (S754_infinity false).
  destruct (Prim2SF x) as [s | s | | s m e] eqn:E.
  - intros _. left. now exists s.
  - simpl. intros H. destruct s; discriminate.
  - simpl. discriminate.
  - intros _. right. now exists s, m, e.
Qed.

(* ================================================================= *)
(** ** Binary64 rounding of products and quotients *)

Lemma iter_shr_exact (n : positive) :
  forall A : positive,
    iter_pos shr_1 n {| shr_m := Z.pos (Pos.iter xO A n); shr_r := false; shr_s := false |}
    = {| shr_m := Z.pos A; shr_r := false; shr_s := false |}.
Proof.
  induction n as [n IH | n IH |]; intros A; simpl.
  - rewrite IH. apply IH.
  - rewrite IH. apply IH.
  - reflexivity.
Qed.

Lemma pos_as_iter (M A n : positive) :
  Z.pos M = Z.pos A * 2 ^ Z.pos n -> M = Pos.iter xO A n.
Proof.
  intros H. apply Pos2Z.inj. rewrite H. symmetry. apply iter_xO_value.
Qed.

Lemma digits2_shift (A : positive) (n : Z) (M : positive) :
  0 <= n -> Z.pos M = Z.pos A * 2 ^ n ->
  Z.pos (digits2_pos M) = Z.pos (digits2_pos A) + n.
Proof.
  intros Hn HM. apply digits2_unique. rewrite HM.
  pose proof (digits2_bounds A) as [Hlo Hhi].
  assert (Hp : 0 < 2 ^ n) by (apply Z.pow_pos_nonneg; lia).
  replace (Z.pos (digits2_pos A) + n - 1) with ((Z.pos (digits2_pos A) - 1) + n) by lia.
  rewrite !Z.pow_add_r by lia. nia.
Qed.

Lemma round_aux_exact (s : bool) (M A n : positive) (E : Z) :
  Z.pos M = Z.pos A * 2 ^ Z.pos n ->
  Z.pos (digits2_pos A) = 53 ->
  -1074 <= E + Z.pos n <= 971 ->
  binary_round_aux prec emax s (Z.pos M) E loc_Exact = S754_finite s A (E + Z.pos n).
Proof.
  intros HM HA HE. unfold binary_round_aux.
  assert (HdM : Z.pos (digits2_pos M) = 53 + Z.pos n).
  { rewrite (digits2_shift A (Z.pos n) M); lia. }
  assert (Hshift : shr_fexp prec emax (Z.pos M) E loc_Exact
                   = ({| shr_m := Z.pos A; shr_r := false; shr_s := false |}, E + Z.pos n)).
  { unfold shr_fexp. cbn [Zdigits2 shr_record_of_loc]. rewrite HdM.
    replace (fexp prec emax (53 + Z.pos n + E) - E) with (Z.pos n)
      by (unfold fexp, SpecFloat.emin, prec, emax; lia).
    unfold shr. rewrite (pos_as_iter M A n HM), iter_shr_exact. reflexivity. }
  rewrite Hshift. cbn [shr_m loc_of_shr_record round_nearest_even].
  assert (Hstay : shr_fexp prec emax (Z.pos A) (E + Z.pos n) loc_Exact
                  = ({| shr_m := Z.pos A; shr_r := false; shr_s := false |}, E + Z.pos n)).
  { unfold shr_fexp. cbn [Zdigits2 shr_record_of_loc]. rewrite HA.
    replace (fexp prec emax (53 + (E + Z.pos n)) - (E + Z.pos n)) with 0
      by (unfold fexp, SpecFloat.emin, prec, emax; lia).
    reflexivity. }
  rewrite Hstay. cbn [shr_m].
  replace (E + Z.pos n <=? emax - prec) with true; [reflexivity |].
  symmetry. apply Z.leb_le. unfold emax, prec. lia.
Qed.

Lemma round_aux_exact0 (s : bool) (A : positive) (E : Z) :
  Z.pos (digits2_pos A) = 53 ->
  -1074 <= E <= 971 ->
  binary_round_aux prec emax s (Z.pos A) E loc_Exact = S754_finite s A E.
Proof.
  intros HA HE. unfold binary_round_aux.
  assert (Hstay : shr_fexp prec emax (Z.pos A) E loc_Exact
                  = ({| shr_m := Z.pos A; shr_r := false; shr_s := false |}, E)).
  { unfold shr_fexp. cbn [Zdigits2 shr_record_of_loc]. rewrite HA.
    replace (fexp prec emax (53 + E) - E) with 0
      by (unfold fexp, SpecFloat.emin, prec, emax; lia).
    reflexivity. }
  rewrite Hstay. cbn [shr_m loc_of_shr_record round_nearest_even].
  rewrite Hstay. cbn [shr_m].
  replace (E <=? emax - prec) with true; [reflexivity |].
  symmetry. apply Z.leb_le. unfold emax, prec. lia.
Qed.

(** A mantissa that is a 53-bit number times a power of two is rounded
    to that number. *)
Lemma round_aux_scaled (s : bool) (M A : positive) (n E : Z) :
  0 <= n ->
  Z.pos M = Z.pos A * 2 ^ n ->
  Z.pos (digits2_pos A) = 53 ->
  -1074 <= E + n <= 971 ->
  binary_round_aux prec emax s (Z.pos M) E loc_Exact = S754_finite s A (E + n).
Proof.
  intros Hn HM HA HE. destruct n as [| n | n]; try lia.
  - rewrite Z.pow_0_r, Z.mul_1_r in HM. injection HM as ->.
    rewrite Z.add_0_r in *. apply round_aux_exact0; assumption.
  - apply round_aux_exact; assumption.
Qed.

Lemma digits2_product (a b : positive) :
  Z.pos (digits2_pos a) + Z.pos (digits2_pos b) - 1
  <= Z.pos (digits2_pos (a * b))
  <= Z.pos (digits2_pos a) + Z.pos (digits2_pos b).
Proof.
  pose proof (digits2_bounds a) as [Ha1 Ha2].
  pose proof (digits2_bounds b) as [Hb1 Hb2].
  pose proof (digits2_bounds (a * b)) as [Hp1 Hp2].
  set (da := Z.pos (digits2_pos a)) in *. set (db := Z.pos (digits2_pos b)) in *.
  set (dp := Z.pos (digits2_pos (a * b))) in *.
  assert (0 < da) by (subst da; lia). assert (0 < db) by (subst db; lia).
  assert (0 < dp) by (subst dp; lia).
  rewrite Pos2Z.inj_mul in *.
  assert (Hlo : 2 ^ (da + db - 2) <= Z.pos a * Z.pos b).
  { replace (da + db - 2) with ((da - 1) + (db - 1)) by lia.
    rewrite Z.pow_add_r by lia.
    assert (0 < 2 ^ (da - 1)) by (apply Z.pow_pos_nonneg; lia).
    assert (0 < 2 ^ (db - 1)) by (apply Z.pow_pos_nonneg; lia). nia. }
  assert (Hhi : Z.pos a * Z.pos b < 2 ^ (da + db)).
  { rewrite Z.pow_add_r by lia. nia. }
  split.
  - assert (da + db - 2 < dp); [| lia]. apply (Z.pow_lt_mono_r_iff 2); lia.
  - assert (dp - 1 < da + db); [| lia]. apply (Z.pow_lt_mono_r_iff 2); lia.
Qed.

(** The product of two integers is exact when it has at most 53 bits. *)
Lemma SFmul_canonical (sa sb : bool) (a b : positive) :
  Z.pos (a * b) < 2 ^ 53 ->
  SF64mul (S754_finite sa (Js.mantissaOf a) (Z.pos (digits2_pos a) - 53))
          (S754_finite sb (Js.mantissaOf b) (Z.pos (digits2_pos b) - 53))
  = S754_finite (xorb sa sb) (Js.mantissaOf (a * b)) (Z.pos (digits2_pos (a * b)) - 53).
Proof.
  intros Hab.
  assert (Hdp : Z.pos (digits2_pos (a * b)) <= 53) by (apply digits_of_small, Hab).
  pose proof (digits2_product a b) as [Hlo Hhi].
  assert (Hda : Z.pos (digits2_pos a) <= 53) by lia.
  assert (Hdb : Z.pos (digits2_pos b) <= 53) by lia.
  unfold SF64mul, SFmul.
  set (da := Z.pos (digits2_pos a)) in *. set (db := Z.pos (digits2_pos b)) in *.
  set (dp := Z.pos (digits2_pos (a * b))) in *.
  assert (Hn : 0 < dp + 53 - da - db) by lia.
  destruct (dp + 53 - da - db) as [| n | n] eqn:En; try lia.
  replace (da - 53 + (db - 53)) with ((dp - 53) - Z.pos n) by lia.
  replace (dp - 53) with ((dp - 53 - Z.pos n) + Z.pos n) at 2 by lia.
  apply round_aux_exact.
  - rewrite Pos2Z.inj_mul, !mantissaOf_value by assumption.
    fold da db dp. rewrite Pos2Z.inj_mul.
    replace (Z.pos n) with ((53 - da) + (53 - db) - (53 - dp)) by lia.
    assert (H2 : 2 ^ (53 - da) * 2 ^ (53 - db)
                 = 2 ^ (53 - dp) * 2 ^ (53 - da + (53 - db) - (53 - dp))).
    { rewrite <- !Z.pow_add_r by lia. f_equal. lia. }
    nia.
  - apply mantissaOf_digits. assumption.
  - lia.
Qed.

Lemma new_location_exact (nb : Z) : new_location nb 0 = loc_Exact.
Proof.
  unfold new_location, new_location_even, new_location_odd.
  destruct (Z.even nb); reflexivity.
Qed.

(** The quotient of two integers is exact when it is an integer of at
    most 53 bits. *)
Lemma SFdiv_canonical (sa sc : bool) (k c : positive) :
  Z.pos (k * c) < 2 ^ 53 ->
  SF64div (S754_finite sa (Js.mantissaOf (k * c)) (Z.pos (digits2_pos (k * c)) - 53))
          (S754_finite sc (Js.mantissaOf c) (Z.pos (digits2_pos c) - 53))
  = S754_finite (xorb sa sc) (Js.mantissaOf k) (Z.pos (digits2_pos k) - 53).
Proof.
  intros Hkc.
  assert (Hdp : Z.pos (digits2_pos (k * c)) <= 53) by (apply digits_of_small, Hkc).
  pose proof (digits2_product k c) as [Hlo Hhi].
  assert (Hdk : Z.pos (digits2_pos k) <= 53) by lia.
  assert (Hdc : Z.pos (digits2_pos c) <= 53) by lia.
  pose proof (mantissaOf_value (k * c) Hdp) as Vp.
  pose proof (mantissaOf_value k Hdk) as Vk.
  pose proof (mantissaOf_value c Hdc) as Vc.
  pose proof (mantissaOf_digits (k * c) Hdp) as Dp.
  pose proof (mantissaOf_digits k Hdk) as Dk.
  pose proof (mantissaOf_digits c Hdc) as Dc.
  unfold SF64div, SFdiv, SFdiv_core_binary.
  cbn [Zdigits2]. rewrite Dp, Dc.
  set (dk := Z.pos (digits2_pos k)) in *. set (dc := Z.pos (digits2_pos c)) in *.
  set (dp := Z.pos (digits2_pos (k * c))) in *.
  replace (Z.min (fexp prec emax (53 + (dp - 53) - (53 + (dc - 53)))) (dp - 53 - (dc - 53)))
    with (dp - dc - 53) by (unfold fexp, SpecFloat.emin, prec, emax; lia).
  replace (dp - 53 - (dc - 53) - (dp - dc - 53)) with 53 by lia.
  rewrite Z.shiftl_mul_pow2 by lia.
  assert (Hprod : Z.pos (Js.mantissaOf (k * c)) * 2 ^ 53
                  = Z.pos k * 2 ^ (53 - dp + dc) * Z.pos (Js.mantissaOf c)).
  { rewrite Vp, Vc, Pos2Z.inj_mul.
    replace (53 - dp + dc) with ((53 - dp) + 53 - (53 - dc)) by lia.
    assert (H2 : 2 ^ (53 - dp) * 2 ^ 53
                 = 2 ^ (53 - dp + 53 - (53 - dc)) * 2 ^ (53 - dc)).
    { rewrite <- !Z.pow_add_r by lia. f_equal. lia. }
    nia. }
  assert (Hdiv : Z.div_eucl (Z.pos (Js.mantissaOf (k * c)) * 2 ^ 53) (Z.pos (Js.mantissaOf c))
                 = (Z.pos k * 2 ^ (53 - dp + dc), 0)).
  { rewrite Hprod.
    pose proof (Z.div_mul (Z.pos k * 2 ^ (53 - dp + dc)) (Z.pos (Js.mantissaOf c)) ltac:(lia)) as Hq.
    pose proof (Z.mod_mul (Z.pos k * 2 ^ (53 - dp + dc)) (Z.pos (Js.mantissaOf c)) ltac:(lia)) as Hr.
    unfold Z.div, Z.modulo in Hq, Hr.
    destruct (Z.div_eucl _ _) as [q r]. now subst. }
  rewrite Hdiv, new_location_exact.
  assert (Hpos : 0 < Z.pos k * 2 ^ (53 - dp + dc)).
  { apply Z.mul_pos_pos; [lia | apply Z.pow_pos_nonneg; lia]. }
  destruct (Z.pos k * 2 ^ (53 - dp + dc)) as [| pq | pq] eqn:Epq; try lia.
  replace (dk - 53) with ((dp - dc - 53) + (dk + dc - dp)) by lia.
  apply round_aux_scaled; try lia; try exact Dk.
  rewrite Vk. fold dk. rewrite <- Z.mul_assoc, <- Z.pow_add_r by lia.
  rewrite <- Epq. do 2 f_equal. lia.
Qed.

Lemma shr_1_half (mrs : shr_record) :
  0 <= shr_m mrs -> shr_m (shr_1 mrs) = shr_m mrs / 2 /\ 0 <= shr_m (shr_1 mrs).
Proof.
  destruct mrs as [m r s]. cbn [shr_m]. intros Hm.
  destruct m as [| [p | p |] | p]; cbn [shr_1 shr_m]; try lia.
  - split; [reflexivity | lia].
  - split; [| lia]. rewrite Pos2Z.inj_xI.
    apply (Z.div_unique _ _ _ 1); lia.
  - split; [| lia]. rewrite Pos2Z.inj_xO.
    apply (Z.div_unique _ _ _ 0); lia.
  - split; [reflexivity | lia].
Qed.

Lemma iter_shr_m (n : positive) :
  forall mrs, 0 <= shr_m mrs ->
    shr_m (iter_pos shr_1 n mrs) = shr_m mrs / 2 ^ Z.pos n
    /\ 0 <= shr_m (iter_pos shr_1 n mrs).
Proof.
  induction n as [n IH | n IH |]; intros mrs Hm; cbn [iter_pos].
  - destruct (shr_1_half mrs Hm) as [E1 P1].
    destruct (IH _ P1) as [E2 P2]. destruct (IH _ P2) as [E3 P3].
    split; [| exact P3]. rewrite E3, E2, E1.
    rewrite !Z.div_div by (try apply Z.pow_pos_nonneg; lia).
    f_equal. rewrite (Pos2Z.inj_xI n), Z.pow_add_r, Z.pow_twice_r by lia.
    change (2 ^ 1) with 2. ring.
  - destruct (IH _ Hm) as [E2 P2]. destruct (IH _ P2) as [E3 P3].
    split; [| exact P3]. rewrite E3, E2.
    rewrite !Z.div_div by (try apply Z.pow_pos_nonneg; lia).
    f_equal. rewrite (Pos2Z.inj_xO n), Z.pow_twice_r. reflexivity.
  - destruct (shr_1_half mrs Hm) as [E1 P1]. split; [| exact P1].
    rewrite E1. reflexivity.
Qed.

Lemma shr_m_of_loc (m : Z) (l : location) : shr_m (shr_record_of_loc m l) = m.
Proof. destruct l as [| []]; reflexivity. Qed.

(** Shifting right by [n >= 0] places. *)
Lemma shr_value (mrs : shr_record) (e n : Z) :
  0 <= shr_m mrs -> 0 <= n ->
  shr_m (fst (shr mrs e n)) = shr_m mrs / 2 ^ n /\ snd (shr mrs e n) = e + n.
Proof.
  intros Hm Hn. unfold shr. destruct n as [| p | p]; try lia.
  - cbn [fst snd]. rewrite Z.pow_0_r, Z.div_1_r. split; lia.
  - cbn [fst snd]. split; [apply iter_shr_m, Hm | reflexivity].
Qed.

Lemma round_nearest_even_cases (m : Z) (l : location) :
  round_nearest_even m l = m \/ round_nearest_even m l = m + 1.
Proof.
  destruct l as [| []]; cbn [round_nearest_even]; auto.
  destruct (Z.even m); auto.
Qed.

(** Rounding a mantissa of at least 53 bits in the normal range: the
    result is a normal number whose mantissa is the truncated one or its
    successor. *)
Lemma round_aux_near (s : bool) (M : positive) (E : Z) (l : location) :
  53 <= Z.pos (digits2_pos M) ->
  -1074 <= Z.pos (digits2_pos M) + E - 53 ->
  Z.pos (digits2_pos M) + E <= 1023 ->
  exists m' e',
    binary_round_aux prec emax s (Z.pos M) E l = S754_finite s m' e'
    /\ Z.pos (digits2_pos m') = 53
    /\ E + (Z.pos (digits2_pos M) - 53) <= e' <= E + (Z.pos (digits2_pos M) - 53) + 1
    /\ (Z.pos m' * 2 ^ (e' - (E + (Z.pos (digits2_pos M) - 53)))
        = Z.pos M / 2 ^ (Z.pos (digits2_pos M) - 53)
        \/ Z.pos m' * 2 ^ (e' - (E + (Z.pos (digits2_pos M) - 53)))
           = Z.pos M / 2 ^ (Z.pos (digits2_pos M) - 53) + 1).
Proof.
  intros Hd Hlo Hhi.
  pose proof (digits2_bounds M) as [HM1 HM2].
  set (d := Z.pos (digits2_pos M)) in *. set (n := d - 53).
  assert (Hn : 0 <= n) by (subst n; lia).
  assert (Hpn : 0 < 2 ^ n) by (apply Z.pow_pos_nonneg; lia).
  set (q := Z.pos M / 2 ^ n).
  assert (Hq : 2 ^ 52 <= q < 2 ^ 53).
  { subst q. split.
    - apply Z.div_le_lower_bound; [lia |].
      rewrite <- Z.pow_add_r by lia. replace (n + 52) with (d - 1) by (subst n; lia). exact HM1.
    - apply Z.div_lt_upper_bound; [lia |].
      rewrite <- Z.pow_add_r by lia. replace (n + 53) with d by (subst n; lia). exact HM2. }
  unfold binary_round_aux.
  (* first shift *)
  assert (H1 : shr_fexp prec emax (Z.pos M) E l
               = shr (shr_record_of_loc (Z.pos M) l) E n).
  { unfold shr_fexp. cbn [Zdigits2]. fold d. f_equal.
    unfold fexp, SpecFloat.emin, prec, emax. subst n. lia. }
  rewrite H1.
  destruct (shr_value (shr_record_of_loc (Z.pos M) l) E n) as [Hm1 He1];
    [rewrite shr_m_of_loc; lia | lia |].
  rewrite shr_m_of_loc in Hm1. fold q in Hm1.
  destruct (shr (shr_record_of_loc (Z.pos M) l) E n) as [mrs1 e1].
  cbn [fst snd] in Hm1, He1. subst e1.
  (* rounding *)
  destruct (round_nearest_even_cases (shr_m mrs1) (loc_of_shr_record mrs1)) as [Hr | Hr];
    rewrite Hr, Hm1; clear Hr.
  - (* the truncated mantissa *)
    destruct q as [| pq | pq] eqn:Eq; try (change (2 ^ 52) with 4503599627370496 in Hq; lia).
    assert (Hdq : Z.pos (digits2_pos pq) = 53) by (apply digits2_unique; exact Hq).
    assert (H2 : shr_fexp prec emax (Z.pos pq) (E + n) loc_Exact
                 = ({| shr_m := Z.pos pq; shr_r := false; shr_s := false |}, E + n)).
    { unfold shr_fexp. cbn [Zdigits2 shr_record_of_loc]. rewrite Hdq.
      replace (fexp prec emax (53 + (E + n)) - (E + n)) with 0
        by (unfold fexp, SpecFloat.emin, prec, emax; subst n; lia).
      reflexivity. }
    rewrite H2. cbn [shr_m].
    replace (E + n <=? emax - prec) with true
      by (symmetry; apply Z.leb_le; unfold emax, prec; subst n; lia).
    exists pq, (E + n). split; [reflexivity |]. split; [exact Hdq |].
    split; [lia |]. left. replace (E + n - (E + n)) with 0 by lia.
    rewrite Z.pow_0_r. lia.
  - (* its successor *)
    destruct (q + 1) as [| pq | pq] eqn:Eq; try (change (2 ^ 52) with 4503599627370496 in Hq; lia).
    destruct (Z.ltb_spec (Z.pos pq) (2 ^ 53)) as [Hlt | Hge].
    + assert (Hdq : Z.pos (digits2_pos pq) = 53).
      { apply digits2_unique. change (2 ^ (53 - 1)) with (2 ^ 52). lia. }
      assert (H2 : shr_fexp prec emax (Z.pos pq) (E + n) loc_Exact
                   = ({| shr_m := Z.pos pq; shr_r := false; shr_s := false |}, E + n)).
      { unfold shr_fexp. cbn [Zdigits2 shr_record_of_loc]. rewrite Hdq.
        replace (fexp prec emax (53 + (E + n)) - (E + n)) with 0
          by (unfold fexp, SpecFloat.emin, prec, emax; subst n; lia).
        reflexivity. }
      rewrite H2. cbn [shr_m].
      replace (E + n <=? emax - prec) with true
        by (symmetry; apply Z.leb_le; unfold emax, prec; subst n; lia).
      exists pq, (E + n). split; [reflexivity |]. split; [exact Hdq |].
      split; [lia |]. right. replace (E + n - (E + n)) with 0 by lia.
      rewrite Z.pow_0_r. lia.
    + assert (Hpq : Z.pos pq = 2 ^ 53) by lia.
      assert (Hdq : Z.pos (digits2_pos pq) = 54).
      { apply digits2_unique. rewrite Hpq. change (54 - 1) with 53.
        change (2 ^ 53) with 9007199254740992. change (2 ^ 54) with 18014398509481984. lia. }
      assert (H2 : shr_fexp prec emax (Z.pos pq) (E + n) loc_Exact
                   = shr {| shr_m := Z.pos pq; shr_r := false; shr_s := false |} (E + n) 1).
      { unfold shr_fexp. cbn [Zdigits2 shr_record_of_loc]. rewrite Hdq. f_equal.
        unfold fexp, SpecFloat.emin, prec, emax. subst n. lia. }
      rewrite H2.
      destruct (shr_value {| shr_m := Z.pos pq; shr_r := false; shr_s := false |} (E + n) 1)
        as [Hm2 He2]; [cbn [shr_m]; lia | lia |].
      destruct (shr {| shr_m := Z.pos pq; shr_r := false; shr_s := false |} (E + n) 1)
        as [mrs2 e2].
      cbn [fst snd shr_m] in Hm2, He2. subst e2. rewrite Hm2, Hpq.
      change (2 ^ 53 / 2 ^ 1) with (Z.pos 4503599627370496).
      replace (E + n + 1 <=? emax - prec) with true
        by (symmetry; apply Z.leb_le; unfold emax, prec; subst n; lia).
      exists 4503599627370496%positive, (E + n + 1).
      split; [reflexivity |]. split; [reflexivity |]. split; [lia |].
      right. replace (E + n + 1 - (E + n)) with 1 by lia.
      change (Z.pos 4503599627370496 * 2 ^ 1) with (2 ^ 53). lia.
Qed.

Lemma pow2_pos (e : Z) : (0 < pow2 e)%Q.
Proof. apply Qpower_0_lt. reflexivity. Qed.

Lemma pow2_add (a b : Z) : (pow2 (a + b) == pow2 a * pow2 b)%Q.
Proof. apply Qpower_plus. discriminate. Qed.

Lemma pow2_nonneg (n : Z) : 0 <= n -> (pow2 n == inject_Z (2 ^ n))%Q.
Proof. intros Hn. unfold pow2. rewrite Zpower_Qpower by assumption. reflexivity. Qed.

Lemma magnitude_pow2 (m : positive) (e : Z) :
  (SFvalue false m e == inject_Z (Z.pos m) * pow2 e)%Q.
Proof.
  unfold SFvalue. destruct (Z.leb_spec 0 e) as [He | He].
  - rewrite inject_Z_mult, pow2_nonneg by assumption. reflexivity.
  - assert (Hpos : 0 < 2 ^ (- e)) by (apply Z.pow_pos_nonneg; lia).
    replace e with (- (- e)) at 2 by lia.
    unfold pow2. rewrite Qpower_opp. fold (pow2 (- e)).
    rewrite pow2_nonneg by lia.
    rewrite Qmake_Qdiv, Z2Pos.id by assumption. reflexivity.
Qed.

Lemma SFvalue_signed (s : bool) (m : positive) (e : Z) :
  (SFvalue s m e == (if s then - SFvalue false m e else SFvalue false m e))%Q.
Proof.
  destruct s; [| reflexivity]. unfold SFvalue.
  destruct (0 <=? e).
  - rewrite <- inject_Z_opp. apply inject_Z_injective. lia.
  - unfold Qeq, Qopp. cbn [Qnum Qden]. lia.
Qed.

(** A value bracketed by two neighbouring multiples of [P], the lower
    one at least [2^52 * P], is within [2^-52] of either multiple. *)
Lemma bracket_relative (t P X v : Q) :
  (0 < P)%Q -> (inject_Z (2 ^ 52) * P <= t)%Q ->
  (t <= X)%Q -> (X < t + P)%Q ->
  (v == t \/ v == t + P)%Q ->
  (Qabs (v - X) <= (1 # 4503599627370496) * X)%Q.
Proof.
  intros HP Ht Hlo Hhi Hv. apply Qabs_Qle_condition.
  change (inject_Z (2 ^ 52)) with (4503599627370496 # 1)%Q in Ht.
  destruct Hv as [Hv | Hv]; rewrite Hv; split; lra.
Qed.

(** The value of the rounded result against any exact value [X] lying
    between the mantissa [M] and its successor, at exponent [E]. *)
Lemma near_value (M m' : positive) (E e' : Z) (X : Q) :
  53 <= Z.pos (digits2_pos M) ->
  E + (Z.pos (digits2_pos M) - 53) <= e' ->
  (Z.pos m' * 2 ^ (e' - (E + (Z.pos (digits2_pos M) - 53)))
   = Z.pos M / 2 ^ (Z.pos (digits2_pos M) - 53)
   \/ Z.pos m' * 2 ^ (e' - (E + (Z.pos (digits2_pos M) - 53)))
      = Z.pos M / 2 ^ (Z.pos (digits2_pos M) - 53) + 1) ->
  (inject_Z (Z.pos M) * pow2 E <= X)%Q ->
  (X < inject_Z (Z.pos M + 1) * pow2 E)%Q ->
  (Qabs (SFvalue false m' e' - X) <= (1 # 4503599627370496) * X)%Q.
Proof.
  intros Hd He' Hval Hlo Hhi.
  pose proof (digits2_bounds M) as [HM1 HM2].
  set (d := Z.pos (digits2_pos M)) in *. set (n := d - 53) in *.
  assert (Hn : 0 <= n) by (subst n; lia).
  assert (Hpn : 0 < 2 ^ n) by (apply Z.pow_pos_nonneg; lia).
  set (q := Z.pos M / 2 ^ n) in *.
  assert (Hq : 2 ^ 52 <= q).
  { subst q. apply Z.div_le_lower_bound; [lia |].
    rewrite <- Z.pow_add_r by lia. replace (n + 52) with (d - 1) by (subst n; lia). exact HM1. }
  pose proof (Z.div_mod (Z.pos M) (2 ^ n) ltac:(lia)) as Hdm.
  pose proof (Z.mod_pos_bound (Z.pos M) (2 ^ n) ltac:(lia)) as Hmod.
  fold q in Hdm.
  assert (HqM : q * 2 ^ n <= Z.pos M) by lia.
  assert (HMq : Z.pos M + 1 <= (q + 1) * 2 ^ n) by lia.
  pose proof (pow2_pos E) as HPE. pose proof (pow2_pos (E + n)) as HP.
  assert (HPn : (pow2 (E + n) == pow2 E * inject_Z (2 ^ n))%Q).
  { rewrite pow2_add, (pow2_nonneg n) by assumption. reflexivity. }
  apply (bracket_relative (inject_Z q * pow2 (E + n)) (pow2 (E + n))).
  - exact HP.
  - apply Qmult_le_compat_r; [| apply Qlt_le_weak, HP].
    rewrite <- Zle_Qle. exact Hq.
  - eapply Qle_trans; [| exact Hlo].
    rewrite HPn, (Qmult_comm (pow2 E)), Qmult_assoc, <- inject_Z_mult.
    apply Qmult_le_compat_r; [| apply Qlt_le_weak, HPE].
    rewrite <- Zle_Qle. exact HqM.
  - eapply Qlt_le_trans; [exact Hhi |].
    setoid_replace (inject_Z q * pow2 (E + n) + pow2 (E + n))%Q
      with (inject_Z ((q + 1) * 2 ^ n) * pow2 E)%Q.
    + apply Qmult_le_compat_r; [| apply Qlt_le_weak, HPE].
      rewrite <- Zle_Qle. exact HMq.
    + rewrite HPn, inject_Z_mult, inject_Z_plus. ring.
  - rewrite magnitude_pow2.
    replace e' with ((E + n) + (e' - (E + n))) at 1 2 by lia.
    rewrite !pow2_add, (pow2_nonneg (e' - (E + n))) by lia.
    destruct Hval as [Hv | Hv]; [left | right].
    + rewrite <- Hv, inject_Z_mult. ring.
    + setoid_replace (inject_Z q * (pow2 E * pow2 n) + pow2 E * pow2 n)%Q
        with (inject_Z (q + 1) * (pow2 E * pow2 n))%Q
        by (rewrite inject_Z_plus; ring).
      rewrite <- Hv, inject_Z_mult. ring.
Qed.

(** The product of two normal numbers whose exponents sum into the
    normal range. *)
Lemma SFmul_near (sx sc : bool) (mx mc : positive) (ex ec : Z) :
  Z.pos (digits2_pos mx) = 53 -> Z.pos (digits2_pos mc) = 53 ->
  -1126 <= ex + ec <= 917 ->
  exists m' e',
    SF64mul (S754_finite sx mx ex) (S754_finite sc mc ec) = S754_finite (xorb sx sc) m' e'
    /\ Z.pos (digits2_pos m') = 53
    /\ ex + ec + 52 <= e' <= ex + ec + 54
    /\ (Qabs (SFvalue false m' e' - SFvalue false mx ex * SFvalue false mc ec)
        <= (1 # 4503599627370496) * (SFvalue false mx ex * SFvalue false mc ec))%Q.
Proof.
  intros Hdx Hdc He. unfold SF64mul, SFmul.
  pose proof (digits2_product mx mc) as Hd. rewrite Hdx, Hdc in Hd.
  destruct (round_aux_near (xorb sx sc) (mx * mc) (ex + ec) loc_Exact)
    as (m' & e' & Hr & Hd' & He' & Hval); try lia.
  exists m', e'. split; [exact Hr |]. split; [exact Hd' |]. split; [lia |].
  assert (HX : (SFvalue false mx ex * SFvalue false mc ec
                == inject_Z (Z.pos (mx * mc)) * pow2 (ex + ec))%Q).
  { rewrite !magnitude_pow2, pow2_add, Pos2Z.inj_mul, inject_Z_mult. ring. }
  apply (near_value (mx * mc) m' (ex + ec) e'); try lia; try exact Hval.
  - rewrite HX. apply Qle_refl.
  - rewrite HX. apply Qmult_lt_compat_r; [apply pow2_pos |].
    rewrite <- Zlt_Qlt. lia.
Qed.

(** The quotient of two normal numbers: the integer quotient [pq] of the
    mantissas, scaled by 2^53, has 53 or 54 bits; the result keeps its
    53 leading bits or their successor. *)
Lemma SFdiv_shape (sx sc : bool) (mx mc : positive) (ex ec : Z) :
  Z.pos (digits2_pos mx) = 53 -> Z.pos (digits2_pos mc) = 53 ->
  -1021 <= ex - ec <= 1022 ->
  exists (pq m' : positive) (e' : Z),
    Z.pos pq = Z.pos mx * 2 ^ 53 / Z.pos mc
    /\ 53 <= Z.pos (digits2_pos pq) <= 54
    /\ SF64div (S754_finite sx mx ex) (S754_finite sc mc ec) = S754_finite (xorb sx sc) m' e'
    /\ Z.pos (digits2_pos m') = 53
    /\ ex - ec - 53 + (Z.pos (digits2_pos pq) - 53) <= e'
       <= ex - ec - 53 + (Z.pos (digits2_pos pq) - 53) + 1
    /\ (Z.pos m' * 2 ^ (e' - (ex - ec - 53 + (Z.pos (digits2_pos pq) - 53)))
        = Z.pos pq / 2 ^ (Z.pos (digits2_pos pq) - 53)
        \/ Z.pos m' * 2 ^ (e' - (ex - ec - 53 + (Z.pos (digits2_pos pq) - 53)))
           = Z.pos pq / 2 ^ (Z.pos (digits2_pos pq) - 53) + 1).
Proof.
  intros Hdx Hdc He. unfold SF64div, SFdiv, SFdiv_core_binary.
  cbn [Zdigits2]. rewrite Hdx, Hdc.
  replace (Z.min (fexp prec emax (53 + ex - (53 + ec))) (ex - ec)) with (ex - ec - 53)
    by (unfold fexp, SpecFloat.emin, prec, emax; lia).
  replace (ex - ec - (ex - ec - 53)) with 53 by lia.
  rewrite Z.shiftl_mul_pow2 by lia.
  pose proof (digits2_bounds mx) as [Hx1 Hx2]. rewrite Hdx in Hx1, Hx2.
  pose proof (digits2_bounds mc) as [Hc1 Hc2]. rewrite Hdc in Hc1, Hc2.
  change (53 - 1) with 52 in *.
  change (2 ^ 52) with 4503599627370496 in *. change (2 ^ 53) with 9007199254740992 in *.
  pose proof (Z.div_mod (Z.pos mx * 9007199254740992) (Z.pos mc) ltac:(lia)) as Hdm.
  pose proof (Z.mod_pos_bound (Z.pos mx * 9007199254740992) (Z.pos mc) ltac:(lia)) as Hmod.
  assert (Hfst : Z.pos mx * 9007199254740992 / Z.pos mc
                 = fst (Z.div_eucl (Z.pos mx * 9007199254740992) (Z.pos mc)))
    by reflexivity.
  unfold Z.div, Z.modulo in Hdm, Hmod.
  destruct (Z.div_eucl (Z.pos mx * 9007199254740992) (Z.pos mc)) as [q r].
  cbn [fst] in Hfst.
  assert (Hq : 4503599627370496 <= q < 18014398509481984) by nia.
  destruct q as [| pq | pq]; try lia.
  assert (Hdq : 53 <= Z.pos (digits2_pos pq) <= 54).
  { pose proof (digits2_bounds pq) as [Hq1 Hq2]. split.
    - assert (52 < Z.pos (digits2_pos pq)); [| lia].
      apply (Z.pow_lt_mono_r_iff 2); [lia | lia |].
      change (2 ^ 52) with 4503599627370496. lia.
    - assert (Z.pos (digits2_pos pq) - 1 < 54); [| lia].
      apply (Z.pow_lt_mono_r_iff 2); [lia | lia |].
      change (2 ^ 54) with 18014398509481984. lia. }
  destruct (round_aux_near (xorb sx sc) pq (ex - ec - 53) (new_location (Z.pos mc) r))
    as (m' & e' & Hr & Hd' & He' & Hval); try lia.
  exists pq, m', e'. repeat split; try assumption; try lia.
Qed.

(** The quotient of two normal numbers whose exponents differ into the
    normal range is within 2^-52 of the exact quotient. *)
Lemma SFdiv_near (sx sc : bool) (mx mc : positive) (ex ec : Z) :
  Z.pos (digits2_pos mx) = 53 -> Z.pos (digits2_pos mc) = 53 ->
  -1021 <= ex - ec <= 1022 ->
  exists m' e',
    SF64div (S754_finite sx mx ex) (S754_finite sc mc ec) = S754_finite (xorb sx sc) m' e'
    /\ Z.pos (digits2_pos m') = 53
    /\ ex - ec - 53 <= e' <= ex - ec - 51
    /\ (Qabs (SFvalue false m' e' - SFvalue false mx ex / SFvalue false mc ec)
        <= (1 # 4503599627370496) * (SFvalue false mx ex / SFvalue false mc ec))%Q.
Proof.
  intros Hdx Hdc He.
  destruct (SFdiv_shape sx sc mx mc ex ec Hdx Hdc He)
    as (pq & m' & e' & Hpq & Hdq & Hr & Hd' & He' & Hval).
  exists m', e'. split; [exact Hr |]. split; [exact Hd' |]. split; [lia |].
  assert (HX : (SFvalue false mx ex / SFvalue false mc ec
                == (inject_Z (Z.pos mx * 2 ^ 53) / inject_Z (Z.pos mc))
                   * pow2 (ex - ec - 53))%Q).
  { rewrite !magnitude_pow2.
    replace ex with ((ex - ec - 53) + ec + 53) at 1 by lia.
    rewrite !pow2_add, (pow2_nonneg 53), inject_Z_mult by lia.
    pose proof (pow2_pos ec) as Hpc. field.
    split; intros E0;
      first [ rewrite E0 in Hpc; exact (Qlt_irrefl 0 Hpc)
            | unfold Qeq in E0; simpl in E0; lia ]. }
  assert (Hc : (0 < inject_Z (Z.pos mc))%Q).
  { change 0%Q with (inject_Z 0). rewrite <- Zlt_Qlt. lia. }
  pose proof (Z.mul_div_le (Z.pos mx * 2 ^ 53) (Z.pos mc) ltac:(lia)) as Hlo.
  pose proof (Z.mul_succ_div_gt (Z.pos mx * 2 ^ 53) (Z.pos mc) ltac:(lia)) as Hhi.
  rewrite <- Hpq in Hlo, Hhi.
  apply (near_value pq m' (ex - ec - 53) e'); try lia; try exact Hval.
  - rewrite HX. apply Qmult_le_compat_r; [| apply Qlt_le_weak, pow2_pos].
    apply Qle_shift_div_l; [exact Hc |].
    rewrite <- inject_Z_mult, <- Zle_Qle. lia.
  - rewrite HX. apply Qmult_lt_compat_r; [apply pow2_pos |].
    apply Qlt_shift_div_r; [exact Hc |].
    rewrite <- inject_Z_mult, <- Zlt_Qlt. lia.
Qed.

(* ================================================================= *)
(** ** The formatter *)

Lemma roundHalfUp_Qfloor (s : bool) (m : positive) (e k : Z) :
  Js.roundHalfUp s m e k = Qfloor (SFvalue s m e * inject_Z k + (1 # 2)).
Proof.
  unfold Js.roundHalfUp, SFvalue.
  set (v := if s then Z.neg m else Z.pos m).
  destruct (0 <=? e) eqn:He.
  - unfold Qfloor, Qplus, Qmult, inject_Z. cbn [Qnum Qden].
    rewrite Pos.mul_1_l. change (Z.pos 1) with 1. change (Z.pos 2) with 2.
    apply (Z.div_unique _ _ _ 1); lia.
  - apply Z.leb_gt in He.
    assert (Hpos : 0 < 2 ^ (- e)) by (apply Z.pow_pos_nonneg; lia).
    unfold Qfloor, Qplus, Qmult, inject_Z. cbn [Qnum Qden].
    rewrite Pos.mul_1_r, Pos2Z.inj_mul, Z2Pos.id by assumption.
    change (Z.pos 2) with 2. f_equal; lia.
Qed.

Lemma groupRev_Grouped (n : nat) (l : list ascii) :
  (List.length l <= n)%nat -> l <> [] -> Grouped (rev l) (rev (Js.groupRev l)).
Proof.
  revert l. induction n as [| n IH]; intros l Hlen Hne.
  - destruct l; [congruence | simpl in Hlen; lia].
  - destruct l as [| a [| b [| c [| d rest]]]]; try congruence.
    + apply Grouped_lead. simpl. lia.
    + apply Grouped_lead. simpl. lia.
    + apply Grouped_lead. simpl. lia.
    + change (Js.groupRev (a :: b :: c :: d :: rest))
        with (a :: b :: c :: ","%char :: Js.groupRev (d :: rest)).
      assert (Htl : Grouped (rev (d :: rest)) (rev (Js.groupRev (d :: rest)))).
      { apply IH; [simpl in *; lia | discriminate]. }
      remember (d :: rest) as tl eqn:Etl. clear Etl.
      replace (rev (a :: b :: c :: tl)) with (rev tl ++ [c; b; a]).
      2:{ simpl. rewrite <- !app_assoc. reflexivity. }
      replace (rev (a :: b :: c :: ","%char :: Js.groupRev tl))
        with (rev (Js.groupRev tl) ++ ","%char :: [c; b; a]).
      2:{ simpl. rewrite <- !app_assoc. reflexivity. }
      apply Grouped_more, Htl.
Qed.

Lemma groupThousands_Grouped (ds : list ascii) :
  ds <> [] -> Grouped ds (Js.groupThousands ds).
Proof.
  intros Hne. unfold Js.groupThousands.
  rewrite <- (rev_involutive ds) at 1.
  apply (groupRev_Grouped (List.length (rev ds))); [lia |].
  intros E. apply Hne. rewrite <- (rev_involutive ds), E. reflexivity.
Qed.

Lemma Grouped_chars (ds out : list ascii) :
  Grouped ds out -> forall c, In c out -> c = ","%char \/ In c ds.
Proof.
  induction 1 as [ds _ | ds out a b c _ IH]; intros x Hx; [now right |].
  apply in_app_or in Hx. destruct Hx as [Hx | Hx].
  - destruct (IH x Hx) as [? | ?]; [now left | right; apply in_or_app; now left].
  - destruct Hx as [<- | Hx]; [now left |]. right. apply in_or_app. now right.
Qed.

Lemma uint_digits (d : Decimal.uint) :
  Forall (fun c => isDigit c = true) (list_ascii_of_string (NilEmpty.string_of_uint d)).
Proof.
  induction d; simpl; constructor; try assumption; reflexivity.
Qed.

Lemma decimal_digits (n : N) : Forall (fun c => isDigit c = true) (Js.decimal n).
Proof.
  unfold Js.decimal, NilZero.string_of_uint.
  destruct (N.to_uint n) as [| u | u | u | u | u | u | u | u | u | u] eqn:E;
    [repeat constructor | ..]; apply uint_digits.
Qed.

Lemma decimal_nonempty (n : N) : Js.decimal n <> [].
Proof.
  unfold Js.decimal, NilZero.string_of_uint.
  destruct (N.to_uint n); discriminate.
Qed.

Lemma formatFixed_integer (n : Z) :
  0 <= n -> Js.formatFixed 0 3 (n * 1000) = Js.groupThousands (Js.decimal (Z.to_N n)).
Proof.
  intros Hn. unfold Js.formatFixed. change (10 ^ Z.of_nat 3) with 1000.
  rewrite Z.mod_mul, Z.div_mul by lia.
  change (Js.stripTrailingZeros 0 (Js.fractionDigits 3 0)) with (@nil ascii).
  apply app_nil_r.
Qed.

Lemma formatFixed_two (n : Z) :
  Js.formatFixed 2 2 n
  = Js.groupThousands (Js.decimal (Z.to_N (n / 100)))
    ++ "."%char :: [Js.digitChar ((n mod 100) / 10 mod 10); Js.digitChar ((n mod 100) mod 10)].
Proof. reflexivity. Qed.

Lemma digitChar_isDigit (d : Z) : 0 <= d <= 9 -> isDigit (Js.digitChar d) = true.
Proof.
  intros Hd. unfold Js.digitChar, isDigit.
  assert (E : Z.to_N d = 0%N \/ Z.to_N d = 1%N \/ Z.to_N d = 2%N \/ Z.to_N d = 3%N
              \/ Z.to_N d = 4%N \/ Z.to_N d = 5%N \/ Z.to_N d = 6%N \/ Z.to_N d = 7%N
              \/ Z.to_N d = 8%N \/ Z.to_N d = 9%N) by lia.
  repeat (destruct E as [E | E]; [rewrite E; reflexivity |]).
  rewrite E; reflexivity.
Qed.

Lemma roundHalfUp_canonical (p : positive) (k : Z) :
  Z.pos (digits2_pos p) <= 53 ->
  Js.roundHalfUp false (mantissaOf p) (Z.pos (digits2_pos p) - 53) k = Z.pos p * k.
Proof.
  intros Hd. unfold Js.roundHalfUp. rewrite (mantissaOf_value p Hd).
  set (d := Z.pos (digits2_pos p)) in *.
  destruct (0 <=? d - 53) eqn:E.
  - apply Z.leb_le in E. replace (d - 53) with 0 by lia.
    replace (53 - d) with 0 by lia. rewrite Z.pow_0_r. lia.
  - apply Z.leb_gt in E. replace (- (d - 53)) with (53 - d) by lia.
    assert (Hpos : 0 < 2 ^ (53 - d)) by (apply Z.pow_pos_nonneg; lia).
    symmetry. apply (Z.div_unique _ _ _ (2 ^ (53 - d))); lia.
Qed.

Lemma roundHalfUp_bound (s : bool) (m : positive) (e : Z) :
  Z.pos (digits2_pos m) <= 53 -> e < 0 ->
  let r := Js.roundHalfUp s m e 1 in
  Z.abs r < 2 ^ 53 /\ (s = true -> r <= 0) /\ (s = false -> 0 <= r).
Proof.
  intros Hd He r. subst r. unfold Js.roundHalfUp.
  replace (0 <=? e) with false by (symmetry; apply Z.leb_gt; lia).
  pose proof (digits2_bounds m) as [_ Hm].
  assert (Hm53 : Z.pos m < 2 ^ 53).
  { eapply Z.lt_le_trans; [exact Hm |]. apply Z.pow_le_mono_r; lia. }
  assert (HD : 2 <= 2 ^ (- e)).
  { change 2 with (2 ^ 1) at 1. apply Z.pow_le_mono_r; lia. }
  set (D := 2 ^ (- e)) in *.
  set (v := (if s then Z.neg m else Z.pos m) * 1).
  assert (Hv : Z.abs v < 2 ^ 53) by (subst v; destruct s; lia).
  pose proof (Z.div_mod (2 * v + D) (2 * D) ltac:(lia)) as Hdm.
  pose proof (Z.mod_pos_bound (2 * v + D) (2 * D) ltac:(lia)) as Hb.
  set (q := (2 * v + D) / (2 * D)) in *.
  repeat split.
  - change (2 ^ 53) with 9007199254740992 in *. nia.
  - intros ->. subst v. nia.
  - intros ->. subst v. nia.
Qed.

Lemma Math_round_repr (x : number) (s : bool) (m : positive) (e : Z) :
  Prim2SF x = S754_finite s m e -> e < 0 ->
  Prim2SF (Js.Math_round x)
  = match Js.roundHalfUp s m e 1 with
    | Z0 => S754_zero s
    | Zpos p => S754_finite s (mantissaOf p) (Z.pos (digits2_pos p) - 53)
    | Zneg p => S754_finite s (mantissaOf p) (Z.pos (digits2_pos p) - 53)
    end.
Proof.
  intros Hx He. unfold Js.Math_round. rewrite Hx.
  replace (0 <=? e) with false by (symmetry; apply Z.leb_gt; lia).
  destruct (finite_mantissa_bound x s m e Hx) as [Hd _].
  destruct (roundHalfUp_bound s m e Hd He) as (Hr & Hneg & Hpos).
  destruct (Js.roundHalfUp s m e 1) as [| p | p] eqn:Er.
  - destruct s; reflexivity.
  - assert (s = false) by (destruct s; [specialize (Hneg eq_refl); lia | reflexivity]).
    subst s. apply Prim2SF_ofZ_pos, digits_of_small. lia.
  - assert (s = true) by (destruct s; [reflexivity | specialize (Hpos eq_refl); lia]).
    subst s. apply Prim2SF_ofZ_neg, digits_of_small. lia.
Qed.

Lemma Qfloor_half (a : Z) : Qfloor (inject_Z a + (1 # 2)) = a.
Proof.
  unfold Qfloor, Qplus, inject_Z. cbn [Qnum Qden].
  change (Z.pos (1 * 2)) with 2. change (Z.pos 1) with 1. change (Z.pos 2) with 2.
  symmetry. apply (Z.div_unique _ _ _ 1); lia.
Qed.

Lemma roundedZ_finite (x : number) (s : bool) (m : positive) (e : Z) :
  Prim2SF x = S754_finite s m e -> roundedZ x = Js.roundHalfUp s m e 1.
Proof.
  intros Hx. unfold roundedZ, exactValue. rewrite Hx, roundHalfUp_Qfloor.
  apply Qfloor_comp. change (inject_Z 1) with 1%Q. ring.
Qed.

Lemma roundedZ_zero (x : number) (s : bool) :
  Prim2SF x = S754_zero s -> roundedZ x = 0.
Proof. intros Hx. unfold roundedZ, exactValue. rewrite Hx. reflexivity. Qed.

Lemma SFvalue_canonical (s : bool) (p : positive) :
  Z.pos (digits2_pos p) <= 53 ->
  (SFvalue s (mantissaOf p) (Z.pos (digits2_pos p) - 53)
   == inject_Z (if s then Z.neg p else Z.pos p))%Q.
Proof.
  intros Hd. unfold SFvalue.
  assert (Hm := mantissaOf_value p Hd).
  set (d := Z.pos (digits2_pos p)) in *.
  assert (Hsigned : (if s then Z.neg (mantissaOf p) else Z.pos (mantissaOf p))
                    = (if s then Z.neg p else Z.pos p) * 2 ^ (53 - d)).
  { destruct s; [rewrite <- !Pos2Z.opp_pos |]; rewrite Hm; lia. }
  rewrite Hsigned.
  destruct (0 <=? d - 53) eqn:E.
  - apply Z.leb_le in E. replace (53 - d) with 0 by lia. replace (d - 53) with 0 by lia.
    rewrite !Z.pow_0_r. apply inject_Z_injective. lia.
  - apply Z.leb_gt in E. replace (- (d - 53)) with (53 - d) by lia.
    assert (Hpos : 0 < 2 ^ (53 - d)) by (apply Z.pow_pos_nonneg; lia).
    unfold Qeq, inject_Z. cbn [Qnum Qden]. rewrite Z2Pos.id by assumption. lia.
Qed.

(** [Math.round] gives the nearest integer, ties going up. *)
Lemma Math_round_value (x : number) :
  Js.isFinite x = true -> (exactValue (Js.Math_round x) == inject_Z (roundedZ x))%Q.
Proof.
  intros Hfin. destruct (isFinite_cases x Hfin) as [(s & Hx) | (s & m & e & Hx)].
  - rewrite (roundedZ_zero x s Hx). unfold Js.Math_round, exactValue. rewrite Hx, Hx. reflexivity.
  - rewrite (roundedZ_finite x s m e Hx).
    destruct (Z.ltb_spec e 0) as [He | He].
    + unfold exactValue at 1. rewrite (Math_round_repr x s m e Hx He).
      destruct (finite_mantissa_bound x s m e Hx) as [Hd _].
      destruct (roundHalfUp_bound s m e Hd He) as (Hr & Hneg & Hpos).
      destruct (Js.roundHalfUp s m e 1) as [| p | p] eqn:Er; [reflexivity | |].
      * assert (s = false) by (destruct s; [specialize (Hneg eq_refl); lia | reflexivity]).
        subst s. apply (SFvalue_canonical false), digits_of_small. lia.
      * assert (s = true) by (destruct s; [reflexivity | specialize (Hpos eq_refl); lia]).
        subst s. apply (SFvalue_canonical true), digits_of_small. lia.
    + unfold Js.Math_round, exactValue. rewrite Hx.
      replace (0 <=? e) with true by (symmetry; apply Z.leb_le; lia).
      rewrite Hx. unfold SFvalue, Js.roundHalfUp.
      replace (0 <=? e) with true by (symmetry; apply Z.leb_le; lia).
      apply inject_Z_injective. lia.
Qed.


(** ** The decimal numeral of a number *)

Lemma pow10_pos (q : Z) : (0 < Js.pow10 q)%Q.
Proof. apply Qpower_0_lt. reflexivity. Qed.

Lemma pow10_add (a b : Z) : (Js.pow10 (a + b) == Js.pow10 a * Js.pow10 b)%Q.
Proof. apply Qpower_plus. discriminate. Qed.

Lemma pow10_nonneg (n : Z) : 0 <= n -> (Js.pow10 n == inject_Z (10 ^ n))%Q.
Proof. intros Hn. unfold Js.pow10. rewrite Zpower_Qpower by assumption. reflexivity. Qed.

Lemma pow10_0 : (Js.pow10 0 == 1)%Q.
Proof. reflexivity. Qed.

Lemma dyadic_pow2 (a e : Z) : (Js.dyadic a e == inject_Z a * pow2 e)%Q.
Proof. reflexivity. Qed.

Lemma dyadic_SFvalue (m : positive) (e : Z) : (Js.dyadic (Z.pos m) e == SFvalue false m e)%Q.
Proof. rewrite magnitude_pow2. reflexivity. Qed.

Lemma pow2_le (a b : Z) : a <= b -> (pow2 a <= pow2 b)%Q.
Proof.
  intros Hab. replace b with (a + (b - a)) by lia.
  rewrite pow2_add, (pow2_nonneg (b - a)) by lia.
  rewrite <- (Qmult_1_r (pow2 a)) at 1.
  apply Qmult_le_l; [apply pow2_pos |].
  change 1%Q with (inject_Z 1). rewrite <- Zle_Qle.
  assert (0 < 2 ^ (b - a)) by (apply Z.pow_pos_nonneg; lia). lia.
Qed.

Lemma pow2_half (e : Z) : (pow2 e == 2 * pow2 (e - 1))%Q.
Proof.
  replace e with (1 + (e - 1)) at 1 by lia. rewrite pow2_add. reflexivity.
Qed.

(** The two midpoints, in units of [2^(e-1)]. *)
Lemma midpoints (m : positive) (e : Z) :
  let v := Js.dyadic (Z.pos m) e in
  (Js.dyadic (2 * Z.pos m - 1) (e - 1) == v - pow2 (e - 1))%Q
  /\ (Js.dyadic (2 * Z.pos m + 1) (e - 1) == v + pow2 (e - 1))%Q
  /\ (Js.dyadic (4 * Z.pos m - 1) (e - 2) == v - pow2 (e - 2))%Q
  /\ (pow2 (e - 1) == 2 * pow2 (e - 2))%Q.
Proof.
  intros v. subst v. rewrite !dyadic_pow2.
  assert (H1 := pow2_half e). assert (H2 := pow2_half (e - 1)).
  replace (e - 1 - 1) with (e - 2) in H2 by lia.
  unfold Z.sub. rewrite !inject_Z_plus, !inject_Z_mult, !inject_Z_opp.
  fold (Z.sub e 1). fold (Z.sub e 2).
  change (inject_Z 2) with 2%Q. change (inject_Z 4) with 4%Q. change (inject_Z 1) with 1%Q.
  repeat split; try (rewrite H1, H2; ring); try (rewrite H1; ring). exact H2.
Qed.

Lemma readsBack_compat (m : positive) (e : Z) (d d' : Q) :
  (d == d')%Q -> Js.readsBack m e d = Js.readsBack m e d'.
Proof.
  intros E. unfold Js.readsBack. cbv zeta.
  destruct (Z.even (Z.pos m)); rewrite E; reflexivity.
Qed.

Lemma Qle_bool_false (a b : Q) : Qle_bool a b = false -> (b < a)%Q.
Proof.
  intros H. apply Qnot_le_lt. intros Hle. apply Qle_bool_iff in Hle. congruence.
Qed.

(** A decimal that is read back as a number lies within half a unit in
    the last place of it. *)
Lemma readsBack_near (m : positive) (e : Z) (d : Q) :
  Js.readsBack m e d = true ->
  (Js.dyadic (Z.pos m) e - pow2 (e - 1) <= d <= Js.dyadic (Z.pos m) e + pow2 (e - 1))%Q.
Proof.
  destruct (midpoints m e) as (Hlo & Hhi & Hlo' & Hq).
  pose proof (pow2_pos (e - 2)) as Hpos.
  unfold Js.readsBack. cbv zeta. intros H.
  assert (Hcases :
            ((Js.dyadic (Z.pos m) e - pow2 (e - 1) <= d)%Q
             \/ (Js.dyadic (Z.pos m) e - pow2 (e - 2) <= d)%Q)
            /\ (d <= Js.dyadic (Z.pos m) e + pow2 (e - 1))%Q).
  { destruct ((Z.pos m =? 2 ^ 52) && (-1074 <? e)), (Z.even (Z.pos m));
      apply andb_prop in H; destruct H as [Ha Hb].
    - apply Qle_bool_iff in Ha, Hb. rewrite Hlo' in Ha. rewrite Hhi in Hb. auto.
    - apply negb_true_iff, Qle_bool_false, Qlt_le_weak in Ha.
      apply negb_true_iff, Qle_bool_false, Qlt_le_weak in Hb.
      rewrite Hlo' in Ha. rewrite Hhi in Hb. auto.
    - apply Qle_bool_iff in Ha, Hb. rewrite Hlo in Ha. rewrite Hhi in Hb. auto.
    - apply negb_true_iff, Qle_bool_false, Qlt_le_weak in Ha.
      apply negb_true_iff, Qle_bool_false, Qlt_le_weak in Hb.
      rewrite Hlo in Ha. rewrite Hhi in Hb. auto. }
  destruct Hcases as [[Ha | Ha] Hb]; split; try assumption. lra.
Qed.

(** Every number is read back from its own value. *)
Lemma readsBack_self (m : positive) (e : Z) :
  Js.readsBack m e (Js.dyadic (Z.pos m) e) = true.
Proof.
  destruct (midpoints m e) as (Hlo & Hhi & Hlo' & Hq).
  pose proof (pow2_pos (e - 2)) as Hpos. pose proof (pow2_pos (e - 1)) as Hpos1.
  unfold Js.readsBack. cbv zeta.
  destruct ((Z.pos m =? 2 ^ 52) && (-1074 <? e)), (Z.even (Z.pos m));
    apply andb_true_intro; split;
    try (apply Qle_bool_iff; lra);
    try (apply negb_true_iff; apply not_true_is_false; intros Hc; apply Qle_bool_iff in Hc; lra).
Qed.

Lemma pow10_split (n : Z) : 0 <= n -> (Js.pow10 n == pow2 n * inject_Z (5 ^ n))%Q.
Proof.
  intros Hn. rewrite pow10_nonneg, pow2_nonneg by assumption.
  rewrite <- inject_Z_mult. apply inject_Z_injective.
  change 10 with (2 * 5). apply Z.pow_mul_l.
Qed.

Lemma pow10_opp (n : Z) : (Js.pow10 (- n) == / Js.pow10 n)%Q.
Proof. apply Qpower_opp. Qed.

Lemma pow2_opp (n : Z) : (pow2 (- n) == / pow2 n)%Q.
Proof. apply Qpower_opp. Qed.

Lemma exactDecimal_value (m : positive) (e : Z) :
  (inject_Z (fst (Js.exactDecimal m e)) * Js.pow10 (snd (Js.exactDecimal m e))
   == Js.dyadic (Z.pos m) e)%Q.
Proof.
  unfold Js.exactDecimal. rewrite dyadic_pow2.
  destruct (Z.leb_spec 0 e) as [He | He]; cbn [fst snd].
  - rewrite pow10_0, inject_Z_mult, pow2_nonneg by assumption. ring.
  - replace e with (- (- e)) at 2 3 by lia.
    rewrite pow10_opp, pow2_opp, pow10_split, inject_Z_mult by lia.
    assert (H5 : ~ (inject_Z (5 ^ (- e)) == 0)%Q).
    { change 0%Q with (inject_Z 0). rewrite inject_Z_injective.
      assert (0 < 5 ^ (- e)) by (apply Z.pow_pos_nonneg; lia). lia. }
    assert (H2 : ~ (pow2 (- e) == 0)%Q) by (pose proof (pow2_pos (- e)); lra).
    field. split; assumption.
Qed.

Lemma closestMultiple_sound (m : positive) (e q c : Z) :
  Js.closestMultiple m e q = Some c ->
  Js.readsBack m e (inject_Z c * Js.pow10 q) = true.
Proof.
  unfold Js.closestMultiple. cbv zeta.
  set (c0 := Qfloor (Js.dyadic (Z.pos m) e / Js.pow10 q)).
  destruct (Js.readsBack m e (inject_Z c0 * Js.pow10 q)) eqn:E0,
           (Js.readsBack m e (inject_Z (c0 + 1) * Js.pow10 q)) eqn:E1;
    try discriminate.
  - destruct (Js.dyadic (Z.pos m) e / Js.pow10 q - inject_Z c0 ?= 1 # 2)%Q;
      [destruct (Z.even c0) |..]; intros [= <-]; assumption.
  - intros [= <-]. assumption.
  - intros [= <-]. assumption.
Qed.

(** The numeral of a number is read back as the number. *)
Lemma shortestFrom_sound (m : positive) (e : Z) (fuel : nat) :
  forall q,
    Js.readsBack m e (inject_Z (fst (Js.shortestFrom fuel q m e))
                      * Js.pow10 (snd (Js.shortestFrom fuel q m e))) = true.
Proof.
  induction fuel as [| fuel IH]; intros q; cbn [Js.shortestFrom].
  - rewrite (readsBack_compat _ _ _ _ (exactDecimal_value m e)). apply readsBack_self.
  - destruct (Js.closestMultiple m e q) as [c |] eqn:E.
    + cbn [fst snd]. apply (closestMultiple_sound _ _ _ _ E).
    + apply IH.
Qed.

Lemma shortestDecimal_near (m : positive) (e : Z) :
  (Qabs (inject_Z (fst (Js.shortestDecimal m e)) * Js.pow10 (snd (Js.shortestDecimal m e))
         - SFvalue false m e) <= pow2 (e - 1))%Q.
Proof.
  pose proof (readsBack_near m e _ (shortestFrom_sound m e 25 (Js.exponentAbove m e))) as H.
  fold (Js.shortestDecimal m e) in H. rewrite dyadic_SFvalue in H.
  apply Qabs_Qle_condition. split; lra.
Qed.

(** *** Integers *)

Lemma closestMultiple_integer (m : positive) (e : Z) (p : Z) :
  (Js.dyadic (Z.pos m) e == inject_Z p)%Q -> Js.closestMultiple m e 0 <> None.
Proof.
  intros Hv. unfold Js.closestMultiple. cbv zeta.
  assert (Hc : Qfloor (Js.dyadic (Z.pos m) e / Js.pow10 0) = p).
  { rewrite <- (Qfloor_Z p). apply Qfloor_comp. rewrite Hv, pow10_0. field. }
  rewrite Hc.
  assert (Hself : Js.readsBack m e (inject_Z p * Js.pow10 0) = true).
  { rewrite <- (readsBack_self m e). apply readsBack_compat. rewrite Hv, pow10_0. ring. }
  rewrite Hself.
  destruct (Js.readsBack m e (inject_Z (p + 1) * Js.pow10 0)); [| discriminate].
  destruct (Js.dyadic (Z.pos m) e / Js.pow10 0 - inject_Z p ?= 1 # 2)%Q;
    [destruct (Z.even p) |..]; discriminate.
Qed.

(** The numeral of an integer has no fraction digits. *)
Lemma shortestFrom_integer (m : positive) (e : Z) (p : Z) (fuel : nat) :
  (Js.dyadic (Z.pos m) e == inject_Z p)%Q ->
  forall q, 0 <= q -> 0 <= e \/ (Z.to_nat q < fuel)%nat ->
            0 <= snd (Js.shortestFrom fuel q m e).
Proof.
  intros Hv. induction fuel as [| fuel IH]; intros q Hq Hfuel; cbn [Js.shortestFrom].
  - destruct Hfuel as [He | Hf]; [| lia].
    unfold Js.exactDecimal. replace (0 <=? e) with true by (symmetry; apply Z.leb_le; lia).
    cbn [snd]. lia.
  - destruct (Js.closestMultiple m e q) as [c |] eqn:E; [cbn [snd]; exact Hq |].
    destruct (Z.eq_dec q 0) as [-> | Hne].
    + exfalso. exact (closestMultiple_integer m e p Hv E).
    + apply IH; [lia |]. destruct Hfuel as [He | Hf]; [now left | right; lia].
Qed.

Lemma exponentAbove_bounds (m : positive) (e : Z) :
  let b := Z.pos (digits2_pos m) + e in
  (1 <= b -> 0 <= Js.exponentAbove m e)
  /\ (0 <= b <= 53 -> Js.exponentAbove m e <= 16).
Proof.
  intros b. unfold Js.exponentAbove. fold b. split; intros Hb.
  - replace (0 <=? b) with true by (symmetry; apply Z.leb_le; lia).
    assert (0 <= b * 30103 / 100000) by (apply Z.div_pos; lia). lia.
  - replace (0 <=? b) with true by (symmetry; apply Z.leb_le; lia).
    assert (b * 30103 / 100000 < 16) by (apply Z.div_lt_upper_bound; lia). lia.
Qed.

(** The numeral of a positive integer below [2^53] is the integer. *)
Lemma shortestDecimal_integer (m : positive) (e : Z) (p : positive) :
  Z.pos (digits2_pos m) <= 53 ->
  (SFvalue false m e == inject_Z (Z.pos p))%Q ->
  let (c, q) := Js.shortestDecimal m e in
  0 <= q /\ 0 <= c
  /\ (Qabs (inject_Z (c * 10 ^ q) - inject_Z (Z.pos p)) <= pow2 (e - 1))%Q
  /\ (e <= 0 -> c * 10 ^ q = Z.pos p).
Proof.
  intros Hd Hv.
  assert (Hv' : (Js.dyadic (Z.pos m) e == inject_Z (Z.pos p))%Q)
    by (rewrite dyadic_SFvalue; exact Hv).
  pose proof (digits2_bounds m) as [_ Hhi].
  set (b := Z.pos (digits2_pos m) + e).
  assert (Hb : 1 <= b).
  { (* the value is at least 1 and below 2^b *)
    destruct (Z.lt_ge_cases b 1) as [Hlt | Hge]; [exfalso | exact Hge].
    assert (Hlt1 : (SFvalue false m e < 1)%Q).
    { rewrite magnitude_pow2.
      apply Qlt_le_trans with (inject_Z (2 ^ Z.pos (digits2_pos m)) * pow2 e)%Q.
      - apply Qmult_lt_compat_r; [apply pow2_pos | rewrite <- Zlt_Qlt; exact Hhi].
      - rewrite <- pow2_nonneg, <- pow2_add by lia. fold b.
        replace 1%Q with (pow2 0) by reflexivity. apply pow2_le. lia. }
    rewrite Hv in Hlt1. change 1%Q with (inject_Z 1) in Hlt1.
    rewrite <- Zlt_Qlt in Hlt1. lia. }
  destruct (exponentAbove_bounds m e) as [Hstart0 Hstart16]. fold b in Hstart0, Hstart16.
  specialize (Hstart0 Hb).
  assert (Hq : 0 <= snd (Js.shortestDecimal m e)).
  { apply (shortestFrom_integer m e (Z.pos p) 25 Hv' _ Hstart0).
    destruct (Z.le_gt_cases 0 e) as [He | He]; [now left | right].
    assert (Js.exponentAbove m e <= 16) by (apply Hstart16; lia). lia. }
  pose proof (shortestDecimal_near m e) as Hnear.
  pose proof (readsBack_near m e _ (shortestFrom_sound m e 25 (Js.exponentAbove m e))) as Hrb.
  fold (Js.shortestDecimal m e) in Hrb.
  destruct (Js.shortestDecimal m e) as [c q]. cbn [fst snd] in *.
  rewrite pow10_nonneg, <- inject_Z_mult in Hnear, Hrb by assumption.
  rewrite Hv in Hnear. rewrite Hv' in Hrb.
  assert (H10 : 0 < 10 ^ q) by (apply Z.pow_pos_nonneg; lia).
  split; [exact Hq |]. split; [| split; [exact Hnear |]].
  - (* the numeral is positive: it is above the lower midpoint *)
    destruct (Z.lt_ge_cases c 0) as [Hneg | Hpos]; [exfalso | exact Hpos].
    destruct Hrb as [Hlow _].
    assert (Hhalf : (pow2 (e - 1) < Js.dyadic (Z.pos m) e)%Q).
    { rewrite dyadic_pow2, (pow2_half e).
      pose proof (pow2_pos (e - 1)) as Hp.
      assert (1 <= inject_Z (Z.pos m))%Q by (change 1%Q with (inject_Z 1); rewrite <- Zle_Qle; lia).
      nra. }
    rewrite Hv' in Hhalf.
    assert (Hc : (inject_Z (c * 10 ^ q) <= 0)%Q).
    { change 0%Q with (inject_Z 0). rewrite <- Zle_Qle. nia. }
    lra.
  - intros He.
    assert (Hle : (pow2 (e - 1) <= 1 # 2)%Q).
    { change (1 # 2)%Q with (pow2 (-1)). apply pow2_le. lia. }
    unfold Qminus in Hnear. rewrite <- inject_Z_opp, <- inject_Z_plus in Hnear.
    assert (Habs : (Qabs (inject_Z (c * 10 ^ q + - Z.pos p)) < inject_Z 1)%Q).
    { eapply Qle_lt_trans; [exact Hnear |]. eapply Qle_lt_trans; [exact Hle |]. reflexivity. }
    apply Qabs_Qlt_condition in Habs. destruct Habs as [H1 H2].
    change (- inject_Z 1)%Q with (inject_Z (-1)) in H1.
    rewrite <- Zlt_Qlt in H1, H2. lia.
Qed.

Lemma roundDecimal_Qfloor (c j : Z) :
  Js.roundDecimal c j = Qfloor (inject_Z c * Js.pow10 j + (1 # 2)).
Proof.
  unfold Js.roundDecimal. destruct (Z.leb_spec 0 j) as [Hj | Hj].
  - rewrite <- (Qfloor_half (c * 10 ^ j)). apply Qfloor_comp.
    rewrite pow10_nonneg, inject_Z_mult by assumption. reflexivity.
  - assert (HD : 0 < 10 ^ (- j)) by (apply Z.pow_pos_nonneg; lia).
    set (D := 10 ^ (- j)) in *.
    assert (E : (inject_Z c * Js.pow10 j + (1 # 2) == (2 * c + D) # Z.to_pos (2 * D))%Q).
    { replace j with (- (- j)) by lia. rewrite pow10_opp, pow10_nonneg by lia. fold D.
      rewrite (Qmake_Qdiv (2 * c + D)), Z2Pos.id by lia.
      rewrite inject_Z_plus, !inject_Z_mult. change (inject_Z 2) with 2%Q.
      assert (~ (inject_Z D == 0)%Q).
      { change 0%Q with (inject_Z 0). rewrite inject_Z_injective. lia. }
      field. assumption. }
    rewrite (Qfloor_comp _ _ E). unfold Qfloor. rewrite Z2Pos.id by lia. reflexivity.
Qed.

Lemma roundDecimal_integer (c q : Z) :
  0 <= q -> Js.roundDecimal c (q + 3) = c * 10 ^ q * 1000.
Proof.
  intros Hq. unfold Js.roundDecimal.
  replace (0 <=? q + 3) with true by (symmetry; apply Z.leb_le; lia).
  rewrite Z.pow_add_r by lia. change (10 ^ 3) with 1000. ring.
Qed.

(** A check that holds on a range holds at each of its values. *)
Lemma holdsFrom_spec (f : Z -> bool) (n : nat) :
  forall from, holdsFrom f from n = true ->
  forall z, from <= z < from + Z.of_nat n -> f z = true.
Proof.
  induction n as [| n IH]; intros from H z Hz; [lia |].
  cbn [holdsFrom] in H. apply andb_prop in H. destruct H as [H0 H1].
  destruct (Z.eq_dec z from) as [-> | Hne]; [exact H0 |].
  apply (IH (from + 1) H1). lia.
Qed.

(** *** The numeral has the fewest digits *)

Lemma exponentCheck_all : holdsFrom exponentCheck (-1073) 2098 = true.
Proof. vm_compute. reflexivity. Qed.

(** The exponent the search starts from is above the value, and 24
    places below it the powers of ten are finer than the numbers. *)
Lemma exponentAbove_spec (m : positive) (e : Z) :
  Z.pos (digits2_pos m) <= 53 -> -1074 <= e <= 971 ->
  (pow2 (Z.pos (digits2_pos m) + e) <= Js.pow10 (Js.exponentAbove m e))%Q
  /\ (Js.pow10 (Js.exponentAbove m e - 24) <= pow2 (e - 1))%Q.
Proof.
  intros Hd He. set (b := Z.pos (digits2_pos m) + e).
  assert (Hb : -1073 <= b < -1073 + Z.of_nat 2098) by (subst b; lia).
  pose proof (holdsFrom_spec exponentCheck _ _ exponentCheck_all b Hb) as H.
  unfold exponentCheck in H. cbv zeta in H. apply andb_prop in H. destruct H as [H1 H2].
  apply Qle_bool_iff in H1, H2. fold (pow2 b) in H1. fold (pow2 (b - 54)) in H2.
  unfold Js.exponentAbove. fold b. split; [exact H1 |].
  eapply Qle_trans; [exact H2 |]. apply pow2_le. subst b. lia.
Qed.

Lemma readsBack_bounds (m : positive) (e : Z) (d : Q) :
  let low :=
    if (Z.pos m =? 2 ^ 52) && (-1074 <? e) then Js.dyadic (4 * Z.pos m - 1) (e - 2)
    else Js.dyadic (2 * Z.pos m - 1) (e - 1) in
  let high := Js.dyadic (2 * Z.pos m + 1) (e - 1) in
  Js.readsBack m e d = true
  <-> (if Z.even (Z.pos m) then (low <= d <= high)%Q else (low < d < high)%Q).
Proof.
  intros low high. unfold Js.readsBack. fold low high.
  destruct (Z.even (Z.pos m)).
  - rewrite andb_true_iff, !Qle_bool_iff. tauto.
  - rewrite andb_true_iff, !negb_true_iff. split.
    + intros [Ha Hb]. split; apply Qle_bool_false; assumption.
    + intros [Ha Hb]. split; apply not_true_is_false; intros Hc;
        apply Qle_bool_iff in Hc; lra.
Qed.

(** The decimals that are read back as a number form an interval. *)
Lemma readsBack_convex (m : positive) (e : Z) (d1 d d2 : Q) :
  Js.readsBack m e d1 = true -> Js.readsBack m e d2 = true ->
  (d1 <= d <= d2)%Q -> Js.readsBack m e d = true.
Proof.
  rewrite !readsBack_bounds. cbv zeta.
  destruct (Z.even (Z.pos m)); intros H1 H2 H; lra.
Qed.

Lemma readsBack_false (m : positive) (e : Z) (d : Q) :
  (d <= 0)%Q \/ (pow2 (Z.pos (digits2_pos m) + e) <= d)%Q -> Js.readsBack m e d = false.
Proof.
  intros H. apply not_true_is_false. intros Hrb.
  apply readsBack_near in Hrb.
  pose proof (pow2_pos (e - 1)) as Hp.
  assert (Hv : (Js.dyadic (Z.pos m) e == 2 * inject_Z (Z.pos m) * pow2 (e - 1))%Q).
  { rewrite dyadic_pow2, (pow2_half e). ring. }
  assert (H1 : (1 <= inject_Z (Z.pos m))%Q)
    by (change 1%Q with (inject_Z 1); rewrite <- Zle_Qle; lia).
  destruct H as [H | H].
  - nra.
  - pose proof (digits2_bounds m) as [_ Hhi].
    assert (Hb : (pow2 (Z.pos (digits2_pos m) + e)
                  == 2 * inject_Z (2 ^ Z.pos (digits2_pos m)) * pow2 (e - 1))%Q).
    { rewrite pow2_add, pow2_nonneg, (pow2_half e) by lia. ring. }
    assert (H2 : (inject_Z (Z.pos m) + 1 <= inject_Z (2 ^ Z.pos (digits2_pos m)))%Q).
    { change 1%Q with (inject_Z 1). rewrite <- inject_Z_plus, <- Zle_Qle. lia. }
    nra.
Qed.

Lemma floor_bracket (v P : Q) :
  (0 < P)%Q ->
  (inject_Z (Qfloor (v / P)) * P <= v < inject_Z (Qfloor (v / P) + 1) * P)%Q.
Proof.
  intros HP. pose proof (Qfloor_le (v / P)) as H1. pose proof (Qlt_floor (v / P)) as H2.
  assert (E : (v == v / P * P)%Q) by (field; lra).
  split.
  - rewrite E at 2. apply Qmult_le_compat_r; [exact H1 | lra].
  - rewrite E at 1. apply Qmult_lt_compat_r; assumption.
Qed.

Lemma multiples_ordered (c c' : Z) (P : Q) :
  (0 < P)%Q -> c' <= c -> (inject_Z c' * P <= inject_Z c * P)%Q.
Proof.
  intros HP H. apply Qmult_le_compat_r; [rewrite <- Zle_Qle; exact H | lra].
Qed.

(** When neither neighbouring multiple is read back, no multiple is. *)
Lemma closestMultiple_none (m : positive) (e q : Z) :
  Js.closestMultiple m e q = None ->
  forall c', Js.readsBack m e (inject_Z c' * Js.pow10 q) = false.
Proof.
  unfold Js.closestMultiple. cbv zeta.
  pose proof (floor_bracket (Js.dyadic (Z.pos m) e) (Js.pow10 q) (pow10_pos q)) as [Hlo Hhi].
  set (c0 := Qfloor (Js.dyadic (Z.pos m) e / Js.pow10 q)) in *.
  destruct (Js.readsBack m e (inject_Z c0 * Js.pow10 q)) eqn:E0,
           (Js.readsBack m e (inject_Z (c0 + 1) * Js.pow10 q)) eqn:E1;
    try discriminate.
  - destruct (Js.dyadic (Z.pos m) e / Js.pow10 q - inject_Z c0 ?= 1 # 2)%Q;
      [destruct (Z.even c0) |..]; discriminate.
  - intros _ c'. apply not_true_is_false. intros Hc.
    pose proof (readsBack_self m e) as Hself.
    destruct (Z.le_gt_cases c' c0) as [Hle | Hgt].
    + rewrite (readsBack_convex m e _ (inject_Z c0 * Js.pow10 q) _ Hc Hself) in E0;
        [discriminate |].
      split; [apply multiples_ordered; [apply pow10_pos | exact Hle] | exact Hlo].
    + rewrite (readsBack_convex m e _ (inject_Z (c0 + 1) * Js.pow10 q) _ Hself Hc) in E1;
        [discriminate |].
      split; [apply Qlt_le_weak; exact Hhi |].
      apply multiples_ordered; [apply pow10_pos | lia].
Qed.

(** The multiple that is chosen is the closest of those read back. *)
Lemma closestMultiple_closest (m : positive) (e q c : Z) :
  Js.closestMultiple m e q = Some c ->
  forall c', Js.readsBack m e (inject_Z c' * Js.pow10 q) = true ->
             (Qabs (inject_Z c * Js.pow10 q - Js.dyadic (Z.pos m) e)
              <= Qabs (inject_Z c' * Js.pow10 q - Js.dyadic (Z.pos m) e))%Q.
Proof.
  unfold Js.closestMultiple. cbv zeta.
  pose proof (pow10_pos q) as HP.
  pose proof (floor_bracket (Js.dyadic (Z.pos m) e) (Js.pow10 q) HP) as [Hlo Hhi].
  pose proof (readsBack_self m e) as Hself.
  set (v := Js.dyadic (Z.pos m) e) in *.
  set (c0 := Qfloor (v / Js.pow10 q)) in *.
  assert (Hbelow : forall c', c' <= c0 ->
                     (Qabs (inject_Z c0 * Js.pow10 q - v)
                      <= Qabs (inject_Z c' * Js.pow10 q - v))%Q).
  { intros c' Hle. pose proof (multiples_ordered c0 c' _ HP Hle).
    rewrite !Qabs_neg by lra. lra. }
  assert (Habove : forall c', c0 + 1 <= c' ->
                     (Qabs (inject_Z (c0 + 1) * Js.pow10 q - v)
                      <= Qabs (inject_Z c' * Js.pow10 q - v))%Q).
  { intros c' Hle. pose proof (multiples_ordered c' (c0 + 1) _ HP Hle).
    rewrite !Qabs_pos by lra. lra. }
  assert (Hnext : (inject_Z (c0 + 1) * Js.pow10 q == inject_Z c0 * Js.pow10 q + Js.pow10 q)%Q).
  { rewrite inject_Z_plus. change (inject_Z 1) with 1%Q. ring. }
  assert (Hfrac : (v / Js.pow10 q - inject_Z c0 == (v - inject_Z c0 * Js.pow10 q) / Js.pow10 q)%Q).
  { field. lra. }
  destruct (Js.readsBack m e (inject_Z c0 * Js.pow10 q)) eqn:E0,
           (Js.readsBack m e (inject_Z (c0 + 1) * Js.pow10 q)) eqn:E1;
    try discriminate.
  - (* both are read back: the closer one is chosen *)
    assert (Hcmp : forall c', (Qabs (inject_Z c0 * Js.pow10 q - v)
                               <= Qabs (inject_Z (c0 + 1) * Js.pow10 q - v))%Q ->
                              (Qabs (inject_Z c0 * Js.pow10 q - v)
                               <= Qabs (inject_Z c' * Js.pow10 q - v))%Q).
    { intros c' H. destruct (Z.le_gt_cases c' c0) as [Hle | Hgt]; [now apply Hbelow |].
      eapply Qle_trans; [exact H | apply Habove; lia]. }
    assert (Hcmp' : forall c', (Qabs (inject_Z (c0 + 1) * Js.pow10 q - v)
                                <= Qabs (inject_Z c0 * Js.pow10 q - v))%Q ->
                               (Qabs (inject_Z (c0 + 1) * Js.pow10 q - v)
                                <= Qabs (inject_Z c' * Js.pow10 q - v))%Q).
    { intros c' H. destruct (Z.le_gt_cases c' c0) as [Hle | Hgt]; [| apply Habove; lia].
      eapply Qle_trans; [exact H | now apply Hbelow]. }
    assert (Hd0 : (Qabs (inject_Z c0 * Js.pow10 q - v) == v - inject_Z c0 * Js.pow10 q)%Q).
    { rewrite Qabs_neg by lra. ring. }
    assert (Hd1 : (Qabs (inject_Z (c0 + 1) * Js.pow10 q - v)
                   == inject_Z c0 * Js.pow10 q + Js.pow10 q - v)%Q).
    { rewrite Qabs_pos by lra. rewrite Hnext. ring. }
    set (r := (v - inject_Z c0 * Js.pow10 q)%Q) in *.
    assert (Hr : (v / Js.pow10 q - inject_Z c0 == r / Js.pow10 q)%Q) by exact Hfrac.
    destruct (v / Js.pow10 q - inject_Z c0 ?= 1 # 2)%Q eqn:Ecmp.
    + apply Qeq_alt in Ecmp. rewrite Hr in Ecmp.
      assert (Er : (r == (1 # 2) * Js.pow10 q)%Q).
      { rewrite <- Ecmp. field. lra. }
      destruct (Z.even c0); intros [= <-] c' _;
        [apply Hcmp | apply Hcmp']; rewrite Hd0, Hd1; subst r; lra.
    + apply Qlt_alt in Ecmp. rewrite Hr in Ecmp.
      assert (Er : (r < (1 # 2) * Js.pow10 q)%Q).
      { apply (Qmult_lt_compat_r _ _ (Js.pow10 q) HP) in Ecmp.
        assert (E' : (r / Js.pow10 q * Js.pow10 q == r)%Q) by (field; lra).
        rewrite E' in Ecmp. exact Ecmp. }
      intros [= <-] c' _. apply Hcmp. rewrite Hd0, Hd1. subst r. lra.
    + apply Qgt_alt in Ecmp. rewrite Hr in Ecmp.
      assert (Er : ((1 # 2) * Js.pow10 q < r)%Q).
      { apply (Qmult_lt_compat_r _ _ (Js.pow10 q) HP) in Ecmp.
        assert (E' : (r / Js.pow10 q * Js.pow10 q == r)%Q) by (field; lra).
        rewrite E' in Ecmp. exact Ecmp. }
      intros [= <-] c' _. apply Hcmp'. rewrite Hd0, Hd1. subst r. lra.
  - (* only the lower one *)
    intros [= <-] c' Hc. destruct (Z.le_gt_cases c' c0) as [Hle | Hgt]; [now apply Hbelow |].
    exfalso.
    rewrite (readsBack_convex m e _ (inject_Z (c0 + 1) * Js.pow10 q) _ Hself Hc) in E1;
      [discriminate |].
    split; [apply Qlt_le_weak; exact Hhi | apply multiples_ordered; [exact HP | lia]].
  - (* only the upper one *)
    intros [= <-] c' Hc. destruct (Z.le_gt_cases c' c0) as [Hle | Hgt]; [| apply Habove; lia].
    exfalso.
    rewrite (readsBack_convex m e _ (inject_Z c0 * Js.pow10 q) _ Hc Hself) in E0;
      [discriminate |].
    split; [apply multiples_ordered; [exact HP | exact Hle] | exact Hlo].
Qed.

Lemma pow10_le (a b : Z) : a <= b -> (Js.pow10 a <= Js.pow10 b)%Q.
Proof.
  intros Hab. replace b with (a + (b - a)) by lia.
  rewrite pow10_add, (pow10_nonneg (b - a)) by lia.
  rewrite <- (Qmult_1_r (Js.pow10 a)) at 1.
  apply Qmult_le_l; [apply pow10_pos |].
  change 1%Q with (inject_Z 1). rewrite <- Zle_Qle.
  assert (0 < 10 ^ (b - a)) by (apply Z.pow_pos_nonneg; lia). lia.
Qed.

(** Where the powers of ten are finer than the numbers, a multiple is
    read back. *)
Lemma closestMultiple_fine (m : positive) (e q : Z) :
  (Js.pow10 q <= pow2 (e - 1))%Q -> Js.closestMultiple m e q <> None.
Proof.
  intros Hfine. unfold Js.closestMultiple. cbv zeta.
  pose proof (pow10_pos q) as HP.
  pose proof (floor_bracket (Js.dyadic (Z.pos m) e) (Js.pow10 q) HP) as [Hlo Hhi].
  destruct (midpoints m e) as (Hl1 & Hh & Hl2 & Hq).
  pose proof (pow2_pos (e - 2)) as Hpos.
  set (v := Js.dyadic (Z.pos m) e) in *.
  set (c0 := Qfloor (v / Js.pow10 q)) in *.
  assert (Hnext : (inject_Z (c0 + 1) * Js.pow10 q == inject_Z c0 * Js.pow10 q + Js.pow10 q)%Q).
  { rewrite inject_Z_plus. change (inject_Z 1) with 1%Q. ring. }
  assert (Hsome : Js.readsBack m e (inject_Z c0 * Js.pow10 q) = true
                  \/ Js.readsBack m e (inject_Z (c0 + 1) * Js.pow10 q) = true).
  { destruct (Qlt_le_dec (v - pow2 (e - 2)) (inject_Z c0 * Js.pow10 q)) as [Hin | Hout].
    - left. apply readsBack_bounds. cbv zeta.
      destruct ((Z.pos m =? 2 ^ 52) && (-1074 <? e)), (Z.even (Z.pos m)); lra.
    - right. apply readsBack_bounds. cbv zeta.
      destruct ((Z.pos m =? 2 ^ 52) && (-1074 <? e)), (Z.even (Z.pos m)); lra. }
  destruct (Js.readsBack m e (inject_Z c0 * Js.pow10 q)),
           (Js.readsBack m e (inject_Z (c0 + 1) * Js.pow10 q));
    try discriminate.
  - destruct (v / Js.pow10 q - inject_Z c0 ?= 1 # 2)%Q;
      [destruct (Z.even c0) |..]; discriminate.
  - destruct Hsome; discriminate.
Qed.

Lemma shortestFrom_found (m : positive) (e : Z) (fuel : nat) :
  forall q j,
    (j < fuel)%nat -> Js.closestMultiple m e (q - Z.of_nat j) <> None ->
    exists c q',
      Js.shortestFrom fuel q m e = (c, q')
      /\ Js.closestMultiple m e q' = Some c
      /\ q' <= q
      /\ forall q'', q' < q'' <= q -> Js.closestMultiple m e q'' = None.
Proof.
  induction fuel as [| fuel IH]; intros q j Hj Hfound; [lia |].
  cbn [Js.shortestFrom].
  destruct (Js.closestMultiple m e q) as [c |] eqn:E.
  - exists c, q. repeat split; try assumption; try lia.
  - destruct j as [| j].
    + exfalso. apply Hfound. rewrite <- E. f_equal. simpl. lia.
    + destruct (IH (q - 1) j ltac:(lia)) as (c & q' & Hs & Hc & Hle & Hnone).
      { replace (q - 1 - Z.of_nat j) with (q - Z.of_nat (S j)) by lia. exact Hfound. }
      exists c, q'. split; [exact Hs |]. split; [exact Hc |]. split; [lia |].
      intros q'' Hq''. destruct (Z.eq_dec q'' q) as [-> | Hne]; [exact E |].
      apply Hnone. lia.
Qed.

(** The numeral of a number.  It is read back as the number; no decimal
    that ends at a higher digit position is; and of the decimals that
    end at its last digit position and are read back as the number, it is
    the closest to the number. *)
Lemma shortestDecimal_fewest (x : number) (s : bool) (m : positive) (e : Z) :
  Prim2SF x = S754_finite s m e ->
  let (c, q) := Js.shortestDecimal m e in
  Js.readsBack m e (inject_Z c * Js.pow10 q) = true
  /\ (forall c' q', q < q' -> Js.readsBack m e (inject_Z c' * Js.pow10 q') = false)
  /\ (forall c', Js.readsBack m e (inject_Z c' * Js.pow10 q) = true ->
                 (Qabs (inject_Z c * Js.pow10 q - SFvalue false m e)
                  <= Qabs (inject_Z c' * Js.pow10 q - SFvalue false m e))%Q).
Proof.
  intros Hx. destruct (finite_mantissa_bound x s m e Hx) as [Hd He].
  destruct (exponentAbove_spec m e Hd He) as [Habove Hfine].
  destruct (shortestFrom_found m e 25 (Js.exponentAbove m e) 24 ltac:(lia)) as
    (c & q & Hs & Hc & Hle & Hnone).
  { apply closestMultiple_fine. exact Hfine. }
  unfold Js.shortestDecimal. rewrite Hs.
  split; [apply (closestMultiple_sound _ _ _ _ Hc) |]. split.
  - intros c' q' Hq'. destruct (Z.le_gt_cases q' (Js.exponentAbove m e)) as [Hin | Hout].
    + apply closestMultiple_none, Hnone. lia.
    + apply readsBack_false.
      destruct (Z.le_gt_cases c' 0) as [Hneg | Hpos].
      * left. pose proof (pow10_pos q') as HP.
        assert (inject_Z c' <= 0)%Q by (change 0%Q with (inject_Z 0); rewrite <- Zle_Qle; lia).
        nra.
      * right. pose proof (pow10_le (Js.exponentAbove m e) q' ltac:(lia)) as Hmono.
        pose proof (pow10_pos (Js.exponentAbove m e)) as HP.
        assert (1 <= inject_Z c')%Q by (change 1%Q with (inject_Z 1); rewrite <- Zle_Qle; lia).
        nra.
  - intros c' Hc'. rewrite <- dyadic_SFvalue. apply (closestMultiple_closest _ _ _ _ Hc _ Hc').
Qed.

(** *** What [toLocaleString] prints *)

(** An integer-valued number is printed as an integer that is read back
    as the number, and as its own value when the number is below
    [2^53]. *)
Lemma toLocaleString_integer (y : number) (s : bool) (m : positive) (e : Z) (p : positive) :
  Prim2SF y = S754_finite s m e ->
  (SFvalue false m e == inject_Z (Z.pos p))%Q ->
  exists N,
    Js.toLocaleString 0 3 y
    = string_of_list_ascii (Js.signPrefix s ++ Js.groupThousands (Js.decimal (Z.to_N N)))
    /\ 0 <= N
    /\ (inject_Z N == printedMagnitude y)%Q
    /\ (Qabs (inject_Z N - inject_Z (Z.pos p)) <= pow2 (e - 1))%Q
    /\ (e <= 0 -> N = Z.pos p).
Proof.
  intros Hy Hv. destruct (finite_mantissa_bound y s m e Hy) as [Hd _].
  pose proof (shortestDecimal_integer m e p Hd Hv) as H.
  unfold Js.toLocaleString, printedMagnitude. rewrite Hy.
  destruct (Js.shortestDecimal m e) as [c q]. destruct H as (Hq & Hc & Hnear & Heq).
  assert (H10 : 0 < 10 ^ q) by (apply Z.pow_pos_nonneg; lia).
  exists (c * 10 ^ q). change (Z.of_nat 3) with 3.
  rewrite roundDecimal_integer, formatFixed_integer by nia.
  split; [reflexivity |]. split; [nia |].
  split; [rewrite pow10_nonneg, inject_Z_mult by assumption; reflexivity |].
  split; assumption.
Qed.

Lemma exponent_of_small (y : number) (s : bool) (m : positive) (e : Z) :
  Prim2SF y = S754_finite s m e -> 0 <= e -> Z.pos m * 2 ^ e < 2 ^ 53 -> e = 0.
Proof.
  intros Hy He Hlt. pose proof (Prim2SF_valid y) as Hv. rewrite Hy in Hv.
  unfold valid_binary, bounded, canonical_mantissa in Hv.
  apply andb_prop in Hv. destruct Hv as [Hcan _]. apply Z.eqb_eq in Hcan.
  unfold fexp, SpecFloat.emin, prec, emax in Hcan.
  assert (Hdig : Z.pos (digits2_pos m) = 53) by lia.
  pose proof (digits2_bounds m) as [Hlo _]. rewrite Hdig in Hlo. change (53 - 1) with 52 in Hlo.
  destruct (Z.eq_dec e 0) as [E | N]; [exact E | exfalso].
  assert (2 ^ 1 <= 2 ^ e) by (apply Z.pow_le_mono_r; lia).
  change (2 ^ 1) with 2 in *. change (2 ^ 52) with 4503599627370496 in *.
  change (2 ^ 53) with 9007199254740992 in *. nia.
Qed.

(** The rounded number, printed without fraction digits. *)
Lemma toLocaleString_rounded (x : number) :
  Js.isFinite x = true ->
  exists N,
    Js.toLocaleString 0 3 (Js.Math_round x)
    = string_of_list_ascii
        (Js.signPrefix (signBit x) ++ Js.groupThousands (Js.decimal (Z.to_N N)))
    /\ 0 <= N
    /\ (inject_Z N == printedMagnitude (Js.Math_round x))%Q
    /\ (2 * Qabs (inject_Z N - inject_Z (Z.abs (roundedZ x))) <= ulp (Js.Math_round x))%Q
    /\ (Z.abs (roundedZ x) < 2 ^ 53 -> N = Z.abs (roundedZ x)).
Proof.
  intros Hfin. destruct (isFinite_cases x Hfin) as [(s & Hx) | (s & m & e & Hx)].
  - exists 0. rewrite (roundedZ_zero x s Hx).
    unfold Js.toLocaleString, Js.Math_round, signBit, ulp, printedMagnitude. rewrite Hx, Hx.
    repeat split; try reflexivity. discriminate.
  - rewrite (roundedZ_finite x s m e Hx). unfold signBit. rewrite Hx.
    destruct (Z.ltb_spec e 0) as [He | He].
    + pose proof (Math_round_repr x s m e Hx He) as Hrepr.
      destruct (finite_mantissa_bound x s m e Hx) as [Hd _].
      destruct (roundHalfUp_bound s m e Hd He) as (Hr & _).
      destruct (Js.roundHalfUp s m e 1) as [| p | p] eqn:Er.
      * exists 0. unfold Js.toLocaleString, ulp, printedMagnitude. rewrite Hrepr.
        repeat split; try reflexivity. discriminate.
      * assert (Hp : Z.pos (digits2_pos p) <= 53) by (apply digits_of_small; lia).
        destruct (toLocaleString_integer _ _ _ _ p Hrepr (SFvalue_canonical false p Hp))
          as (N & Hout & HN & Hprinted & _ & Heq).
        exists N. rewrite (Heq ltac:(lia)) in *.
        split; [exact Hout |]. split; [lia |]. split; [exact Hprinted |].
        split; [| reflexivity].
        unfold ulp. rewrite Hrepr. cbn [Z.abs]. unfold Qminus. rewrite Qplus_opp_r.
        pose proof (pow2_pos (Z.pos (digits2_pos p) - 53)). cbn [Qabs Qnum Z.abs]. lra.
      * assert (Hp : Z.pos (digits2_pos p) <= 53) by (apply digits_of_small; lia).
        destruct (toLocaleString_integer _ _ _ _ p Hrepr (SFvalue_canonical false p Hp))
          as (N & Hout & HN & Hprinted & _ & Heq).
        exists N. rewrite (Heq ltac:(lia)) in *.
        split; [exact Hout |]. split; [lia |]. split; [exact Hprinted |].
        split; [| reflexivity].
        unfold ulp. rewrite Hrepr. cbn [Z.abs]. unfold Qminus. rewrite Qplus_opp_r.
        pose proof (pow2_pos (Z.pos (digits2_pos p) - 53)). cbn [Qabs Qnum Z.abs]. lra.
    + assert (Hround : Js.Math_round x = x).
      { unfold Js.Math_round. rewrite Hx.
        replace (0 <=? e) with true by (symmetry; apply Z.leb_le; lia). reflexivity. }
      rewrite Hround.
      assert (Hpow : 0 < 2 ^ e) by (apply Z.pow_pos_nonneg; lia).
      assert (Hval : Z.abs (Js.roundHalfUp s m e 1) = Z.pos m * 2 ^ e).
      { unfold Js.roundHalfUp.
        replace (0 <=? e) with true by (symmetry; apply Z.leb_le; lia).
        destruct s; nia. }
      rewrite Hval.
      assert (Hp : Z.pos m * 2 ^ e = Z.pos (Z.to_pos (Z.pos m * 2 ^ e))).
      { rewrite Z2Pos.id; nia. }
      assert (Hv : (SFvalue false m e == inject_Z (Z.pos (Z.to_pos (Z.pos m * 2 ^ e))))%Q).
      { rewrite <- Hp. unfold SFvalue.
        replace (0 <=? e) with true by (symmetry; apply Z.leb_le; lia). reflexivity. }
      destruct (toLocaleString_integer x s m e _ Hx Hv)
        as (N & Hout & HN & Hprinted & Hnear & Heq).
      rewrite <- Hp in Hnear, Heq.
      exists N. split; [exact Hout |]. split; [exact HN |]. split; [exact Hprinted |]. split.
      * unfold ulp. rewrite Hx. rewrite (pow2_half e). lra.
      * intros Hsmall. apply Heq.
        rewrite (exponent_of_small x s m e Hx He Hsmall). lia.
Qed.

Lemma SFvalue_abs (s : bool) (m : positive) (e : Z) :
  Qabs (SFvalue s m e) = SFvalue false m e.
Proof.
  unfold SFvalue. destruct (0 <=? e) eqn:E.
  - apply Z.leb_le in E. assert (0 < 2 ^ e) by (apply Z.pow_pos_nonneg; lia).
    unfold Qabs, inject_Z. f_equal. destruct s; lia.
  - unfold Qabs. f_equal. destruct s; reflexivity.
Qed.

Lemma toLocaleString_fixed2 (x : number) :
  Js.isFinite x = true ->
  Js.toLocaleString 2 2 x
  = string_of_list_ascii
      (Js.signPrefix (signBit x)
       ++ Js.groupThousands (Js.decimal (Z.to_N (scaledMagnitude x / 100)))
       ++ "."%char :: [Js.digitChar ((scaledMagnitude x mod 100) / 10 mod 10);
                       Js.digitChar ((scaledMagnitude x mod 100) mod 10)]).
Proof.
  intros Hfin. unfold Js.toLocaleString, signBit, scaledMagnitude, printedMagnitude.
  destruct (isFinite_cases x Hfin) as [(s & Hx) | (s & m & e & Hx)]; rewrite Hx.
  - reflexivity.
  - destruct (Js.shortestDecimal m e) as [c q].
    change (Z.of_nat 2) with 2. rewrite formatFixed_two, roundDecimal_Qfloor.
    assert (E : Qfloor (inject_Z c * Js.pow10 (q + 2) + (1 # 2))
                = Qfloor (inject_Z c * Js.pow10 q * inject_Z 100 + (1 # 2))).
    { apply Qfloor_comp. rewrite pow10_add.
      change (Js.pow10 2) with (inject_Z 100). ring. }
    rewrite E. reflexivity.
Qed.

(** The numeral of a finite number lies within half a unit in the last
    place of the number. *)
Lemma printedMagnitude_near (x : number) :
  (2 * Qabs (printedMagnitude x - Qabs (exactValue x)) <= ulp x)%Q.
Proof.
  unfold printedMagnitude, exactValue, ulp.
  destruct (Prim2SF x) as [s | s | | s m e]; try (cbn; lra).
  rewrite SFvalue_abs. pose proof (shortestDecimal_near m e) as H.
  destruct (Js.shortestDecimal m e) as [c q]. cbn [fst snd] in H.
  rewrite (pow2_half e). lra.
Qed.

Lemma printedMagnitude_nonneg (x : number) : (0 <= printedMagnitude x)%Q.
Proof.
  unfold printedMagnitude.
  destruct (Prim2SF x) as [s | s | | s m e]; try apply Qle_refl.
  pose proof (readsBack_near m e _ (shortestFrom_sound m e 25 (Js.exponentAbove m e))) as [H _].
  fold (Js.shortestDecimal m e) in H.
  destruct (Js.shortestDecimal m e) as [c q]. cbn [fst snd] in H.
  assert (Hhalf : (pow2 (e - 1) < Js.dyadic (Z.pos m) e)%Q).
  { rewrite dyadic_pow2, (pow2_half e).
    pose proof (pow2_pos (e - 1)) as Hp.
    assert (1 <= inject_Z (Z.pos m))%Q
      by (change 1%Q with (inject_Z 1); rewrite <- Zle_Qle; lia).
    nra. }
  lra.
Qed.

Lemma endsInTwoDecimals_shape (pre : list ascii) (a b : Z) :
  0 <= a <= 9 -> 0 <= b <= 9 ->
  endsInTwoDecimals
    (string_of_list_ascii (pre ++ "."%char :: [Js.digitChar a; Js.digitChar b])) = true.
Proof.
  intros Ha Hb. unfold endsInTwoDecimals.
  rewrite list_ascii_of_string_of_list_ascii, rev_app_distr. simpl.
  rewrite (digitChar_isDigit a Ha), (digitChar_isDigit b Hb). reflexivity.
Qed.

Lemma grouped_decimal (n : N) :
  Grouped (Js.decimal n) (Js.groupThousands (Js.decimal n))
  /\ ~ In "."%char (Js.groupThousands (Js.decimal n)).
Proof.
  assert (G := groupThousands_Grouped (Js.decimal n) (decimal_nonempty n)).
  split; [exact G |]. intros Hin.
  destruct (Grouped_chars _ _ G _ Hin) as [E | Hd]; [discriminate |].
  pose proof (decimal_digits n) as Hall. rewrite Forall_forall in Hall.
  specialize (Hall _ Hd). discriminate.
Qed.

(** C3 (amended to finite numbers).  For every finite number [num]:
    [Math.round num] is the integer nearest to [num], ties going up; the
    formatter treats [num] as whole exactly when
    [|num - Math.round num| < 0.0001], computed in binary64.  A whole
    number is rendered as the sign, if negative, followed by the digits
    of an integer [N] grouped by commas in threes, with no decimal
    point; [N] is the numeral of the rounded number: the rounded integer
    itself when that is below [2^53], and in general an integer within
    half a unit in the last place of it.  Any other number is rendered
    as the sign, the grouped digits of the integer part, a decimal point
    and exactly two digits, the three together being the numeral of the
    number (which lies within half a unit in the last place of it)
    rounded to hundredths, ties away from zero. *)
Theorem formatNumber_finite (num : number) :
  Js.isFinite num = true ->
  (exactValue (Js.Math_round num) == inject_Z (roundedZ num))%Q
  /\ isWholeNumber num = (Js.Math_abs (num - Js.Math_round num) <? 0.0001)%float
  /\ (isWholeNumber num = true ->
      exists body N,
        formatNumber num = string_of_list_ascii (Js.signPrefix (signBit num) ++ body)
        /\ Grouped (Js.decimal (Z.to_N N)) body
        /\ ~ In "."%char body
        /\ 0 <= N
        /\ (inject_Z N == printedMagnitude (Js.Math_round num))%Q
        /\ (2 * Qabs (inject_Z N - inject_Z (Z.abs (roundedZ num)))
            <= ulp (Js.Math_round num))%Q
        /\ (Z.abs (roundedZ num) < 2 ^ 53 -> N = Z.abs (roundedZ num)))
  /\ (isWholeNumber num = false ->
      exists body units tenths hundredths,
        formatNumber num
        = string_of_list_ascii
            (Js.signPrefix (signBit num) ++ body
             ++ "."%char :: [Js.digitChar tenths; Js.digitChar hundredths])
        /\ endsInTwoDecimals (formatNumber num) = true
        /\ Grouped (Js.decimal (Z.to_N units)) body
        /\ ~ In "."%char body
        /\ 0 <= units /\ 0 <= tenths <= 9 /\ 0 <= hundredths <= 9
        /\ 100 * units + 10 * tenths + hundredths
           = Qfloor (printedMagnitude num * inject_Z 100 + (1 # 2))
        /\ (2 * Qabs (printedMagnitude num - Qabs (exactValue num)) <= ulp num)%Q).
Proof.
  intros Hfin. split; [apply Math_round_value, Hfin |]. split; [reflexivity |].
  split; intros Hwhole.
  - unfold formatNumber. rewrite Hwhole.
    destruct (toLocaleString_rounded num Hfin) as (N & Hout & HN & Hprinted & Hnear & Heq).
    exists (Js.groupThousands (Js.decimal (Z.to_N N))), N.
    split; [exact Hout |]. destruct (grouped_decimal (Z.to_N N)) as [G Hdot].
    repeat split; assumption.
  - fold (scaledMagnitude num). set (n := scaledMagnitude num).
    assert (Hn : 0 <= n).
    { subst n. unfold scaledMagnitude.
      rewrite <- (Qfloor_Z 0). apply Qfloor_resp_le.
      pose proof (printedMagnitude_nonneg num) as H0.
      change (inject_Z 0) with 0%Q. change (inject_Z 100) with 100%Q. lra. }
    exists (Js.groupThousands (Js.decimal (Z.to_N (n / 100)))),
           (n / 100), ((n mod 100) / 10 mod 10), ((n mod 100) mod 10).
    assert (Hout : formatNumber num
                   = string_of_list_ascii
                       (Js.signPrefix (signBit num)
                        ++ Js.groupThousands (Js.decimal (Z.to_N (n / 100)))
                        ++ "."%char :: [Js.digitChar ((n mod 100) / 10 mod 10);
                                        Js.digitChar ((n mod 100) mod 10)])).
    { unfold formatNumber. rewrite Hwhole. apply toLocaleString_fixed2, Hfin. }
    split; [exact Hout |].
    destruct (grouped_decimal (Z.to_N (n / 100))) as [G Hdot].
    pose proof (Z.mod_pos_bound n 100 ltac:(lia)) as Hf.
    pose proof (Z.div_mod n 100 ltac:(lia)) as Hdm.
    pose proof (Z.div_mod (n mod 100) 10 ltac:(lia)) as Hdm'.
    assert (0 <= n / 100) by (apply Z.div_pos; lia).
    assert (0 <= n mod 100 / 10 < 10).
    { split; [apply Z.div_pos; lia | apply Z.div_lt_upper_bound; lia]. }
    pose proof (Z.mod_pos_bound (n mod 100) 10 ltac:(lia)).
    split.
    { rewrite Hout, app_assoc. apply endsInTwoDecimals_shape; [| lia].
      rewrite Z.mod_small; lia. }
    rewrite (Z.mod_small (n mod 100 / 10) 10) by lia.
    repeat split; try assumption; try lia.
    apply printedMagnitude_near.
Qed.

Lemma formatNumber_finite_witness :
  (exactValue (Js.Math_round 10.999%float) == inject_Z (roundedZ 10.999%float))%Q
  /\ isWholeNumber 10.999%float
     = (Js.Math_abs (10.999 - Js.Math_round 10.999) <? 0.0001)%float
  /\ (isWholeNumber 10.999%float = true ->
      exists body N,
        formatNumber 10.999%float
        = string_of_list_ascii (Js.signPrefix (signBit 10.999%float) ++ body)
        /\ Grouped (Js.decimal (Z.to_N N)) body
        /\ ~ In "."%char body
        /\ 0 <= N
        /\ (inject_Z N == printedMagnitude (Js.Math_round 10.999%float))%Q
        /\ (2 * Qabs (inject_Z N - inject_Z (Z.abs (roundedZ 10.999%float)))
            <= ulp (Js.Math_round 10.999%float))%Q
        /\ (Z.abs (roundedZ 10.999%float) < 2 ^ 53 -> N = Z.abs (roundedZ 10.999%float)))
  /\ (isWholeNumber 10.999%float = false ->
      exists body units tenths hundredths,
        formatNumber 10.999%float
        = string_of_list_ascii
            (Js.signPrefix (signBit 10.999%float) ++ body
             ++ "."%char :: [Js.digitChar tenths; Js.digitChar hundredths])
        /\ endsInTwoDecimals (formatNumber 10.999%float) = true
        /\ Grouped (Js.decimal (Z.to_N units)) body
        /\ ~ In "."%char body
        /\ 0 <= units /\ 0 <= tenths <= 9 /\ 0 <= hundredths <= 9
        /\ 100 * units + 10 * tenths + hundredths
           = Qfloor (printedMagnitude 10.999%float * inject_Z 100 + (1 # 2))
        /\ (2 * Qabs (printedMagnitude 10.999%float - Qabs (exactValue 10.999%float))
            <= ulp 10.999%float)%Q).
Proof.
  apply (formatNumber_finite 10.999%float).
  reflexivity.
Defined.

(** The formatter on the numbers of the specification's scenarios. *)
Example formatNumber_scenarios :
  map formatNumber [5; 1000; -1000; 3.14159; 10.999; 0.001; 1234567.891]%float
  = ["5"; "1,000"; "-1,000"; "3.14"; "11.00"; "0.00"; "1,234,567.89"]%string
  /\ map isWholeNumber [5; 1000; -1000; 3.14159; 10.999; 0.001; 1234567.891]%float
     = [true; true; true; false; false; false; false].
Proof. split; vm_compute; reflexivity. Qed.

(** Numerals, not binary values, are rounded: 1.005 is the number
    1.00499999999999989..., and is printed as 1.01; the number written
    1e23 is 99999999999999991611392, and is printed as 1 followed by 23
    zeros. *)
Example formatNumber_numerals :
  map formatNumber [1.005; 3.175; 8.345; 1.15; 0.125; 2.675; -1.005; 1e21; 1e23]%float
  = ["1.01"; "3.18"; "8.35"; "1.15"; "0.13"; "2.68"; "-1.01";
     "1,000,000,000,000,000,000,000"; "100,000,000,000,000,000,000,000"]%string
  /\ roundedZ 1e23%float = 99999999999999991611392
  /\ map (fun x => match Prim2SF x with
                   | S754_finite _ m e => Js.shortestDecimal m e
                   | _ => (0, 0)
                   end)
         [0.1; 0.3; 1.005; 123456.7; 4.35; 1e23; 9007199254740993; 5e-324;
          2.2250738585072014e-308; 1.7976931348623157e308]%float
     = [(1, -1); (3, -1); (1005, -3); (1234567, -1); (435, -2); (1, 23);
        (9007199254740992, 0); (5, -324); (22250738585072014, -324);
        (17976931348623157, 292)].
Proof.
  split; [vm_compute; reflexivity |]. split; vm_compute; reflexivity.
Qed.

(** One and a quarter inches are 3.175 centimeters, printed as 3.18. *)
Example inch_to_centimeter :
  option_map
    (fun l => map value (filter (fun r => String.eqb (unitId r) "centimeter") l))
    (match convertLength 1.25%float "inch" with Return l => Some l | Throw _ => None end)
  = Some ["3.18"%string].
Proof. vm_compute. reflexivity. Qed.

(** C3 as stated for every number fails on NaN and on the infinities:
    they are not whole (the difference with their rounding is NaN, which
    is not below 0.0001), and their rendering is "NaN", "∞" or "-∞", not
    a numeral with two decimals. *)
Lemma formatNumber_not_finite :
  isWholeNumber nan = false
  /\ formatNumber nan = "NaN"%string
  /\ endsInTwoDecimals (formatNumber nan) = false
  /\ isWholeNumber infinity = false
  /\ formatNumber infinity = "∞"%string
  /\ endsInTwoDecimals (formatNumber infinity) = false
  /\ isWholeNumber neg_infinity = false
  /\ formatNumber neg_infinity = "-∞"%string
  /\ endsInTwoDecimals (formatNumber neg_infinity) = false
  /\ endsInTwoDecimals (formatNumber 3.14159%float) = true.
Proof. repeat split; vm_compute; reflexivity. Qed.

(* ================================================================= *)
(** ** Round trips through the base unit *)

Lemma SFvalue_positive (m : positive) (e : Z) : (0 < SFvalue false m e)%Q.
Proof.
  rewrite magnitude_pow2.
  apply Qmult_lt_0_compat; [| apply pow2_pos].
  change 0%Q with (inject_Z 0). rewrite <- Zlt_Qlt. lia.
Qed.

(** Two roundings in a row, each within [2^-52], stay within 1e-9. *)
Lemma chain_mul_div (a c y z : Q) :
  (0 < a)%Q -> (0 < c)%Q ->
  (Qabs (y - a * c) <= (1 # 4503599627370496) * (a * c))%Q ->
  (Qabs (z - y / c) <= (1 # 4503599627370496) * (y / c))%Q ->
  (Qabs (z - a) <= (1 # 1000000000) * a)%Q.
Proof.
  intros Ha Hc Hy Hz.
  apply Qabs_Qle_condition in Hy. apply Qabs_Qle_condition in Hz.
  apply Qabs_Qle_condition.
  set (w := (y / c)%Q) in *.
  assert (Hw : (y == w * c)%Q).
  { subst w. field. intros E0. rewrite E0 in Hc. exact (Qlt_irrefl 0 Hc). }
  rewrite Hw in Hy. destruct Hy as [Hy1 Hy2]. destruct Hz as [Hz1 Hz2].
  assert (Hw1 : (w - a <= (1 # 4503599627370496) * a)%Q).
  { apply (Qmult_le_r _ _ c Hc). lra. }
  assert (Hw2 : (- ((1 # 4503599627370496) * a) <= w - a)%Q).
  { apply (Qmult_le_r _ _ c Hc). lra. }
  split; lra.
Qed.

Lemma chain_div_mul (a c y z : Q) :
  (0 < a)%Q -> (0 < c)%Q ->
  (Qabs (y - a / c) <= (1 # 4503599627370496) * (a / c))%Q ->
  (Qabs (z - y * c) <= (1 # 4503599627370496) * (y * c))%Q ->
  (Qabs (z - a) <= (1 # 1000000000) * a)%Q.
Proof.
  intros Ha Hc Hy Hz.
  apply Qabs_Qle_condition in Hy. apply Qabs_Qle_condition in Hz.
  apply Qabs_Qle_condition.
  set (w := (a / c)%Q) in *.
  assert (Hw : (a == w * c)%Q).
  { subst w. field. intros E0. rewrite E0 in Hc. exact (Qlt_irrefl 0 Hc). }
  set (u := (y * c)%Q) in *.
  destruct Hy as [Hy1 Hy2]. destruct Hz as [Hz1 Hz2].
  assert (Hu1 : (u - a <= (1 # 4503599627370496) * a)%Q).
  { rewrite Hw. subst u.
    setoid_replace (y * c - w * c)%Q with ((y - w) * c)%Q by ring.
    setoid_replace ((1 # 4503599627370496) * (w * c))%Q
      with (((1 # 4503599627370496) * w) * c)%Q by ring.
    apply Qmult_le_compat_r; [exact Hy2 | apply Qlt_le_weak, Hc]. }
  assert (Hu2 : (- ((1 # 4503599627370496) * a) <= u - a)%Q).
  { rewrite Hw. subst u.
    setoid_replace (y * c - w * c)%Q with ((y - w) * c)%Q by ring.
    setoid_replace (- ((1 # 4503599627370496) * (w * c)))%Q
      with ((- ((1 # 4503599627370496) * w)) * c)%Q by ring.
    apply Qmult_le_compat_r; [exact Hy1 | apply Qlt_le_weak, Hc]. }
  split; lra.
Qed.

Lemma isFinite_finite (x : number) (s : bool) (m : positive) (e : Z) :
  Prim2SF x = S754_finite s m e -> Js.isFinite x = true.
Proof.
  intros Hx. unfold Js.isFinite, is_nan, is_infinity.
  rewrite !eqb_spec, abs_spec, Hx.
  change (Prim2SF infinity) with (S754_infinity false).
  unfold SFeqb, SFcompare, SFabs.
  rewrite Z.compare_refl, Pos.compare_cont_refl.
  destruct s; reflexivity.
Qed.

Lemma isFinite_zero (x : number) (s : bool) :
  Prim2SF x = S754_zero s -> Js.isFinite x = true.
Proof.
  intros Hx. unfold Js.isFinite, is_nan, is_infinity.
  rewrite !eqb_spec, abs_spec, Hx. reflexivity.
Qed.

Lemma withinRelative_finite (tol : Q) (z x : number) (s : bool) (mz mx : positive) (ez ex : Z) :
  Prim2SF z = S754_finite s mz ez -> Prim2SF x = S754_finite s mx ex ->
  (Qabs (SFvalue false mz ez - SFvalue false mx ex) <= tol * SFvalue false mx ex)%Q ->
  withinRelative tol z x = true.
Proof.
  intros Hz Hx Hclose. unfold withinRelative.
  rewrite (isFinite_finite z s mz ez Hz), (isFinite_finite x s mx ex Hx).
  unfold exactValue. rewrite Hz, Hx. cbn [andb].
  apply Qle_bool_iff. rewrite SFvalue_abs.
  rewrite (SFvalue_signed s mz ez), (SFvalue_signed s mx ex).
  destruct s; [| exact Hclose].
  setoid_replace (- SFvalue false mz ez - - SFvalue false mx ex)%Q
    with (- (SFvalue false mz ez - SFvalue false mx ex))%Q by ring.
  rewrite Qabs_opp. exact Hclose.
Qed.

Lemma withinRelative_zero (tol : Q) (z x : number) (sz sx : bool) :
  Prim2SF z = S754_zero sz -> Prim2SF x = S754_zero sx ->
  withinRelative tol z x = true.
Proof.
  intros Hz Hx. unfold withinRelative.
  rewrite (isFinite_zero z sz Hz), (isFinite_zero x sx Hx).
  unfold exactValue. rewrite Hz, Hx. cbn [andb].
  apply Qle_bool_iff. rewrite Qmult_0_r. apply Qle_refl.
Qed.

Lemma withinRelative_refl (x : number) :
  Js.isFinite x = true -> withinRelative (1 # 1000000000) x x = true.
Proof.
  intros Hfin. unfold withinRelative. rewrite Hfin. cbn [andb].
  apply Qle_bool_iff.
  setoid_replace (exactValue x - exactValue x)%Q with 0%Q by ring.
  apply Qmult_le_0_compat; [discriminate | apply Qabs_nonneg].
Qed.

Section RoundTrip.
Variables (x c : number) (sx : bool) (mx mc : positive) (ex ec : Z).
Hypothesis Hx : Prim2SF x = S754_finite sx mx ex.
Hypothesis Hdx : Z.pos (digits2_pos mx) = 53.
Hypothesis Hex : -1049 <= ex <= 944.
Hypothesis Hc : Prim2SF c = S754_finite false mc ec.
Hypothesis Hdc : Z.pos (digits2_pos mc) = 53.
Hypothesis Hec : -58 <= ec <= -42.

Lemma roundTrip_mul_div : withinRelative (1 # 1000000000) (x * c / c)%float x = true.
Proof.
  destruct (SFmul_near sx false mx mc ex ec Hdx Hdc ltac:(lia))
    as (my & ey & Hy & Hdy & Hey & Hvy).
  destruct (SFdiv_near (xorb sx false) false my mc ey ec Hdy Hdc ltac:(lia))
    as (mz & ez & Hz & Hdz & Hez & Hvz).
  rewrite !xorb_false_r in *.
  apply (withinRelative_finite _ _ _ sx mz mx ez ex).
  - rewrite div_spec, mul_spec, Hx, Hc, Hy. exact Hz.
  - exact Hx.
  - apply (chain_mul_div _ (SFvalue false mc ec) (SFvalue false my ey));
      auto using SFvalue_positive.
Qed.

Lemma roundTrip_div_mul : withinRelative (1 # 1000000000) (x / c * c)%float x = true.
Proof.
  destruct (SFdiv_near sx false mx mc ex ec Hdx Hdc ltac:(lia))
    as (my & ey & Hy & Hdy & Hey & Hvy).
  destruct (SFmul_near (xorb sx false) false my mc ey ec Hdy Hdc ltac:(lia))
    as (mz & ez & Hz & Hdz & Hez & Hvz).
  rewrite !xorb_false_r in *.
  apply (withinRelative_finite _ _ _ sx mz mx ez ex).
  - rewrite mul_spec, div_spec, Hx, Hc, Hy. exact Hz.
  - exact Hx.
  - apply (chain_div_mul _ (SFvalue false mc ec) (SFvalue false my ey));
      auto using SFvalue_positive.
Qed.
End RoundTrip.

Lemma normal_digits (x : number) (s : bool) (m : positive) (e : Z) :
  Prim2SF x = S754_finite s m e -> -1074 < e -> Z.pos (digits2_pos m) = 53.
Proof.
  intros Hx He. pose proof (Prim2SF_valid x) as Hv. rewrite Hx in Hv.
  unfold valid_binary, bounded, canonical_mantissa in Hv.
  apply andb_prop in Hv. destruct Hv as [Hcan _]. apply Z.eqb_eq in Hcan.
  unfold fexp, SpecFloat.emin, prec, emax in Hcan. lia.
Qed.

Lemma safeRange_cases (x : number) :
  inSafeRange x = true ->
  (exists s, Prim2SF x = S754_zero s)
  \/ (exists s m e,
        Prim2SF x = S754_finite s m e /\ Z.pos (digits2_pos m) = 53 /\ -1049 <= e <= 944).
Proof.
  unfold inSafeRange. rewrite eqb_spec, !leb_spec, abs_spec.
  assert (Hlo : exists m0, Prim2SF 1e-300%float = S754_finite false m0 (-1049))
    by (eexists; vm_compute; reflexivity).
  assert (Hhi : exists m1, Prim2SF 1e300%float = S754_finite false m1 944)
    by (eexists; vm_compute; reflexivity).
  destruct Hlo as (m0 & ->). destruct Hhi as (m1 & ->).
  change (Prim2SF 0%float) with (S754_zero false).
  destruct (Prim2SF x) as [s | s | | s m e] eqn:Hx.
  - intros _. left. now exists s.
  - destruct s; discriminate.
  - discriminate.
  - intros H. right. exists s, m, e. cbn [SFabs] in H.
    assert (Hne : SFeqb (S754_finite s m e) (S754_zero false) = false)
      by (destruct s; reflexivity).
    rewrite Hne in H. cbn [orb] in H. apply andb_prop in H. destruct H as [H1 H2].
    unfold SFleb, SFcompare in H1, H2.
    assert (He : -1049 <= e <= 944).
    { destruct (Z.compare_spec (-1049) e); destruct (Z.compare_spec e 944);
        try lia; discriminate. }
    split; [reflexivity |]. split; [| exact He].
    apply (normal_digits x s m e Hx). lia.
Qed.

Lemma goodFactor_cases (c : number) :
  goodFactor c = true ->
  exists mc ec,
    Prim2SF c = S754_finite false mc ec /\ Z.pos (digits2_pos mc) = 53 /\ -58 <= ec <= -42.
Proof.
  unfold goodFactor. destruct (Prim2SF c) as [| | | [] m e]; try discriminate.
  intros H. apply andb_prop in H. destruct H as [H H3].
  apply andb_prop in H. destruct H as [H1 H2].
  exists m, e. split; [reflexivity |].
  apply Z.eqb_eq in H1. apply Z.leb_le in H2. apply Z.leb_le in H3. lia.
Qed.

Lemma inSafeRange_finite (x : number) : inSafeRange x = true -> Js.isFinite x = true.
Proof.
  intros H. destruct (safeRange_cases x H) as [(s & Hx) | (s & m & e & Hx & _)].
  - exact (isFinite_zero x s Hx).
  - exact (isFinite_finite x s m e Hx).
Qed.

(** Multiplying and dividing by the same factor, in either order. *)
Lemma factor_roundTrip (c x : number) :
  goodFactor c = true -> inSafeRange x = true ->
  withinRelative (1 # 1000000000) (x * c / c)%float x = true
  /\ withinRelative (1 # 1000000000) (x / c * c)%float x = true.
Proof.
  intros Hgood Hsafe.
  destruct (goodFactor_cases c Hgood) as (mc & ec & Hc & Hdc & Hec).
  destruct (safeRange_cases x Hsafe) as [(s & Hx) | (s & m & e & Hx & Hdx & Hex)].
  - split.
    + apply (withinRelative_zero _ _ _ (xorb (xorb s false) false) s); [| exact Hx].
      rewrite div_spec, mul_spec, Hx, Hc. reflexivity.
    + apply (withinRelative_zero _ _ _ (xorb (xorb s false) false) s); [| exact Hx].
      rewrite mul_spec, div_spec, Hx, Hc. reflexivity.
  - split.
    + exact (roundTrip_mul_div x c s m mc e ec Hx Hdx Hex Hc Hdc Hec).
    + exact (roundTrip_div_mul x c s m mc e ec Hx Hdx Hex Hc Hdc Hec).
Qed.

(** C2 (amended to the range without overflow and underflow).  For
    every unit of the three linear tables and every number [x] that is a
    zero or has 1e-300 <= |x| <= 1e300, converting [x] to the base unit
    and back gives a finite number within relative distance 1e-9 of [x]
    (each of the two binary64 operations is within 2^-52 of the exact
    result). *)
Theorem roundTrip_in_range (category : LinearCategory) (u : Unit) (x : number) :
  In u (Js.values (unitsOf category)) ->
  inSafeRange x = true ->
  withinRelative (1 # 1000000000) (fromBase u (toBase u x)) x = true.
Proof.
  intros Hin Hsafe.
  pose proof (inSafeRange_finite x Hsafe) as Hfin.
  destruct category;
    unfold unitsOf, lengthUnits, volumeUnits, weightUnits, Js.values in Hin;
    cbn [map snd In] in Hin;
    repeat (destruct Hin as [<- | Hin]; [cbn [toBase fromBase] |]);
    try contradiction;
    first [ exact (withinRelative_refl x Hfin)
          | apply factor_roundTrip; [vm_compute; reflexivity | exact Hsafe] ].
Qed.

Lemma roundTrip_in_range_witness :
  withinRelative (1 # 1000000000) (2.5 * 1609.344 / 1609.344)%float 2.5%float = true.
Proof.
  apply (roundTrip_in_range Length
           {| id := "mile"; name := "Miles"; unitSymbol := "mi";
              toBase := fun value => (value * 1609.344)%float;
              fromBase := fun value => (value / 1609.344)%float |}
           2.5%float).
  - right. left. reflexivity.
  - reflexivity.
Defined.

(** C2 as stated for every finite [x] fails where the conversion to the
    base unit overflows or underflows: at the largest finite number the
    kilometer and mile round trips give Infinity, and at the smallest
    positive number four units of length give 0. *)
Lemma roundTrip_out_of_range :
  Js.isFinite 1.7976931348623157e308%float = true
  /\ outOfTolerance lengthUnits 1.7976931348623157e308%float = ["kilometer"; "mile"]%string
  /\ map (fun u => fromBase u (toBase u 1.7976931348623157e308%float))
         (firstn 2 (Js.values lengthUnits)) = [infinity; infinity]
  /\ outOfTolerance volumeUnits 1.7976931348623157e308%float = ["gallon"]%string
  /\ outOfTolerance weightUnits 1.7976931348623157e308%float
     = ["metricTon"; "usTon"; "stone"]%string
  /\ Js.isFinite 5e-324%float = true
  /\ outOfTolerance lengthUnits 5e-324%float
     = ["inch"; "foot"; "millimeter"; "centimeter"]%string.
Proof. repeat split; vm_compute; reflexivity. Qed.

(** Round trips on ordinary values are often exact. *)
Example roundTrip_samples :
  outOfTolerance lengthUnits 1%float = []
  /\ outOfTolerance volumeUnits 123.456%float = []
  /\ outOfTolerance weightUnits (-0.001)%float = [].
Proof. repeat split; vm_compute; reflexivity. Qed.

(** ** The numbers calculator: compare mode *)

Lemma strictNe_zero (x : number) :
  Js.strictNe x 0%float = match Prim2SF x with S754_zero _ => false | _ => true end.
Proof.
  unfold Js.strictNe. rewrite eqb_spec.
  change (Prim2SF 0%float) with (S754_zero false).
  destruct (Prim2SF x) as [s | s | | s m e]; try destruct s; reflexivity.
Qed.

(** C9.  Compare mode on the two parsed numbers [first] and [second]:
    the difference is [second - first]; the percentage is
    [diff / first * 100] unless [first] is a zero (of either sign), in
    which case it is the number 0, neither infinite nor NaN. *)
Theorem handleCompare_spec (parseFloat : string -> number) (data : CompareFormData) :
  handleCompare parseFloat data
  = {| diff := (parseFloat (second data) - parseFloat (first data))%float;
       percent :=
         match Prim2SF (parseFloat (first data)) with
         | S754_zero _ => 0%float
         | _ => ((parseFloat (second data) - parseFloat (first data))
                 / parseFloat (first data) * 100)%float
         end |}.
Proof.
  unfold handleCompare. rewrite strictNe_zero.
  destruct (Prim2SF (parseFloat (first data))); reflexivity.
Qed.

Example compare_scenario :
  handleCompare sampleParseFloat {| first := "200"; second := "205" |}
  = {| diff := 5%float; percent := 2.5%float |}
  /\ handleCompare sampleParseFloat {| first := "0"; second := "5" |}
     = {| diff := 5%float; percent := 0%float |}
  /\ handleCompare sampleParseFloat {| first := "-0"; second := "5" |}
     = {| diff := 5%float; percent := 0%float |}.
Proof. repeat split; vm_compute; reflexivity. Qed.

(* ================================================================= *)
(** ** The time engine *)

(** ** The time engine: blank timestamps *)

Lemma trimStart_blank (s : string) : isBlank s = true -> Js.trimStart s = EmptyString.
Proof.
  assert (H : forall n s, (String.length s <= n)%nat ->
                          isBlank s = true -> Js.trimStart s = EmptyString).
  { clear s. induction n as [| n IH]; intros s Hlen Hs.
    - destruct s; [reflexivity | simpl in Hlen; lia].
    - destruct s as [| b0 r0]; [reflexivity |].
      cbn [isBlank Js.trimStart] in *.
      destruct (Js.whiteSpaceBytes (String b0 r0)) as [| [| [| [| k]]]]; try discriminate.
      + apply IH; [simpl in Hlen; lia | exact Hs].
      + destruct r0 as [| b1 r1]; [discriminate |].
        apply IH; [simpl in Hlen; lia | exact Hs].
      + destruct r0 as [| b1 [| b2 r2]]; try discriminate.
        apply IH; [simpl in Hlen; lia | exact Hs]. }
  apply (H (String.length s)). lia.
Qed.

Lemma Number_blank (StringNumericValue : string -> number) (value : string) :
  isBlank value = true -> Number StringNumericValue value = 0%float.
Proof.
  intros H. unfold Number, Js.trim. rewrite (trimStart_blank _ H). reflexivity.
Qed.

(** C10.  The empty string, and every string made of white space only
    (the StrWhiteSpaceChar characters of the language: the space, TAB,
    VT, FF, the line terminators, NO-BREAK SPACE, ZERO WIDTH NO-BREAK
    SPACE and the other space separators of Unicode), is accepted by
    [isValidUnixSeconds] and [isValidUnixMilliseconds]: [Number] maps it
    to 0, which is not NaN, is finite and lies within both ranges. *)
Theorem blank_timestamp_is_valid (StringNumericValue : string -> number) (value : string) :
  isBlank value = true ->
  Number StringNumericValue value = 0%float
  /\ isValidUnixSeconds StringNumericValue value = true
  /\ isValidUnixMilliseconds StringNumericValue value = true.
Proof.
  intros H. unfold isValidUnixSeconds, isValidUnixMilliseconds.
  rewrite (Number_blank _ _ H). repeat split; reflexivity.
Qed.

Lemma blank_timestamp_is_valid_witness :
  Number (fun _ => nan) (" " ++ noBreakSpace) = 0%float
  /\ isValidUnixSeconds (fun _ => nan) (" " ++ noBreakSpace) = true
  /\ isValidUnixMilliseconds (fun _ => nan) (" " ++ noBreakSpace) = true.
Proof.
  apply (blank_timestamp_is_valid (fun _ => nan) (" " ++ noBreakSpace)%string).
  reflexivity.
Defined.

(** The empty string, blanks of one byte and of several bytes, and a
    character that is not white space (ZERO WIDTH SPACE), on a host
    whose [StringNumericValue] reads no numeral at all. *)
Example whitespace_timestamp :
  map (isValidUnixSeconds (fun _ => nan))
      [""; "   "; String (ascii_of_N 9) " "; noBreakSpace; ideographicSpace; byteOrderMark;
       (" " ++ noBreakSpace ++ String (ascii_of_N 10) byteOrderMark); zeroWidthSpace]%string
  = [true; true; true; true; true; true; true; false]
  /\ map (isValidUnixMilliseconds (fun _ => nan))
         [""; noBreakSpace; ideographicSpace; zeroWidthSpace]%string
     = [true; true; true; false]
  /\ map isBlank [""; " "; noBreakSpace; byteOrderMark; zeroWidthSpace; " a"]%string
     = [true; true; true; true; false; false]
  /\ map Js.trim [" a b "; (noBreakSpace ++ "x" ++ ideographicSpace ++ " ")]%string
     = ["a b"; "x"]%string.
Proof. repeat split; vm_compute; reflexivity. Qed.

(** ** The time engine: invalid input *)

(** C6.  A string that does not denote a time value within the range of
    Date gives an invalid Date, and [fromLocalDatetime] and
    [fromUTCDatetime] fail on it: the call of [toISOString] in
    [convertDate] throws RangeError "Invalid time value", and no
    TimeConversionResult is returned. *)
Theorem invalid_datetime_throws
    (LocalTZA : Z -> bool -> Z) (Date_parse : string -> option Z)
    (timeZoneNamePart : Z -> option string) (datetimeString : string) :
  newDate Date_parse datetimeString = None ->
  isValidDatetime Date_parse datetimeString = false
  /\ fromLocalDatetime LocalTZA Date_parse timeZoneNamePart datetimeString
     = Throw (RangeError "Invalid time value")
  /\ fromUTCDatetime LocalTZA Date_parse timeZoneNamePart datetimeString
     = Throw (RangeError "Invalid time value")
  /\ forall r,
       fromLocalDatetime LocalTZA Date_parse timeZoneNamePart datetimeString <> Return r
       /\ fromUTCDatetime LocalTZA Date_parse timeZoneNamePart datetimeString <> Return r.
Proof.
  intros Hbad. unfold isValidDatetime, fromLocalDatetime, fromUTCDatetime, convertDate.
  rewrite Hbad. simpl. repeat split; discriminate.
Qed.

Lemma invalid_datetime_throws_witness :
  isValidDatetime epochParser "not a date" = false
  /\ fromLocalDatetime utcZone epochParser utcName "not a date"
     = Throw (RangeError "Invalid time value")
  /\ fromUTCDatetime utcZone epochParser utcName "not a date"
     = Throw (RangeError "Invalid time value")
  /\ forall r,
       fromLocalDatetime utcZone epochParser utcName "not a date" <> Return r
       /\ fromUTCDatetime utcZone epochParser utcName "not a date" <> Return r.
Proof.
  apply (invalid_datetime_throws utcZone epochParser utcName "not a date"%string).
  reflexivity.
Defined.

(** A string that the parser rejects, and one that denotes an instant
    beyond the range of Date, are both invalid. *)
Lemma newDate_invalid (Date_parse : string -> option Z) (text : string) :
  newDate Date_parse text = None
  <-> Date_parse text = None
      \/ exists t, Date_parse text = Some t /\ JsDate.maxTime < Z.abs t.
Proof.
  unfold newDate, JsDate.timeClip. destruct (Date_parse text) as [t |].
  - destruct (Z.ltb_spec JsDate.maxTime (Z.abs t)) as [H | H]; split.
    + intros _. right. exists t. split; [reflexivity | exact H].
    + reflexivity.
    + discriminate.
    + intros [E | (t' & E & Ht')]; [discriminate |]. injection E as <-. lia.
  - split; [intros _; left; reflexivity | reflexivity].
Qed.

(** ** The time engine: seconds and milliseconds *)

Lemma truncate_canonical (s : bool) (p : positive) :
  Z.pos (digits2_pos p) <= 53 ->
  Js.truncate s (Js.mantissaOf p) (Z.pos (digits2_pos p) - 53)
  = if s then Z.neg p else Z.pos p.
Proof.
  intros Hd. unfold Js.truncate. rewrite (mantissaOf_value p Hd).
  set (d := Z.pos (digits2_pos p)) in *.
  assert (E : (if 0 <=? d - 53 then Z.pos p * 2 ^ (53 - d) * 2 ^ (d - 53)
               else Z.pos p * 2 ^ (53 - d) / 2 ^ (- (d - 53))) = Z.pos p).
  { destruct (Z.leb_spec 0 (d - 53)).
    - replace (53 - d) with 0 by lia. replace (d - 53) with 0 by lia.
      rewrite Z.pow_0_r. lia.
    - replace (- (d - 53)) with (53 - d) by lia.
      apply Z.div_mul. apply Z.pow_nonzero; lia. }
  rewrite E. destruct s; reflexivity.
Qed.

Lemma ofNumber_ofZ (z : Z) :
  Z.abs z <= JsDate.maxTime -> JsDate.ofNumber (Js.ofZ z) = Some z.
Proof.
  intros Hz. unfold JsDate.maxTime in Hz.
  assert (Hsmall : forall p, Z.pos p <= 8640000000000000 -> Z.pos (digits2_pos p) <= 53).
  { intros p Hp. apply digits_of_small. change (2 ^ 53) with 9007199254740992. lia. }
  unfold JsDate.ofNumber. destruct z as [| p | p].
  - reflexivity.
  - rewrite Prim2SF_ofZ_pos, (truncate_canonical false) by (apply Hsmall; lia).
    unfold JsDate.timeClip, JsDate.maxTime.
    replace (8640000000000000 <? Z.abs (Z.pos p)) with false; [reflexivity |].
    symmetry. apply Z.ltb_ge. lia.
  - rewrite Prim2SF_ofZ_neg, (truncate_canonical true) by (apply Hsmall; lia).
    unfold JsDate.timeClip, JsDate.maxTime.
    replace (8640000000000000 <? Z.abs (Z.neg p)) with false; [reflexivity |].
    symmetry. apply Z.ltb_ge. lia.
Qed.

Lemma mul_ofZ_1000 (s : Z) :
  Z.abs (s * 1000) <= JsDate.maxTime ->
  JsDate.ofNumber (Js.ofZ s * 1000)%float = Some (s * 1000).
Proof.
  intros Hs. unfold JsDate.maxTime in Hs.
  assert (H1000 : Prim2SF 1000%float
                  = S754_finite false (Js.mantissaOf 1000) (Z.pos (digits2_pos 1000) - 53))
    by reflexivity.
  destruct s as [| p | p].
  - reflexivity.
  - assert (Hp : Z.pos (p * 1000) < 2 ^ 53).
    { change (2 ^ 53) with 9007199254740992. lia. }
    rewrite <- (ofNumber_ofZ (Z.pos p * 1000)) by (unfold JsDate.maxTime; lia).
    f_equal. apply Prim2SF_inj.
    rewrite mul_spec, H1000, Prim2SF_ofZ_pos.
    + rewrite SFmul_canonical by exact Hp.
      change (Z.pos p * 1000) with (Z.pos (p * 1000)).
      rewrite Prim2SF_ofZ_pos by (apply digits_of_small, Hp). reflexivity.
    + apply digits_of_small. change (2 ^ 53) with 9007199254740992. lia.
  - assert (Hp : Z.pos (p * 1000) < 2 ^ 53).
    { change (2 ^ 53) with 9007199254740992. lia. }
    rewrite <- (ofNumber_ofZ (Z.neg p * 1000)) by (unfold JsDate.maxTime; lia).
    f_equal. apply Prim2SF_inj.
    rewrite mul_spec, H1000, Prim2SF_ofZ_neg.
    + rewrite SFmul_canonical by exact Hp.
      change (Z.neg p * 1000) with (Z.neg (p * 1000)).
      rewrite Prim2SF_ofZ_neg by (apply digits_of_small, Hp). reflexivity.
    + apply digits_of_small. change (2 ^ 53) with 9007199254740992. lia.
Qed.


Lemma Math_floor_ofZ (k : Z) :
  Z.abs k < 2 ^ 53 -> Js.Math_floor (Js.ofZ k) = Js.ofZ k.
Proof.
  intros Hk. unfold Js.Math_floor. destruct k as [| p | p].
  - reflexivity.
  - assert (Hd : Z.pos (digits2_pos p) <= 53) by (apply digits_of_small; lia).
    rewrite (Prim2SF_ofZ_pos p Hd).
    destruct (Z.leb_spec 0 (Z.pos (digits2_pos p) - 53)); [reflexivity |].
    rewrite (mantissaOf_value p Hd).
    replace (- (Z.pos (digits2_pos p) - 53)) with (53 - Z.pos (digits2_pos p)) by lia.
    rewrite Z.div_mul by (apply Z.pow_nonzero; lia). reflexivity.
  - assert (Hd : Z.pos (digits2_pos p) <= 53) by (apply digits_of_small; lia).
    rewrite (Prim2SF_ofZ_neg p Hd).
    destruct (Z.leb_spec 0 (Z.pos (digits2_pos p) - 53)); [reflexivity |].
    change (Z.neg (Js.mantissaOf p)) with (- Z.pos (Js.mantissaOf p)).
    rewrite (mantissaOf_value p Hd), <- Z.mul_opp_l.
    replace (- (Z.pos (digits2_pos p) - 53)) with (53 - Z.pos (digits2_pos p)) by lia.
    rewrite Z.div_mul by (apply Z.pow_nonzero; lia). reflexivity.
Qed.

Lemma floor_step (a P Y : Z) (neg : bool) :
  0 < a -> 1000 < P ->
  Y = a * P / 1000 \/ Y = a * P / 1000 + 1 ->
  (neg = true -> a mod 1000 <> 0) ->
  (if neg then - Y else Y) / P = (if neg then - a else a) / 1000.
Proof.
  intros Ha HP HY Hneg.
  pose proof (Z.div_mod a 1000 ltac:(lia)) as Hdm.
  pose proof (Z.mod_pos_bound a 1000 ltac:(lia)) as Hr.
  set (k := a / 1000) in *. set (r := a mod 1000) in *.
  pose proof (Z.div_mod (r * P) 1000 ltac:(lia)) as Hdw.
  pose proof (Z.mod_pos_bound (r * P) 1000 ltac:(lia)) as Hrw.
  set (w := r * P / 1000) in *.
  assert (HQ : a * P / 1000 = k * P + w).
  { replace (a * P) with (k * P * 1000 + r * P) by lia.
    rewrite Z.div_add_l by lia. reflexivity. }
  rewrite HQ in HY.
  assert (HrP : 0 <= r * P <= 999 * P).
  { split; [apply Z.mul_nonneg_nonneg; lia | apply Z.mul_le_mono_nonneg_r; lia]. }
  assert (Hw : 0 <= w /\ w + 1 < P) by lia.
  destruct neg.
  - specialize (Hneg eq_refl).
    assert (HrP1 : 1 * P <= r * P) by (apply Z.mul_le_mono_nonneg_r; lia).
    assert (Hw1 : 1 <= w) by lia.
    transitivity (- (k + 1)).
    + symmetry. apply (Z.div_unique _ _ _ (P - (Y - k * P))); lia.
    + apply (Z.div_unique _ _ _ (1000 - r)); lia.
  - transitivity k; [| reflexivity].
    symmetry. apply (Z.div_unique _ _ _ (Y - k * P)); lia.
Qed.

Lemma SF_floor_thousandth (s : bool) (a : positive) :
  Z.pos a <= JsDate.maxTime ->
  Z.pos a mod 1000 <> 0 ->
  exists m' e',
    SF64div (S754_finite s (Js.mantissaOf a) (Z.pos (digits2_pos a) - 53)) (Prim2SF 1000%float)
    = S754_finite s m' e'
    /\ e' < 0
    /\ (if s then Z.neg m' else Z.pos m') / 2 ^ (- e')
       = (if s then Z.neg a else Z.pos a) / 1000.
Proof.
  intros Ha Hrem. unfold JsDate.maxTime in Ha.
  assert (Hda : Z.pos (digits2_pos a) <= 53).
  { apply digits_of_small. change (2 ^ 53) with 9007199254740992. lia. }
  pose proof (mantissaOf_value a Hda) as Va.
  pose proof (mantissaOf_digits a Hda) as Da.
  set (da := Z.pos (digits2_pos a)) in *.
  assert (Hda0 : 0 < da) by (subst da; lia).
  change (Prim2SF 1000%float) with (S754_finite false 8796093022208000 (-43)).
  destruct (SFdiv_shape s false (Js.mantissaOf a) 8796093022208000 (da - 53) (-43))
    as (pq & m' & e' & Hpq & Hdq & Hdiv & Hm' & He' & HY); try assumption; try reflexivity; try lia.
  rewrite xorb_false_r in Hdiv.
  exists m', e'. split; [exact Hdiv |].
  set (n := Z.pos (digits2_pos pq) - 53) in *.
  (* the scaled quotient *)
  assert (Hpq' : Z.pos pq = Z.pos a * 2 ^ (63 - da) / 1000).
  { rewrite Hpq, Va.
    change 8796093022208000 with (1000 * 2 ^ 43).
    replace (Z.pos a * 2 ^ (53 - da) * 2 ^ 53) with (Z.pos a * 2 ^ (63 - da) * 2 ^ 43).
    - apply Z.div_mul_cancel_r; lia.
    - rewrite <- !Z.mul_assoc, <- !Z.pow_add_r by lia. do 2 f_equal. lia. }
  assert (Hn : n = 0 \/ (n = 1 /\ da <= 52)).
  { destruct (Z.eq_dec n 0) as [E0 | N0]; [left; exact E0 | right].
    split; [lia |].
    destruct (Z.le_gt_cases da 52) as [L | G]; [exact L | exfalso].
    assert (E53 : da = 53) by lia.
    assert (Hlt : Z.pos pq < 2 ^ 53).
    { rewrite Hpq', E53. change (2 ^ (63 - 53)) with 1024.
      apply Z.div_lt_upper_bound; [lia |].
      change (2 ^ 53) with 9007199254740992. lia. }
    pose proof (digits_of_small pq Hlt). lia. }
  set (j := 63 - da - n) in *.
  assert (Hj : 10 <= j) by (subst j; lia).
  assert (HP : 1000 < 2 ^ j).
  { apply Z.lt_le_trans with (2 ^ 10); [reflexivity |].
    apply Z.pow_le_mono_r; lia. }
  assert (HQt : Z.pos pq / 2 ^ n = Z.pos a * 2 ^ j / 1000).
  { rewrite Hpq', Z.div_div by (try apply Z.pow_pos_nonneg; lia).
    replace (63 - da) with (j + n) by (subst j; lia).
    rewrite Z.pow_add_r, Z.mul_assoc by lia.
    apply Z.div_mul_cancel_r; [lia | apply Z.pow_nonzero; lia]. }
  rewrite HQt in HY.
  replace (da - 53 - -43 - 53 + n) with (- j) in * by (subst j; lia).
  split; [lia |].
  set (dl := e' - - j) in *.
  assert (Hdl : 0 <= dl <= 1) by (subst dl; lia).
  assert (He : - e' = j - dl) by (subst dl; lia).
  rewrite He.
  assert (Hpd : 0 < 2 ^ dl) by (apply Z.pow_pos_nonneg; lia).
  assert (Hpj : 0 < 2 ^ (j - dl)) by (apply Z.pow_pos_nonneg; lia).
  assert (Hsplit : 2 ^ j = 2 ^ (j - dl) * 2 ^ dl).
  { rewrite <- Z.pow_add_r by lia. f_equal. lia. }
  pose proof (floor_step (Z.pos a) (2 ^ j) (Z.pos m' * 2 ^ dl) s
                ltac:(lia) HP HY (fun _ => Hrem)) as Hfl.
  rewrite Hsplit in Hfl at 1.
  destruct s.
  - change (Z.neg a) with (- Z.pos a). rewrite <- Hfl.
    change (Z.neg m') with (- Z.pos m').
    rewrite <- Z.mul_opp_l. symmetry. apply Z.div_mul_cancel_r; lia.
  - rewrite <- Hfl. symmetry. apply Z.div_mul_cancel_r; lia.
Qed.

(** The floor of the thousandth of a time value is computed exactly. *)
Lemma Math_floor_thousandth (t : Z) :
  Z.abs t <= JsDate.maxTime ->
  Js.Math_floor (Js.ofZ t / 1000)%float = Js.ofZ (t / 1000).
Proof.
  intros Ht.
  assert (Hsigned : forall (s : bool) (a : positive),
             Z.pos a <= JsDate.maxTime ->
             Prim2SF (Js.ofZ (if s then Z.neg a else Z.pos a))
             = S754_finite s (Js.mantissaOf a) (Z.pos (digits2_pos a) - 53)).
  { intros s a Ha. unfold JsDate.maxTime in Ha.
    assert (Z.pos (digits2_pos a) <= 53).
    { apply digits_of_small. change (2 ^ 53) with 9007199254740992. lia. }
    destruct s; [apply Prim2SF_ofZ_neg | apply Prim2SF_ofZ_pos]; assumption. }
  assert (Hmain : forall (s : bool) (a : positive),
             Z.pos a <= JsDate.maxTime ->
             Js.Math_floor (Js.ofZ (if s then Z.neg a else Z.pos a) / 1000)%float
             = Js.ofZ ((if s then Z.neg a else Z.pos a) / 1000)).
  { intros s a Ha.
    destruct (Z.eq_dec (Z.pos a mod 1000) 0) as [E0 | N0].
    - (* a multiple of 1000: the quotient is exact *)
      pose proof (Z.div_mod (Z.pos a) 1000 ltac:(lia)) as Hdm. rewrite E0 in Hdm.
      destruct (Z.pos a / 1000) as [| k | k] eqn:Ek; try lia.
      assert (Ea : a = (k * 1000)%positive) by lia.
      assert (Hk : Z.pos (k * 1000) < 2 ^ 53).
      { rewrite <- Ea. unfold JsDate.maxTime in Ha.
        change (2 ^ 53) with 9007199254740992. lia. }
      assert (Hq : (Js.ofZ (if s then Z.neg a else Z.pos a) / 1000)%float
                   = Js.ofZ (if s then Z.neg k else Z.pos k)).
      { apply Prim2SF_inj. rewrite div_spec, Hsigned by exact Ha.
        rewrite Hsigned by (unfold JsDate.maxTime in *; lia).
        change (Prim2SF 1000%float)
          with (S754_finite false (Js.mantissaOf 1000) (Z.pos (digits2_pos 1000) - 53)).
        rewrite Ea, SFdiv_canonical by exact Hk.
        rewrite xorb_false_r. reflexivity. }
      rewrite Hq, Math_floor_ofZ.
      + f_equal. rewrite Ea.
        destruct s.
        * change (Z.neg (k * 1000)) with (Z.neg k * 1000).
          rewrite Z.div_mul by lia. reflexivity.
        * change (Z.pos (k * 1000)) with (Z.pos k * 1000).
          rewrite Z.div_mul by lia. reflexivity.
      + unfold JsDate.maxTime in Ha. change (2 ^ 53) with 9007199254740992.
        destruct s; lia.
    - destruct (SF_floor_thousandth s a Ha N0) as (m' & e' & Hdiv & He' & Hfl).
      unfold Js.Math_floor. rewrite div_spec, Hsigned, Hdiv by exact Ha.
      replace (0 <=? e') with false by (symmetry; apply Z.leb_gt; exact He').
      rewrite Hfl. now destruct ((if s then Z.neg a else Z.pos a) / 1000). }
  destruct t as [| a | a].
  - reflexivity.
  - apply (Hmain false a). exact Ht.
  - apply (Hmain true a). exact Ht.
Qed.

Lemma timeClip_range (z t : Z) :
  JsDate.timeClip z = Some t -> t = z /\ Z.abs t <= JsDate.maxTime.
Proof.
  unfold JsDate.timeClip. destruct (Z.ltb_spec JsDate.maxTime (Z.abs z)); [discriminate |].
  intros E. injection E as <-. split; [reflexivity | assumption].
Qed.

Lemma ofNumber_range (v : number) (t : Z) :
  JsDate.ofNumber v = Some t -> Z.abs t <= JsDate.maxTime.
Proof.
  unfold JsDate.ofNumber. destruct (Prim2SF v) as [s | s | | s m e]; try discriminate.
  - intros E. injection E as <-. unfold JsDate.maxTime. simpl. lia.
  - intros E. apply timeClip_range in E. apply E.
Qed.

Section TimeFacts.
Variable LocalTZA : Z -> bool -> Z.
Variable Date_parse : string -> option Z.
Variable timeZoneNamePart : Z -> option string.

Lemma convertDate_valid (t : Z) :
  exists r,
    convertDate LocalTZA timeZoneNamePart (Some t) = Return r
    /\ unixMilliseconds r = Js.ofZ t
    /\ unixSeconds r = Js.Math_floor (unixMilliseconds r / 1000)%float.
Proof.
  unfold convertDate, JsDate.toISOString, getTimezoneInfo, Js.bind, JsDate.getTime.
  eexists. split; [reflexivity |]. split; reflexivity.
Qed.

Lemma convertDate_inv (d : JsDate.Date) (r : TimeConversionResult) :
  convertDate LocalTZA timeZoneNamePart d = Return r ->
  exists t,
    d = Some t /\ unixMilliseconds r = Js.ofZ t
    /\ unixSeconds r = Js.Math_floor (unixMilliseconds r / 1000)%float.
Proof.
  destruct d as [t |]; [| discriminate].
  intros H. exists t. split; [reflexivity |].
  destruct (convertDate_valid t) as (r' & Hr' & Hms & Hs).
  rewrite Hr' in H. inversion H; subst. auto.
Qed.

Lemma getCurrentTime_inv (now : Z) (r : TimeConversionResult) :
  getCurrentTime LocalTZA timeZoneNamePart now = Return r ->
  exists t,
    JsDate.timeClip now = Some t /\ unixMilliseconds r = Js.ofZ t
    /\ unixSeconds r = Js.Math_floor (unixMilliseconds r / 1000)%float.
Proof.
  change (getCurrentTime LocalTZA timeZoneNamePart now)
    with (convertDate LocalTZA timeZoneNamePart (JsDate.timeClip now)).
  apply convertDate_inv.
Qed.

Lemma newDate_range (text : string) (t : Z) :
  newDate Date_parse text = Some t -> Z.abs t <= JsDate.maxTime.
Proof.
  unfold newDate. destruct (Date_parse text) as [z |]; [| discriminate].
  intros E. apply timeClip_range in E. apply E.
Qed.
End TimeFacts.

(** C7.  Every result returned by an entry point of the time engine has
    as [unixMilliseconds] an integer [t] of the range of Date, and its
    [unixSeconds], computed as [Math.floor(unixMilliseconds / 1000)], is
    the integer floor of [t / 1000].  For an integer [s] whose instant
    [s * 1000] is within the range of Date, [fromUnixSeconds(s)] returns
    [unixMilliseconds = s * 1000] and [unixSeconds = s]; for an integer
    [ms] within the range, [fromUnixMilliseconds(ms)] returns
    [unixMilliseconds = ms] and [unixSeconds = floor(ms / 1000)]. *)
Theorem unixSeconds_is_floor
    (LocalTZA : Z -> bool -> Z) (Date_parse : string -> option Z)
    (timeZoneNamePart : Z -> option string) (s ms : Z) :
  Z.abs (s * 1000) <= JsDate.maxTime ->
  Z.abs ms <= JsDate.maxTime ->
  (forall r,
      (exists x, fromUnixSeconds LocalTZA timeZoneNamePart x = Return r)
      \/ (exists x, fromUnixMilliseconds LocalTZA timeZoneNamePart x = Return r)
      \/ (exists str, fromLocalDatetime LocalTZA Date_parse timeZoneNamePart str = Return r)
      \/ (exists str, fromUTCDatetime LocalTZA Date_parse timeZoneNamePart str = Return r)
      \/ (exists now, getCurrentTime LocalTZA timeZoneNamePart now = Return r) ->
      exists t sec,
        unixMilliseconds r = Js.ofZ t /\ Z.abs t <= JsDate.maxTime
        /\ unixSeconds r = Js.Math_floor (unixMilliseconds r / 1000)%float
        /\ unixSeconds r = Js.ofZ sec
        /\ 1000 * sec <= t < 1000 * sec + 1000)
  /\ (exists r,
        fromUnixSeconds LocalTZA timeZoneNamePart (Js.ofZ s) = Return r
        /\ unixMilliseconds r = Js.ofZ (s * 1000)
        /\ unixSeconds r = Js.ofZ s)
  /\ (exists r sec,
        fromUnixMilliseconds LocalTZA timeZoneNamePart (Js.ofZ ms) = Return r
        /\ unixMilliseconds r = Js.ofZ ms
        /\ unixSeconds r = Js.ofZ sec
        /\ 1000 * sec <= ms < 1000 * sec + 1000).
Proof.
  intros Hs Hms.
  assert (Hfloor : forall t, 1000 * (t / 1000) <= t < 1000 * (t / 1000) + 1000).
  { intros t. pose proof (Z.div_mod t 1000 ltac:(lia)).
    pose proof (Z.mod_pos_bound t 1000 ltac:(lia)). lia. }
  split; [| split].
  - intros r H.
    assert (Hr : exists t,
               Z.abs t <= JsDate.maxTime /\ unixMilliseconds r = Js.ofZ t
               /\ unixSeconds r = Js.Math_floor (unixMilliseconds r / 1000)%float).
    { destruct H as [(x & H) | [(x & H) | [(str & H) | [(str & H) | (now & H)]]]].
      - apply convertDate_inv in H. destruct H as (t & Hd & H).
        exists t. split; [exact (ofNumber_range _ _ Hd) | exact H].
      - apply convertDate_inv in H. destruct H as (t & Hd & H).
        exists t. split; [exact (ofNumber_range _ _ Hd) | exact H].
      - apply convertDate_inv in H. destruct H as (t & Hd & H).
        exists t. split; [exact (newDate_range _ _ _ Hd) | exact H].
      - apply convertDate_inv in H. destruct H as (t & Hd & H).
        exists t. split; [exact (newDate_range _ _ _ Hd) | exact H].
      - apply getCurrentTime_inv in H. destruct H as (t & Hd & H).
        exists t. split; [apply (timeClip_range _ _ Hd) | exact H]. }
    destruct Hr as (t & Ht & Hm & Hsec). exists t, (t / 1000).
    split; [exact Hm |]. split; [exact Ht |]. split; [exact Hsec |].
    split; [| apply Hfloor].
    rewrite Hsec, Hm. apply Math_floor_thousandth, Ht.
  - unfold fromUnixSeconds. rewrite (mul_ofZ_1000 s Hs).
    destruct (convertDate_valid LocalTZA timeZoneNamePart (s * 1000)) as (r & Hr & Hm & Hsec).
    exists r. split; [exact Hr |]. split; [exact Hm |].
    rewrite Hsec, Hm, (Math_floor_thousandth _ Hs), Z.div_mul by lia. reflexivity.
  - unfold fromUnixMilliseconds. rewrite (ofNumber_ofZ ms Hms).
    destruct (convertDate_valid LocalTZA timeZoneNamePart ms) as (r & Hr & Hm & Hsec).
    exists r, (ms / 1000). split; [exact Hr |]. split; [exact Hm |].
    split; [| apply Hfloor].
    rewrite Hsec, Hm. apply Math_floor_thousandth, Hms.
Qed.

Lemma unixSeconds_is_floor_witness :
  (forall r,
      (exists x, fromUnixSeconds utcZone utcName x = Return r)
      \/ (exists x, fromUnixMilliseconds utcZone utcName x = Return r)
      \/ (exists str, fromLocalDatetime utcZone epochParser utcName str = Return r)
      \/ (exists str, fromUTCDatetime utcZone epochParser utcName str = Return r)
      \/ (exists now, getCurrentTime utcZone utcName now = Return r) ->
      exists t sec,
        unixMilliseconds r = Js.ofZ t /\ Z.abs t <= JsDate.maxTime
        /\ unixSeconds r = Js.Math_floor (unixMilliseconds r / 1000)%float
        /\ unixSeconds r = Js.ofZ sec
        /\ 1000 * sec <= t < 1000 * sec + 1000)
  /\ (exists r,
        fromUnixSeconds utcZone utcName (Js.ofZ 1640995200) = Return r
        /\ unixMilliseconds r = Js.ofZ (1640995200 * 1000)
        /\ unixSeconds r = Js.ofZ 1640995200)
  /\ (exists r sec,
        fromUnixMilliseconds utcZone utcName (Js.ofZ 1709210096789) = Return r
        /\ unixMilliseconds r = Js.ofZ 1709210096789
        /\ unixSeconds r = Js.ofZ sec
        /\ 1000 * sec <= 1709210096789 < 1000 * sec + 1000).
Proof.
  apply (unixSeconds_is_floor utcZone epochParser utcName 1640995200 1709210096789);
    unfold JsDate.maxTime; simpl; lia.
Defined.

(** The time scenarios of the specification, on a host in UTC. *)
Example time_scenario :
  fromUnixSeconds utcZone utcName 0%float
  = Return {| unixSeconds := 0%float; unixMilliseconds := 0%float;
              localDatetime := "1970-01-01T00:00:00";
              utcDatetime := "1970-01-01T00:00:00.000Z";
              timezone := "UTC"; isDST := false |}
  /\ fromUnixSeconds utcZone utcName 1640995200%float
     = Return {| unixSeconds := 1640995200%float; unixMilliseconds := 1640995200000%float;
                 localDatetime := "2022-01-01T00:00:00";
                 utcDatetime := "2022-01-01T00:00:00.000Z";
                 timezone := "UTC"; isDST := false |}
  /\ fromUnixMilliseconds utcZone utcName (-1)%float
     = Return {| unixSeconds := (-1)%float; unixMilliseconds := (-1)%float;
                 localDatetime := "1969-12-31T23:59:59";
                 utcDatetime := "1969-12-31T23:59:59.999Z";
                 timezone := "UTC"; isDST := false |}
  /\ Js.ofZ 1640995200 = 1640995200%float.
Proof. repeat split; vm_compute; reflexivity. Qed.

(* ================================================================= *)
(** ** The date calculator: difference mode *)

(** ** Differences of integers *)

Lemma shl_align_value (m : positive) (e e' : Z) :
  e' <= e ->
  Z.pos (fst (shl_align m e e')) = Z.pos m * 2 ^ (e - e')
  /\ snd (shl_align m e e') = e'.
Proof.
  intros He. unfold shl_align.
  destruct (e' - e) as [| d | d] eqn:Ed; try lia; cbn [fst snd].
  - replace (e - e') with 0 by lia. rewrite Z.pow_0_r. lia.
  - rewrite iter_xO_value. replace (e - e') with (Z.pos d) by lia. split; reflexivity.
Qed.

(** Rounding an integer mantissa [m0] at exponent [e0] to binary64. *)
Lemma binary_round_near (s : bool) (m0 : positive) (e0 : Z) :
  -1074 <= Z.pos (digits2_pos m0) + e0 - 53 ->
  Z.pos (digits2_pos m0) + e0 <= 1023 ->
  exists m' e',
    binary_round prec emax s m0 e0 = S754_finite s m' e'
    /\ Z.pos (digits2_pos m') = 53
    /\ Z.pos (digits2_pos m0) + e0 - 53 <= e' <= Z.pos (digits2_pos m0) + e0 - 52
    /\ (Qabs (SFvalue false m' e' - inject_Z (Z.pos m0) * pow2 e0)
        <= (1 # 4503599627370496) * (inject_Z (Z.pos m0) * pow2 e0))%Q.
Proof.
  intros Hlo Hhi. unfold binary_round.
  set (d0 := Z.pos (digits2_pos m0)) in *.
  replace (fexp prec emax (d0 + e0)) with (d0 + e0 - 53)
    by (unfold fexp, SpecFloat.emin, prec, emax; lia).
  destruct (Z.le_gt_cases (d0 + e0 - 53) e0) as [Hshift | Hkeep].
  - (* fewer than 53 bits: the mantissa is shifted left, nothing is lost *)
    destruct (shl_align_value m0 e0 (d0 + e0 - 53) Hshift) as [Hv He].
    destruct (shl_align m0 e0 (d0 + e0 - 53)) as [mz ez]. cbn [fst snd] in Hv, He. subst ez.
    assert (Hdz : Z.pos (digits2_pos mz) = 53).
    { rewrite (digits2_shift m0 (e0 - (d0 + e0 - 53)) mz); [fold d0; lia | lia | exact Hv]. }
    destruct (round_aux_near s mz (d0 + e0 - 53) loc_Exact)
      as (m' & e' & Hr & Hd' & He' & Hval); try lia.
    exists m', e'. split; [exact Hr |]. split; [exact Hd' |]. split; [lia |].
    assert (HX : (inject_Z (Z.pos m0) * pow2 e0
                  == inject_Z (Z.pos mz) * pow2 (d0 + e0 - 53))%Q).
    { rewrite Hv, inject_Z_mult.
      replace e0 with ((e0 - (d0 + e0 - 53)) + (d0 + e0 - 53)) at 1 by lia.
      rewrite pow2_add, (pow2_nonneg (e0 - (d0 + e0 - 53))) by lia. ring. }
    rewrite HX.
    apply (near_value mz m' (d0 + e0 - 53) e'); try lia; try exact Hval.
    + apply Qle_refl.
    + apply Qmult_lt_compat_r; [apply pow2_pos |]. rewrite <- Zlt_Qlt. lia.
  - (* 53 bits or more *)
    assert (Hal : shl_align m0 e0 (d0 + e0 - 53) = (m0, e0)).
    { unfold shl_align. destruct (d0 + e0 - 53 - e0) eqn:Ed; try reflexivity. lia. }
    rewrite Hal.
    destruct (round_aux_near s m0 e0 loc_Exact)
      as (m' & e' & Hr & Hd' & He' & Hval); try (fold d0; lia).
    fold d0 in He', Hval.
    exists m', e'. split; [exact Hr |]. split; [exact Hd' |]. split; [lia |].
    apply (near_value m0 m' e0 e'); try (fold d0; lia); try exact Hval.
    + apply Qle_refl.
    + apply Qmult_lt_compat_r; [apply pow2_pos |]. rewrite <- Zlt_Qlt. lia.
Qed.

(** The representation of an integer of at most 53 bits. *)
Lemma Prim2SF_ofZ (z : Z) :
  Z.abs z < 2 ^ 53 ->
  Prim2SF (Js.ofZ z)
  = match z with
    | Z0 => S754_zero false
    | Zpos p => S754_finite false (Js.mantissaOf p) (Z.pos (digits2_pos p) - 53)
    | Zneg p => S754_finite true (Js.mantissaOf p) (Z.pos (digits2_pos p) - 53)
    end.
Proof.
  intros Hz. destruct z as [| p | p].
  - reflexivity.
  - apply Prim2SF_ofZ_pos, digits_of_small. lia.
  - apply Prim2SF_ofZ_neg, digits_of_small. lia.
Qed.

Lemma SFsub_canonical_near (sb sa : bool) (pb pa : positive) :
  let zb := if sb then Z.neg pb else Z.pos pb in
  let za := if sa then Z.neg pa else Z.pos pa in
  Z.pos pb < 2 ^ 53 -> Z.pos pa < 2 ^ 53 -> zb <> za ->
  exists m e,
    SF64sub (S754_finite sb (Js.mantissaOf pb) (Z.pos (digits2_pos pb) - 53))
            (S754_finite sa (Js.mantissaOf pa) (Z.pos (digits2_pos pa) - 53))
    = S754_finite (zb - za <? 0) m e
    /\ Z.pos (digits2_pos m) = 53
    /\ -52 <= e <= 2
    /\ (Qabs (SFvalue false m e - inject_Z (Z.abs (zb - za)))
        <= (1 # 4503599627370496) * inject_Z (Z.abs (zb - za)))%Q.
Proof.
  intros zb za Hb Ha Hne.
  assert (Hdb : Z.pos (digits2_pos pb) <= 53) by (apply digits_of_small, Hb).
  assert (Hda : Z.pos (digits2_pos pa) <= 53) by (apply digits_of_small, Ha).
  pose proof (mantissaOf_value pb Hdb) as Vb.
  pose proof (mantissaOf_value pa Hda) as Va.
  unfold SF64sub, SFsub.
  set (db := Z.pos (digits2_pos pb)) in *. set (da := Z.pos (digits2_pos pa)) in *.
  assert (Hdb0 : 0 < db) by (subst db; lia). assert (Hda0 : 0 < da) by (subst da; lia).
  set (ez := Z.min (db - 53) (da - 53)).
  assert (Hez : -52 <= ez <= 0) by (subst ez; lia).
  destruct (shl_align_value (Js.mantissaOf pb) (db - 53) ez ltac:(subst ez; lia)) as [Ab _].
  destruct (shl_align_value (Js.mantissaOf pa) (da - 53) ez ltac:(subst ez; lia)) as [Aa _].
  assert (Ab' : Z.pos (fst (shl_align (Js.mantissaOf pb) (db - 53) ez)) = Z.pos pb * 2 ^ (- ez)).
  { rewrite Ab, Vb, <- Z.mul_assoc, <- Z.pow_add_r by lia. do 2 f_equal. lia. }
  assert (Aa' : Z.pos (fst (shl_align (Js.mantissaOf pa) (da - 53) ez)) = Z.pos pa * 2 ^ (- ez)).
  { rewrite Aa, Va, <- Z.mul_assoc, <- Z.pow_add_r by lia. do 2 f_equal. lia. }
  rewrite Ab', Aa'. clear Ab Aa Ab' Aa'.
  assert (Hp : 0 < 2 ^ (- ez)) by (apply Z.pow_pos_nonneg; lia).
  assert (HD : cond_Zopp sb (Z.pos pb * 2 ^ (- ez)) - cond_Zopp sa (Z.pos pa * 2 ^ (- ez))
               = (zb - za) * 2 ^ (- ez)).
  { subst zb za. destruct sb, sa; cbn [cond_Zopp]; lia. }
  rewrite HD.
  assert (Hrange : Z.abs (zb - za) < 2 ^ 54).
  { change (2 ^ 54) with (2 ^ 53 + 2 ^ 53). subst zb za. destruct sb, sa; lia. }
  destruct (Z.abs (zb - za)) as [| pd | pd] eqn:Epd; try lia.
  assert (Hdd : Z.pos (digits2_pos pd) <= 54).
  { pose proof (digits2_bounds pd) as [Hlo _].
    assert (Z.pos (digits2_pos pd) - 1 < 54); [| lia].
    apply (Z.pow_lt_mono_r_iff 2); lia. }
  assert (Hnear : forall (s : bool) (m0 : positive),
             Z.pos m0 = Z.pos pd * 2 ^ (- ez) ->
             exists m e,
               binary_round prec emax s m0 ez = S754_finite s m e
               /\ Z.pos (digits2_pos m) = 53
               /\ -52 <= e <= 2
               /\ (Qabs (SFvalue false m e - inject_Z (Z.pos pd))
                   <= (1 # 4503599627370496) * inject_Z (Z.pos pd))%Q).
  { intros s m0 Hm0.
    pose proof (digits2_shift pd (- ez) m0 ltac:(lia) Hm0) as Hd0.
    destruct (binary_round_near s m0 ez) as (m & e & Hr & Hdm & He & Hv); try lia.
    exists m, e. split; [exact Hr |]. split; [exact Hdm |]. split; [lia |].
    assert (HX : (inject_Z (Z.pos m0) * pow2 ez == inject_Z (Z.pos pd))%Q).
    { rewrite Hm0, inject_Z_mult, <- (pow2_nonneg (- ez)) by lia.
      rewrite <- Qmult_assoc, <- pow2_add. replace (- ez + ez) with 0 by lia.
      unfold pow2. simpl. ring. }
    rewrite HX in Hv. exact Hv. }
  unfold binary_normalize.
  destruct ((zb - za) * 2 ^ (- ez)) as [| m0 | m0] eqn:Em0.
  - exfalso. nia.
  - assert (Hpos : 0 < zb - za) by nia.
    replace (zb - za <? 0) with false by (symmetry; apply Z.ltb_ge; lia).
    apply Hnear. rewrite <- Em0. f_equal. lia.
  - assert (Hneg : zb - za < 0) by nia.
    replace (zb - za <? 0) with true by (symmetry; apply Z.ltb_lt; lia).
    apply Hnear.
    assert (E : - Z.neg m0 = - ((zb - za) * 2 ^ (- ez))) by (rewrite Em0; reflexivity).
    change (- Z.neg m0) with (Z.pos m0) in E. rewrite E. nia.
Qed.

(** The difference of two integers of at most 53 bits. *)
Lemma sub_ofZ_near (a b : Z) :
  Z.abs a < 2 ^ 53 -> Z.abs b < 2 ^ 53 -> a <> b ->
  exists m e,
    Prim2SF (Js.ofZ b - Js.ofZ a)%float = S754_finite (b - a <? 0) m e
    /\ Z.pos (digits2_pos m) = 53
    /\ -52 <= e <= 2
    /\ (Qabs (SFvalue false m e - inject_Z (Z.abs (b - a)))
        <= (1 # 4503599627370496) * inject_Z (Z.abs (b - a)))%Q.
Proof.
  intros Ha Hb Hne. rewrite sub_spec, !Prim2SF_ofZ by assumption.
  assert (Hexact : forall p : positive,
             Z.pos p < 2 ^ 53 ->
             Z.pos (digits2_pos (Js.mantissaOf p)) = 53
             /\ -52 <= Z.pos (digits2_pos p) - 53 <= 2
             /\ (Qabs (SFvalue false (Js.mantissaOf p) (Z.pos (digits2_pos p) - 53)
                       - inject_Z (Z.pos p))
                 <= (1 # 4503599627370496) * inject_Z (Z.pos p))%Q).
  { intros p Hp. pose proof (digits_of_small p Hp) as Hd.
    split; [apply mantissaOf_digits, Hd |]. split; [lia |].
    rewrite (SFvalue_canonical false p Hd).
    setoid_replace (inject_Z (Z.pos p) - inject_Z (Z.pos p))%Q with 0%Q by ring.
    apply Qmult_le_0_compat; [discriminate |].
    change 0%Q with (inject_Z 0). rewrite <- Zle_Qle. lia. }
  destruct b as [| pb | pb], a as [| pa | pa]; try congruence.
  - exists (Js.mantissaOf pa), (Z.pos (digits2_pos pa) - 53).
    split; [reflexivity |]. apply (Hexact pa). lia.
  - exists (Js.mantissaOf pa), (Z.pos (digits2_pos pa) - 53).
    split; [reflexivity |]. apply (Hexact pa). lia.
  - exists (Js.mantissaOf pb), (Z.pos (digits2_pos pb) - 53).
    split; [reflexivity |]. apply (Hexact pb). lia.
  - apply (SFsub_canonical_near false false pb pa); lia.
  - apply (SFsub_canonical_near false true pb pa); lia.
  - exists (Js.mantissaOf pb), (Z.pos (digits2_pos pb) - 53).
    split; [reflexivity |]. apply (Hexact pb). lia.
  - apply (SFsub_canonical_near true false pb pa); lia.
  - apply (SFsub_canonical_near true true pb pa); lia.
Qed.

(** ** Day differences *)

Lemma Qfloor_unique (x : Q) (k : Z) :
  (inject_Z k <= x)%Q -> (x < inject_Z k + 1)%Q -> Qfloor x = k.
Proof.
  intros Hlo Hhi.
  pose proof (Qfloor_le x) as Hf1. pose proof (Qlt_floor x) as Hf2.
  assert (H1 : (inject_Z k < inject_Z (Qfloor x + 1))%Q) by (eapply Qle_lt_trans; eassumption).
  assert (H2 : (inject_Z (Qfloor x) < inject_Z (k + 1))%Q).
  { rewrite inject_Z_plus. eapply Qle_lt_trans; eassumption. }
  rewrite <- Zlt_Qlt in H1, H2. lia.
Qed.

(** Two roundings, of a difference and of its quotient by the length of
    a day, leave a number of days that is within twelve hours less one
    second of an integer at less than a half from it. *)
Lemma day_quotient_bound (A M1 W M2 D : Q) :
  (0 <= A)%Q -> (A <= 17280000000000000 # 1)%Q ->
  (Qabs (M1 - A) <= (1 # 4503599627370496) * A)%Q ->
  (W * (86400000 # 1) == M1)%Q ->
  (Qabs (M2 - W) <= (1 # 4503599627370496) * W)%Q ->
  (Qabs (A - D * (86400000 # 1)) <= 43199000 # 1)%Q ->
  (D - (1 # 2) < M2 /\ M2 < D + (1 # 2))%Q.
Proof.
  intros HA0 HA H1 HW H2 HD.
  apply Qabs_Qle_condition in H1, H2, HD.
  destruct H1 as [H1a H1b], H2 as [H2a H2b], HD as [HDa HDb].
  split; lra.
Qed.

Lemma sub_ofZ_same (a : Z) :
  Z.abs a < 2 ^ 53 -> Prim2SF (Js.ofZ a - Js.ofZ a)%float = S754_zero false.
Proof.
  intros Ha. rewrite sub_spec, Prim2SF_ofZ by exact Ha.
  destruct a as [| p | p]; [reflexivity | |];
    unfold SF64sub, SFsub; cbn [cond_Zopp]; rewrite Z.min_id.
  - rewrite Z.sub_diag. reflexivity.
  - rewrite Z.sub_diag. reflexivity.
Qed.

Lemma dayDifference_same (a : Z) :
  Z.abs a <= JsDate.maxTime ->
  Js.Math_round ((Js.ofZ a - Js.ofZ a) / (1000 * 60 * 60 * 24))%float = 0%float.
Proof.
  intros Ha. unfold JsDate.maxTime in Ha.
  assert (Hq : ((Js.ofZ a - Js.ofZ a) / (1000 * 60 * 60 * 24))%float = 0%float).
  { apply Prim2SF_inj. rewrite div_spec, sub_ofZ_same.
    - reflexivity.
    - change (2 ^ 53) with 9007199254740992. lia. }
  rewrite Hq. reflexivity.
Qed.

Lemma dayDifference_value (a b D : Z) :
  Z.abs a <= JsDate.maxTime -> Z.abs b <= JsDate.maxTime ->
  a <> b -> D <> 0 ->
  Z.abs (b - a - D * 86400000) <= 43199000 ->
  Js.Math_round ((Js.ofZ b - Js.ofZ a) / (1000 * 60 * 60 * 24))%float = Js.ofZ D.
Proof.
  intros Ha Hb Hne HD0 Hnear. unfold JsDate.maxTime in Ha, Hb.
  destruct (sub_ofZ_near a b) as (m1 & e1 & Hsub & Hd1 & He1 & Hv1);
    try (change (2 ^ 53) with 9007199254740992; lia); try exact Hne.
  set (s := b - a <? 0) in *.
  destruct (SFdiv_near s false m1 5798205849600000 e1 (-26))
    as (m2 & e2 & Hdiv & Hd2 & He2 & Hv2); try assumption; try reflexivity; try lia.
  rewrite xorb_false_r in Hdiv.
  assert (Hx : Prim2SF ((Js.ofZ b - Js.ofZ a) / (1000 * 60 * 60 * 24))%float
               = S754_finite s m2 e2).
  { rewrite div_spec, Hsub. exact Hdiv. }
  assert (Hround : Js.roundHalfUp s m2 e2 1 = D).
  { rewrite roundHalfUp_Qfloor.
    assert (Hc : (SFvalue false 5798205849600000 (-26) == 86400000 # 1)%Q) by reflexivity.
    rewrite Hc in Hv2.
    assert (HA0 : (0 <= inject_Z (Z.abs (b - a)))%Q).
    { change 0%Q with (inject_Z 0). rewrite <- Zle_Qle. lia. }
    assert (HA : (inject_Z (Z.abs (b - a)) <= 17280000000000000 # 1)%Q).
    { change (17280000000000000 # 1)%Q with (inject_Z 17280000000000000).
      rewrite <- Zle_Qle. lia. }
    assert (HW : (SFvalue false m1 e1 / (86400000 # 1) * (86400000 # 1)
                  == SFvalue false m1 e1)%Q) by (field; discriminate).
    change (inject_Z 1) with 1%Q. rewrite Qmult_1_r, (SFvalue_signed s m2 e2).
    destruct (Z.ltb_spec (b - a) 0) as [Hneg | Hpos]; subst s; cbv iota.
    - (* toDate before fromDate *)
      assert (HD : (Qabs (inject_Z (Z.abs (b - a)) - inject_Z (- D) * (86400000 # 1))
                    <= 43199000 # 1)%Q).
      { change (86400000 # 1)%Q with (inject_Z 86400000).
        change (43199000 # 1)%Q with (inject_Z 43199000).
        unfold Qminus.
        rewrite <- inject_Z_mult, <- inject_Z_opp, <- inject_Z_plus.
        apply Qabs_Qle_condition.
        change (- inject_Z 43199000)%Q with (inject_Z (- 43199000)).
        rewrite <- !Zle_Qle. lia. }
      destruct (day_quotient_bound _ _ _ _ _ HA0 HA Hv1 HW Hv2 HD) as [Hlo Hhi].
      rewrite inject_Z_opp in Hlo, Hhi.
      apply Qfloor_unique; lra.
    - assert (HD : (Qabs (inject_Z (Z.abs (b - a)) - inject_Z D * (86400000 # 1))
                    <= 43199000 # 1)%Q).
      { change (86400000 # 1)%Q with (inject_Z 86400000).
        change (43199000 # 1)%Q with (inject_Z 43199000).
        unfold Qminus.
        rewrite <- inject_Z_mult, <- inject_Z_opp, <- inject_Z_plus.
        apply Qabs_Qle_condition.
        change (- inject_Z 43199000)%Q with (inject_Z (- 43199000)).
        rewrite <- !Zle_Qle. lia. }
      destruct (day_quotient_bound _ _ _ _ _ HA0 HA Hv1 HW Hv2 HD) as [Hlo Hhi].
      apply Qfloor_unique; lra. }
  unfold Js.Math_round. rewrite Hx.
  replace (0 <=? e2) with false by (symmetry; apply Z.leb_gt; lia).
  rewrite Hround. destruct D; [congruence | reflexivity | reflexivity].
Qed.

Lemma isNaN_ofZ (z : Z) : Z.abs z < 2 ^ 53 -> Js.isNaN (Js.ofZ z) = false.
Proof.
  intros Hz. unfold Js.isNaN, is_nan. rewrite eqb_spec, Prim2SF_ofZ by exact Hz.
  destruct z as [| p | p]; cbn [SFeqb SFcompare negb].
  - reflexivity.
  - rewrite Z.compare_refl, Pos.compare_cont_refl. reflexivity.
  - rewrite Z.compare_refl, Pos.compare_cont_refl. reflexivity.
Qed.




(** Day differences across the shift of [shiftingZone]: the local day
    that loses an hour still counts as one day.  In [dateLineZone] the
    dates after the change, and the dates before it, are as many days
    apart as the calendar says; from day 15 337 to day 15 339, with the
    skipped day between them, one day passes. *)
Example date_difference_scenario :
  dayDifference (Some (JsDate.localMidnight shiftingZone 18999))
                (Some (JsDate.localMidnight shiftingZone 18999)) = 0%float
  /\ dayDifference (Some (JsDate.localMidnight shiftingZone 18999))
                   (Some (JsDate.localMidnight shiftingZone 19000)) = 1%float
  /\ dayDifference (Some (JsDate.localMidnight shiftingZone 19000))
                   (Some (JsDate.localMidnight shiftingZone 18990)) = (-10)%float
  /\ JsDate.localMidnight shiftingZone 19000 - JsDate.localMidnight shiftingZone 18999
     = 82800000
  /\ dayDifference (Some (JsDate.localMidnight dateLineZone 19800))
                   (Some (JsDate.localMidnight dateLineZone 19803)) = 3%float
  /\ dayDifference (Some (JsDate.localMidnight dateLineZone 15330))
                   (Some (JsDate.localMidnight dateLineZone 15337)) = 7%float
  /\ dayDifference (Some (JsDate.localMidnight dateLineZone 15337))
                   (Some (JsDate.localMidnight dateLineZone 15339)) = 1%float
  /\ differenceMode (Some None) (Some (Some 0)) = None
  /\ differenceMode None (Some (Some 0)) = None.
Proof. repeat split; vm_compute; reflexivity. Qed.

(* ================================================================= *)
(** * Further properties *)

(** ** Order and small results *)

(** A number that is at most an integer of at most 53 bits has a value
    at most that integer. *)
Lemma leb_ofZ_value (x : number) (m : positive) (e : Z) (b : positive) :
  Prim2SF x = S754_finite false m e -> Z.pos b < 2 ^ 53 ->
  (x <=? Js.ofZ (Z.pos b))%float = true ->
  (SFvalue false m e <= inject_Z (Z.pos b))%Q.
Proof.
  intros Hx Hb Hle.
  pose proof (digits_of_small b Hb) as Hdb.
  rewrite leb_spec, Hx, (Prim2SF_ofZ_pos b Hdb) in Hle.
  rewrite <- (SFvalue_canonical false b Hdb), !magnitude_pow2.
  pose proof (mantissaOf_digits b Hdb) as HdB.
  pose proof (digits2_bounds (Js.mantissaOf b)) as [HB1 _]. rewrite HdB in HB1.
  destruct (finite_mantissa_bound x false m e Hx) as [Hdm _].
  pose proof (digits2_bounds m) as [_ Hm2].
  assert (Hm : Z.pos m < 2 ^ 53).
  { eapply Z.lt_le_trans; [exact Hm2 |]. apply Z.pow_le_mono_r; lia. }
  set (eB := Z.pos (digits2_pos b) - 53) in *.
  set (mB := Js.mantissaOf b) in *.
  unfold SFleb, SFcompare in Hle.
  destruct (Z.compare_spec e eB) as [E | L | G].
  - subst e. apply Qmult_le_compat_r; [| apply Qlt_le_weak, pow2_pos].
    rewrite <- Zle_Qle.
    change (Pos.compare_cont Eq m mB) with (Pos.compare m mB) in Hle.
    destruct (Pos.compare_spec m mB) as [C | C | C]; try discriminate; lia.
  - apply Qle_trans with (inject_Z (2 ^ 53) * pow2 e)%Q.
    + apply Qmult_le_compat_r; [| apply Qlt_le_weak, pow2_pos].
      rewrite <- Zle_Qle. lia.
    + apply Qle_trans with (inject_Z (2 ^ 52) * pow2 eB)%Q.
      * rewrite <- !pow2_nonneg, <- !pow2_add by lia. apply pow2_le. lia.
      * apply Qmult_le_compat_r; [| apply Qlt_le_weak, pow2_pos].
        rewrite <- Zle_Qle. exact HB1.
  - discriminate.
Qed.

Lemma truncate_Qfloor (m : positive) (e : Z) :
  Js.truncate false m e = Qfloor (SFvalue false m e).
Proof.
  unfold Js.truncate, SFvalue. destruct (Z.leb_spec 0 e).
  - now rewrite Qfloor_Z.
  - unfold Qfloor. rewrite Z2Pos.id by (apply Z.pow_pos_nonneg; lia). reflexivity.
Qed.

(** A finite number that is not below zero is a zero or positive. *)
Lemma nonneg_cases (x : number) :
  Js.isFinite x = true -> (0 <=? x)%float = true ->
  (exists s, Prim2SF x = S754_zero s) \/ (exists m e, Prim2SF x = S754_finite false m e).
Proof.
  intros Hfin Hle. rewrite leb_spec in Hle.
  change (Prim2SF 0%float) with (S754_zero false) in Hle.
  destruct (isFinite_cases x Hfin) as [(s & Hx) | (s & m & e & Hx)].
  - left. now exists s.
  - right. rewrite Hx in Hle. destruct s; [discriminate |]. now exists m, e.
Qed.

(** Rounding a mantissa below the normal range: the result is a zero or
    a subnormal number. *)
Lemma round_aux_tiny (s : bool) (M : positive) (E : Z) (l : location) :
  E < -1074 -> Z.pos (digits2_pos M) + E - 53 < -1074 ->
  binary_round_aux prec emax s (Z.pos M) E l = S754_zero s
  \/ exists m', binary_round_aux prec emax s (Z.pos M) E l = S754_finite s m' (-1074)
                /\ Z.pos m' <= 2 ^ 52.
Proof.
  intros HE Hd.
  pose proof (digits2_bounds M) as [_ HM2].
  set (d := Z.pos (digits2_pos M)) in *. set (n := -1074 - E).
  assert (Hn : 0 < n) by (subst n; lia).
  assert (Hpn : 0 < 2 ^ n) by (apply Z.pow_pos_nonneg; lia).
  set (q := Z.pos M / 2 ^ n).
  assert (Hq : 0 <= q < 2 ^ 52).
  { subst q. split; [apply Z.div_pos; lia |].
    apply Z.div_lt_upper_bound; [lia |].
    rewrite <- Z.pow_add_r by lia.
    eapply Z.lt_le_trans; [exact HM2 |]. apply Z.pow_le_mono_r; subst n; lia. }
  unfold binary_round_aux.
  assert (H1 : shr_fexp prec emax (Z.pos M) E l = shr (shr_record_of_loc (Z.pos M) l) E n).
  { unfold shr_fexp. cbn [Zdigits2]. fold d. f_equal.
    unfold fexp, SpecFloat.emin, prec, emax. subst n. lia. }
  rewrite H1.
  destruct (shr_value (shr_record_of_loc (Z.pos M) l) E n) as [Hm1 He1];
    [rewrite shr_m_of_loc; lia | lia |].
  rewrite shr_m_of_loc in Hm1. fold q in Hm1.
  destruct (shr (shr_record_of_loc (Z.pos M) l) E n) as [mrs1 e1].
  cbn [fst snd] in Hm1, He1. subst e1. replace (E + n) with (-1074) by (subst n; lia).
  assert (Hq' : 0 <= round_nearest_even (shr_m mrs1) (loc_of_shr_record mrs1) <= 2 ^ 52).
  { destruct (round_nearest_even_cases (shr_m mrs1) (loc_of_shr_record mrs1)) as [Hr | Hr];
      rewrite Hr, Hm1; lia. }
  destruct (round_nearest_even (shr_m mrs1) (loc_of_shr_record mrs1)) as [| p | p]; try lia.
  - left. reflexivity.
  - right. exists p.
    assert (Hdp : Z.pos (digits2_pos p) <= 53).
    { pose proof (digits2_bounds p) as [Hlo _].
      assert (Z.pos (digits2_pos p) - 1 < 53); [| lia].
      apply (Z.pow_lt_mono_r_iff 2); try lia.
      all: change (2 ^ 53) with (2 * 2 ^ 52); lia. }
    assert (H2 : shr_fexp prec emax (Z.pos p) (-1074) loc_Exact
                 = ({| shr_m := Z.pos p; shr_r := false; shr_s := false |}, -1074)).
    { unfold shr_fexp. cbn [Zdigits2 shr_record_of_loc].
      replace (fexp prec emax (Z.pos (digits2_pos p) + -1074) - -1074) with 0
        by (unfold fexp, SpecFloat.emin, prec, emax; lia).
      reflexivity. }
    rewrite H2. cbn [shr_m]. split; [reflexivity | lia].
Qed.

Lemma truncate_small (m' : positive) (e' : Z) :
  Z.pos (digits2_pos m') <= 53 -> e' <= -53 -> Js.truncate false m' e' = 0.
Proof.
  intros Hd He. unfold Js.truncate.
  replace (0 <=? e') with false by (symmetry; apply Z.leb_gt; lia).
  apply Z.div_small. split; [lia |].
  pose proof (digits2_bounds m') as [_ Hm].
  eapply Z.lt_le_trans; [exact Hm |]. apply Z.pow_le_mono_r; lia.
Qed.

(** A thousand times a number between 0 and 4 102 444 800, as a Date. *)
Lemma mul_1000_date (x : number) (m : positive) (e : Z) :
  Prim2SF x = S754_finite false m e ->
  (SFvalue false m e <= inject_Z 4102444800)%Q ->
  exists t, JsDate.ofNumber (x * 1000)%float = Some t /\ 0 <= t <= 4102444800000.
Proof.
  intros Hx Hv.
  destruct (finite_mantissa_bound x false m e Hx) as [Hdm He].
  unfold JsDate.ofNumber. rewrite mul_spec, Hx.
  change (Prim2SF 1000%float) with (S754_finite false 8796093022208000 (-43)).
  assert (Hclip : forall t, 0 <= t <= 4102444800000 -> JsDate.timeClip t = Some t).
  { intros t Ht. unfold JsDate.timeClip, JsDate.maxTime.
    replace (8640000000000000 <? Z.abs t) with false; [reflexivity |].
    symmetry. apply Z.ltb_ge. lia. }
  destruct (Z.eq_dec e (-1074)) as [Esub | Enorm].
  - (* the smallest exponent: the product is below 1 *)
    subst e. unfold SF64mul, SFmul. cbn [xorb].
    pose proof (digits2_product m 8796093022208000) as [_ HdM].
    change (Z.pos (digits2_pos 8796093022208000)) with 53 in HdM.
    set (M := (m * 8796093022208000)%positive) in *.
    replace (-1074 + -43) with (-1117) by lia.
    destruct (Z.le_gt_cases (-1074) (Z.pos (digits2_pos M) + -1117 - 53)) as [Hn | Ht].
    + destruct (round_aux_near false M (-1117) loc_Exact)
        as (m' & e' & Hr & Hd' & He' & _); try lia.
      rewrite Hr. exists 0. rewrite truncate_small by lia.
      split; [apply Hclip; lia | lia].
    + destruct (round_aux_tiny false M (-1117) loc_Exact) as [Hr | (m' & Hr & Hm')]; try lia.
      * rewrite Hr. exists 0. split; [reflexivity | lia].
      * rewrite Hr. exists 0.
        assert (Js.truncate false m' (-1074) = 0) as ->.
        { unfold Js.truncate. cbn [Z.leb Z.compare]. apply Z.div_small.
          split; [lia |]. eapply Z.le_lt_trans; [exact Hm' |].
          apply Z.pow_lt_mono_r; lia. }
        split; [apply Hclip; lia | lia].
  - (* a normal number *)
    assert (Hd53 : Z.pos (digits2_pos m) = 53) by (apply (normal_digits x false m e Hx); lia).
    assert (Hup : e <= -20).
    { destruct (Z.le_gt_cases e (-20)) as [L | G]; [exact L | exfalso].
      pose proof (digits2_bounds m) as [Hm1 _]. rewrite Hd53 in Hm1.
      rewrite magnitude_pow2 in Hv.
      assert (Hlow : (inject_Z (2 ^ 52) * pow2 (-19) <= inject_Z (Z.pos m) * pow2 e)%Q).
      { apply Qle_trans with (inject_Z (2 ^ 52) * pow2 e)%Q.
        - apply Qmult_le_l; [reflexivity | apply pow2_le; lia].
        - apply Qmult_le_compat_r; [| apply Qlt_le_weak, pow2_pos].
          rewrite <- Zle_Qle. exact Hm1. }
      assert (Hc : (inject_Z (2 ^ 52) * pow2 (-19) == inject_Z 8589934592)%Q) by reflexivity.
      rewrite Hc in Hlow.
      assert (Habs : (inject_Z 8589934592 <= inject_Z 4102444800)%Q)
        by (eapply Qle_trans; eassumption).
      rewrite <- Zle_Qle in Habs. lia. }
    destruct (SFmul_near false false m 8796093022208000 e (-43))
      as (m' & e' & Hr & Hd' & He' & Hval); try assumption; try reflexivity; try lia.
    cbn [xorb] in Hr. rewrite Hr.
    assert (Hc : (SFvalue false 8796093022208000 (-43) == inject_Z 1000)%Q) by reflexivity.
    rewrite Hc in Hval. apply Qabs_Qle_condition in Hval. destruct Hval as [_ Hhi].
    pose proof (SFvalue_positive m' e') as Hpos.
    pose proof (SFvalue_positive m e) as Hposx.
    exists (Js.truncate false m' e'). rewrite truncate_Qfloor.
    assert (Hfl : 0 <= Qfloor (SFvalue false m' e') <= 4102444800000).
    { pose proof (Qfloor_le (SFvalue false m' e')) as Hf1.
      pose proof (Qlt_floor (SFvalue false m' e')) as Hf2.
      split.
      - assert (H0 : (inject_Z 0 < inject_Z (Qfloor (SFvalue false m' e') + 1))%Q).
        { eapply Qlt_trans; [exact Hpos | exact Hf2]. }
        rewrite <- Zlt_Qlt in H0. lia.
      - assert (H1 : (inject_Z (Qfloor (SFvalue false m' e')) < inject_Z 4102444800001)%Q).
        { eapply Qle_lt_trans; [exact Hf1 |].
          change (inject_Z 1000) with (1000 # 1)%Q in Hhi.
          change (inject_Z 4102444800) with (4102444800 # 1)%Q in Hv.
          change (inject_Z 4102444800001) with (4102444800001 # 1)%Q. lra. }
        rewrite <- Zlt_Qlt in H1. lia. }
    split; [apply Hclip; exact Hfl | exact Hfl].
Qed.

(** ** Exact sums of integers *)

(** Rounding the integer [p], written with the exponent [ez <= 0], when
    [p] has at most 53 bits: nothing is lost. *)
Lemma binary_round_exact (s : bool) (p m0 : positive) (ez : Z) :
  Z.pos p < 2 ^ 53 -> ez <= 0 -> Z.pos m0 = Z.pos p * 2 ^ (- ez) ->
  binary_round prec emax s m0 ez
  = S754_finite s (Js.mantissaOf p) (Z.pos (digits2_pos p) - 53).
Proof.
  intros Hp Hez Hm0.
  pose proof (digits_of_small p Hp) as Hdp.
  pose proof (mantissaOf_value p Hdp) as Vp.
  pose proof (mantissaOf_digits p Hdp) as Dp.
  pose proof (digits2_shift p (- ez) m0 ltac:(lia) Hm0) as Hd0.
  unfold binary_round.
  set (dp := Z.pos (digits2_pos p)) in *.
  assert (Hdp0 : 0 < dp) by (subst dp; lia).
  replace (fexp prec emax (Z.pos (digits2_pos m0) + ez)) with (dp - 53)
    by (unfold fexp, SpecFloat.emin, prec, emax; lia).
  destruct (Z.le_gt_cases (dp - 53) ez) as [Hshift | Hkeep].
  - destruct (shl_align_value m0 ez (dp - 53) Hshift) as [Hv He].
    destruct (shl_align m0 ez (dp - 53)) as [mz ez']. cbn [fst snd] in Hv, He. subst ez'.
    assert (Emz : mz = Js.mantissaOf p).
    { apply Pos2Z.inj. rewrite Hv, Vp, Hm0, <- Z.mul_assoc, <- Z.pow_add_r by lia.
      do 2 f_equal. lia. }
    rewrite Emz. apply round_aux_exact0; [exact Dp | lia].
  - assert (Hal : shl_align m0 ez (dp - 53) = (m0, ez)).
    { unfold shl_align. destruct (dp - 53 - ez) eqn:Ed; try reflexivity. lia. }
    rewrite Hal.
    replace (dp - 53) with (ez + (dp - 53 - ez)) by lia.
    apply round_aux_scaled; try lia; try exact Dp.
    rewrite Hm0, Vp, <- Z.mul_assoc, <- Z.pow_add_r by lia. do 2 f_equal. lia.
Qed.

Lemma normalize_exact (z ez : Z) :
  Z.abs z < 2 ^ 53 -> ez <= 0 ->
  binary_normalize prec emax (z * 2 ^ (- ez)) ez false = Prim2SF (Js.ofZ z).
Proof.
  intros Hz Hez. rewrite (Prim2SF_ofZ z Hz).
  assert (Hp : 0 < 2 ^ (- ez)) by (apply Z.pow_pos_nonneg; lia).
  unfold binary_normalize.
  destruct z as [| p | p].
  - reflexivity.
  - destruct (Z.pos p * 2 ^ (- ez)) as [| m0 | m0] eqn:Em; try lia.
    apply binary_round_exact; [lia | lia | now symmetry].
  - destruct (Z.neg p * 2 ^ (- ez)) as [| m0 | m0] eqn:Em; try lia.
    apply binary_round_exact; [lia | lia |].
    assert (E : - Z.neg m0 = - (Z.neg p * 2 ^ (- ez))) by (rewrite Em; reflexivity).
    change (- Z.neg m0) with (Z.pos m0) in E. rewrite E. lia.
Qed.

Lemma aligned_canonical (s : bool) (p : positive) (ez : Z) :
  Z.pos p < 2 ^ 53 -> ez <= Z.pos (digits2_pos p) - 53 ->
  cond_Zopp s (Z.pos (fst (shl_align (Js.mantissaOf p) (Z.pos (digits2_pos p) - 53) ez)))
  = (if s then Z.neg p else Z.pos p) * 2 ^ (- ez).
Proof.
  intros Hp Hez. pose proof (digits_of_small p Hp) as Hdp.
  destruct (shl_align_value (Js.mantissaOf p) (Z.pos (digits2_pos p) - 53) ez Hez) as [Hv _].
  rewrite Hv, (mantissaOf_value p Hdp), <- Z.mul_assoc, <- Z.pow_add_r by lia.
  replace (53 - Z.pos (digits2_pos p) + (Z.pos (digits2_pos p) - 53 - ez)) with (- ez) by lia.
  destruct s; cbn [cond_Zopp]; lia.
Qed.

(** The sum of two integers of at most 53 bits is exact when it has at
    most 53 bits. *)
Lemma add_ofZ_exact (a b : Z) :
  Z.abs a < 2 ^ 53 -> Z.abs b < 2 ^ 53 -> Z.abs (a + b) < 2 ^ 53 ->
  (Js.ofZ a + Js.ofZ b)%float = Js.ofZ (a + b).
Proof.
  intros Ha Hb Hab. apply Prim2SF_inj.
  rewrite add_spec, (Prim2SF_ofZ a Ha), (Prim2SF_ofZ b Hb).
  assert (Hgen : forall (sa sb : bool) (pa pb : positive),
             Z.pos pa < 2 ^ 53 -> Z.pos pb < 2 ^ 53 ->
             Z.abs ((if sa then Z.neg pa else Z.pos pa) + (if sb then Z.neg pb else Z.pos pb))
             < 2 ^ 53 ->
             SF64add (S754_finite sa (Js.mantissaOf pa) (Z.pos (digits2_pos pa) - 53))
                     (S754_finite sb (Js.mantissaOf pb) (Z.pos (digits2_pos pb) - 53))
             = Prim2SF (Js.ofZ ((if sa then Z.neg pa else Z.pos pa)
                                + (if sb then Z.neg pb else Z.pos pb)))).
  { intros sa sb pa pb Hpa Hpb Hs. unfold SF64add, SFadd.
    pose proof (digits_of_small pa Hpa). pose proof (digits_of_small pb Hpb).
    set (ez := Z.min (Z.pos (digits2_pos pa) - 53) (Z.pos (digits2_pos pb) - 53)).
    rewrite (aligned_canonical sa pa ez Hpa) by (subst ez; lia).
    rewrite (aligned_canonical sb pb ez Hpb) by (subst ez; lia).
    rewrite <- Z.mul_add_distr_r. apply normalize_exact; [exact Hs | subst ez; lia]. }
  destruct a as [| pa | pa], b as [| pb | pb]; try reflexivity;
    try (cbn [Z.add]; rewrite Prim2SF_ofZ by lia; reflexivity).
  - apply (Hgen false false pa pb); lia.
  - apply (Hgen false true pa pb); lia.
  - apply (Hgen true false pa pb); lia.
  - apply (Hgen true true pa pb); lia.
Qed.

(* ================================================================= *)
(** * Further properties *)

(** ** Convert succeeds exactly on the units of the table *)

Lemma convertWith_returns_iff (units : Js.object Unit) (v : number) (fromUnitId : string) :
  wellKeyed units ->
  (exists results, convertWith units v fromUnitId = Return results)
  <-> In fromUnitId (Js.keys units).
Proof.
  intros Hk. split.
  - intros (results & Hr).
    destruct (in_dec string_dec fromUnitId (Js.keys units)) as [Hin | Hnot]; [exact Hin |].
    exfalso. unfold convertWith, Js.get in Hr. rewrite (getOwn_notIn _ _ Hnot) in Hr.
    destruct (existsb (String.eqb fromUnitId) objectPrototypeKeys); discriminate.
  - intros Hin. destruct (convertWith_own units Hk v fromUnitId Hin) as (results & Hr & _).
    now exists results.
Qed.

(** X1.  Each of the four convert functions returns a result list
    exactly when the unit id is a key of its table; on every other id it
    throws.  When the id is in the table of no category and is not the
    name of a member of Object.prototype, the linear engines throw
    Error "Invalid unit ID: <id>". *)
Theorem convert_returns_iff_known (c : LinearCategory) (v : number) (fromUnitId : string) :
  ((exists results, convertIn c v fromUnitId = Return results)
   <-> In fromUnitId (Js.keys (unitsOf c)))
  /\ ((exists results, convertTemperature v fromUnitId = Return results)
      <-> In fromUnitId (Js.keys temperatureUnits))
  /\ (~ In fromUnitId (Js.keys (unitsOf c)) ->
      exists e, convertIn c v fromUnitId = Throw e
                /\ (~ In fromUnitId Js.objectPrototypeKeys ->
                    e = Error ("Invalid unit ID: " ++ fromUnitId))).
Proof.
  split; [| split].
  - destruct c; apply convertWith_returns_iff;
      first [ exact (tables_wellKeyed Length) | exact (tables_wellKeyed Volume)
            | exact (tables_wellKeyed Weight) ].
  - split.
    + intros (results & Hr).
      destruct (in_dec string_dec fromUnitId (Js.keys temperatureUnits)) as [Hin | Hnot];
        [exact Hin |].
      rewrite (convertTemperature_unknown v fromUnitId Hnot) in Hr. discriminate.
    + simpl. intros [<- | [<- | [<- | []]]]; eexists; reflexivity.
  - intros Hnot.
    assert (H : forall units,
               ~ In fromUnitId (Js.keys units) ->
               exists e, convertWith units v fromUnitId = Throw e
                         /\ (~ In fromUnitId Js.objectPrototypeKeys ->
                             e = Error ("Invalid unit ID: " ++ fromUnitId))).
    { intros units Hn. unfold convertWith, Js.get. rewrite (getOwn_notIn _ _ Hn).
      destruct (existsb (String.eqb fromUnitId) objectPrototypeKeys) eqn:E.
      - eexists. split; [reflexivity |]. intros Hp. exfalso.
        assert (existsb (String.eqb fromUnitId) objectPrototypeKeys = false); [| congruence].
        apply not_true_is_false. intros Hex. apply existsb_exists in Hex.
        destruct Hex as (k & Hk & Heq). apply String.eqb_eq in Heq. subst k. contradiction.
      - eexists. split; reflexivity. }
    destruct c; apply H; exact Hnot.
Qed.

(** ** Lookup by display name *)

Lemma find_by_key {A} (key : A -> string) (us : list A) (u : A) (target : string) :
  NoDup (map key us) -> In u us -> key u = target ->
  find (fun v => String.eqb (key v) target) us = Some u.
Proof.
  induction us as [| w rest IH]; simpl; [tauto |].
  intros Hnd Hin Hk. inversion Hnd as [| ? ? Hfresh Hrest]; subst.
  destruct Hin as [-> | Hin].
  - now rewrite String.eqb_refl.
  - destruct (String.eqb_spec (key w) (key u)) as [E | E].
    + exfalso. apply Hfresh. rewrite E. now apply in_map.
    + now apply IH.
Qed.

Lemma find_ext {A} (f g : A -> bool) (us : list A) :
  (forall v, In v us -> f v = g v) -> find f us = find g us.
Proof.
  induction us as [| w rest IH]; simpl; [reflexivity |].
  intros H. rewrite (H w) by now left.
  destruct (g w); [reflexivity |]. apply IH. intros v Hv. apply H. now right.
Qed.

Lemma find_lowered {A} (toLowerCase : string -> string) (nm : A -> string)
    (us : list A) (u : A) (spelled : string) :
  lowersAscii toLowerCase ->
  forallb (fun v => isAscii (nm v)) us = true ->
  NoDup (map (fun v => asciiLower (nm v)) us) ->
  In u us -> isAscii spelled = true -> asciiLower spelled = asciiLower (nm u) ->
  find (fun v => String.eqb (toLowerCase (nm v)) (toLowerCase spelled)) us = Some u.
Proof.
  intros Hlow Hascii Hnd Hin Hsp Heq.
  rewrite (find_ext _ (fun v => String.eqb (asciiLower (nm v)) (asciiLower (nm u)))).
  - apply (find_by_key (fun v => asciiLower (nm v))); auto.
  - intros v Hv. rewrite forallb_forall in Hascii.
    rewrite (Hlow (nm v)) by (apply Hascii, Hv). rewrite (Hlow spelled Hsp), Heq. reflexivity.
Qed.

(** X2.  Every display name of a table resolves to the id of its unit,
    whatever the case of its letters: for a unit [u] of a category and
    a string of characters below 128 that equals [u]'s name when both
    are lower-cased, [getUnitIdFromName] returns [u]'s id; likewise for
    the temperature units.  The host's [toLowerCase] is assumed to
    lower-case such strings letter by letter. *)
Theorem listed_name_resolves (toLowerCase : string -> string) (spelled : string) :
  lowersAscii toLowerCase ->
  isAscii spelled = true ->
  (forall c u,
      In u (Js.values (unitsOf c)) -> asciiLower spelled = asciiLower (name u) ->
      getUnitIdFromName toLowerCase (unitsOf c) spelled = Some (id u)
      /\ In (id u) (Js.keys (unitsOf c)))
  /\ (forall u,
         In u (Js.values temperatureUnits) -> asciiLower spelled = asciiLower (tname u) ->
         getTemperatureUnitId toLowerCase spelled = Some (tid u)
         /\ In (tid u) (Js.keys temperatureUnits)).
Proof.
  intros Hlow Hsp. split.
  - intros c u Hin Heq. split.
    + unfold getUnitIdFromName.
      rewrite (find_lowered toLowerCase name (Js.values (unitsOf c)) u spelled);
        try assumption; try reflexivity.
      * destruct c; reflexivity.
      * destruct c; apply NoDup_strings; reflexivity.
    + rewrite <- (ids_of_entries (unitsOf c)) by apply tables_wellKeyed.
      now apply in_map.
  - intros u Hin Heq. split.
    + unfold getTemperatureUnitId.
      rewrite (find_lowered toLowerCase tname (Js.values temperatureUnits) u spelled);
        try assumption; try reflexivity.
      apply NoDup_strings; reflexivity.
    + simpl in Hin. destruct Hin as [<- | [<- | [<- | []]]]; simpl; tauto.
Qed.

Lemma listed_name_resolves_witness :
  (forall c u,
      In u (Js.values (unitsOf c)) -> asciiLower "KILOmeters" = asciiLower (name u) ->
      getUnitIdFromName asciiLower (unitsOf c) "KILOmeters" = Some (id u)
      /\ In (id u) (Js.keys (unitsOf c)))
  /\ (forall u,
         In u (Js.values temperatureUnits) -> asciiLower "KILOmeters" = asciiLower (tname u) ->
         getTemperatureUnitId asciiLower "KILOmeters" = Some (tid u)
         /\ In (tid u) (Js.keys temperatureUnits)).
Proof.
  apply (listed_name_resolves asciiLower "KILOmeters"%string).
  - intros s _. reflexivity.
  - reflexivity.
Defined.

Example name_lookup_scenario :
  getLengthUnitId asciiLower "KILOmeters" = Some "kilometer"%string
  /\ getLengthUnitId asciiLower "Kilometer" = None
  /\ getWeightUnitId asciiLower "us tons" = Some "usTon"%string
  /\ getTemperatureUnitId asciiLower "kelvin" = Some "kelvin"%string.
Proof. repeat split; reflexivity. Qed.

(** ** The converter form *)

Lemma getUnitIdFromName_key (toLowerCase : string -> string) (units : Js.object Unit)
    (name' unitId' : string) :
  Forall (fun kv => id (snd kv) = fst kv) units ->
  getUnitIdFromName toLowerCase units name' = Some unitId' ->
  In unitId' (Js.keys units).
Proof.
  intros Hk. unfold getUnitIdFromName.
  destruct (find _ (Js.values units)) as [u |] eqn:Hf; [| discriminate].
  simpl. intros E. injection E as <-.
  apply find_some in Hf. destruct Hf as [Hin _].
  rewrite <- (ids_of_entries units Hk). now apply in_map.
Qed.

Lemma getTemperatureUnitId_key (toLowerCase : string -> string) (name' unitId' : string) :
  getTemperatureUnitId toLowerCase name' = Some unitId' ->
  In unitId' (Js.keys temperatureUnits).
Proof.
  unfold getTemperatureUnitId.
  destruct (find _ (Js.values temperatureUnits)) as [u |] eqn:Hf; [| discriminate].
  simpl. intros E. injection E as <-.
  apply find_some in Hf. destruct Hf as [Hin _].
  simpl in Hin. destruct Hin as [<- | [<- | [<- | []]]]; simpl; tauto.
Qed.

(** X3.  [handleConvert] of the converter form, wired to a category's
    [convert] and [getUnitIdFromName] as the tabs wire it, never throws,
    whatever the host's [parseFloat] and [toLowerCase] and whatever the
    form data: when the unit name resolves, the state receives one
    result per other unit of the category (two for temperature) and
    [hasConverted] is set; when it does not, the state is left as it
    is. *)
Theorem handleConvert_never_throws
    (parseFloat : string -> number) (toLowerCase : string -> string)
    (data : UnitConverterForm.FormData) (st : UnitConverterForm.State) :
  (forall c,
      match getUnitIdFromName toLowerCase (unitsOf c) (UnitConverterForm.fromUnit data) with
      | Some unitId' =>
          exists results,
            convertIn c (parseFloat (UnitConverterForm.value data)) unitId' = Return results
            /\ List.length results = (List.length (unitsOf c) - 1)%nat
            /\ UnitConverterForm.handleConvert parseFloat (convertIn c)
                 (getUnitIdFromName toLowerCase (unitsOf c)) data st
               = Return {| UnitConverterForm.results := results;
                           UnitConverterForm.hasConverted := true |}
      | None =>
          UnitConverterForm.handleConvert parseFloat (convertIn c)
            (getUnitIdFromName toLowerCase (unitsOf c)) data st
          = Return st
      end)
  /\ match getTemperatureUnitId toLowerCase (UnitConverterForm.fromUnit data) with
     | Some unitId' =>
         exists results,
           convertTemperature (parseFloat (UnitConverterForm.value data)) unitId'
           = Return results
           /\ List.length results = 2%nat
           /\ UnitConverterForm.handleConvert parseFloat convertTemperature
                (getTemperatureUnitId toLowerCase) data st
              = Return {| UnitConverterForm.results := results;
                          UnitConverterForm.hasConverted := true |}
     | None =>
         UnitConverterForm.handleConvert parseFloat convertTemperature
           (getTemperatureUnitId toLowerCase) data st
         = Return st
     end.
Proof.
  split.
  - intros c. unfold UnitConverterForm.handleConvert.
    destruct (getUnitIdFromName toLowerCase (unitsOf c) (UnitConverterForm.fromUnit data))
      as [unitId' |] eqn:Hid; [| reflexivity].
    pose proof (getUnitIdFromName_key _ _ _ _ (proj1 (tables_wellKeyed c)) Hid) as Hin.
    assert (Hown : exists results,
               convertIn c (parseFloat (UnitConverterForm.value data)) unitId' = Return results
               /\ List.length results = (List.length (unitsOf c) - 1)%nat).
    { destruct c;
        [ destruct (convertWith_own lengthUnits (tables_wellKeyed Length)
                      (parseFloat (UnitConverterForm.value data)) unitId' Hin) as (r & Hr & Hl & _)
        | destruct (convertWith_own volumeUnits (tables_wellKeyed Volume)
                      (parseFloat (UnitConverterForm.value data)) unitId' Hin) as (r & Hr & Hl & _)
        | destruct (convertWith_own weightUnits (tables_wellKeyed Weight)
                      (parseFloat (UnitConverterForm.value data)) unitId' Hin) as (r & Hr & Hl & _) ];
        exists r; split; assumption. }
    destruct Hown as (results & Hr & Hl). exists results.
    split; [exact Hr |]. split; [exact Hl |].
    assert (Hne : String.eqb unitId' "" = false).
    { apply String.eqb_neq. intros ->. destruct c; simpl in Hin;
        repeat (destruct Hin as [Hin | Hin]; [discriminate |]); exact Hin. }
    rewrite Hne, Hr. reflexivity.
  - unfold UnitConverterForm.handleConvert.
    destruct (getTemperatureUnitId toLowerCase (UnitConverterForm.fromUnit data))
      as [unitId' |] eqn:Hid; [| reflexivity].
    pose proof (getTemperatureUnitId_key _ _ _ Hid) as Hin.
    simpl in Hin. destruct Hin as [<- | [<- | [<- | []]]];
      (eexists; split; [reflexivity |]; split; reflexivity).
Qed.

(** ** The domain of the time engine *)

Lemma convertDate_invalid (LocalTZA : Z -> bool -> Z) (timeZoneNamePart : Z -> option string) :
  convertDate LocalTZA timeZoneNamePart None = Throw (RangeError "Invalid time value").
Proof. reflexivity. Qed.

Lemma ofNumber_cases (x : number) :
  JsDate.ofNumber x
  = if Js.isFinite x && (Z.abs (integerPart x) <=? JsDate.maxTime)
    then Some (integerPart x) else None.
Proof.
  unfold JsDate.ofNumber, integerPart.
  destruct (Prim2SF x) as [s | s | | s m e] eqn:Hx.
  - rewrite (isFinite_zero x s Hx). reflexivity.
  - replace (Js.isFinite x) with false; [reflexivity |].
    unfold Js.isFinite, is_nan, is_infinity. rewrite !eqb_spec, abs_spec, Hx.
    destruct s; reflexivity.
  - replace (Js.isFinite x) with false; [reflexivity |].
    unfold Js.isFinite, is_nan, is_infinity. rewrite !eqb_spec, abs_spec, Hx. reflexivity.
  - rewrite (isFinite_finite x s m e Hx). unfold JsDate.timeClip. cbn [andb].
    destruct (Z.ltb_spec JsDate.maxTime (Z.abs (Js.truncate s m e)));
      destruct (Z.leb_spec (Z.abs (Js.truncate s m e)) JsDate.maxTime); try reflexivity; lia.
Qed.

(** X4.  [fromUnixMilliseconds] accepts exactly the finite numbers whose
    integer part has magnitude at most 8.64e15: on such a number it
    returns a result whose [unixMilliseconds] is the number with its
    fraction dropped (rounding toward zero), and on every other number
    (NaN, an infinity, a larger magnitude) it throws RangeError "Invalid
    time value".  [fromUnixSeconds(x)] is [fromUnixMilliseconds(x * 1000)]. *)
Theorem fromUnixMilliseconds_domain
    (LocalTZA : Z -> bool -> Z) (timeZoneNamePart : Z -> option string) (x : number) :
  (if Js.isFinite x && (Z.abs (integerPart x) <=? JsDate.maxTime)
   then exists r,
          fromUnixMilliseconds LocalTZA timeZoneNamePart x = Return r
          /\ unixMilliseconds r = Js.ofZ (integerPart x)
          /\ unixSeconds r = Js.ofZ (integerPart x / 1000)
   else fromUnixMilliseconds LocalTZA timeZoneNamePart x
        = Throw (RangeError "Invalid time value"))
  /\ fromUnixSeconds LocalTZA timeZoneNamePart x
     = fromUnixMilliseconds LocalTZA timeZoneNamePart (x * 1000)%float.
Proof.
  split; [| reflexivity].
  unfold fromUnixMilliseconds. rewrite ofNumber_cases.
  destruct (Js.isFinite x && (Z.abs (integerPart x) <=? JsDate.maxTime)) eqn:E.
  - apply andb_prop in E. destruct E as [_ E]. apply Z.leb_le in E.
    destruct (convertDate_valid LocalTZA timeZoneNamePart (integerPart x))
      as (r & Hr & Hm & Hs).
    exists r. split; [exact Hr |]. split; [exact Hm |].
    rewrite Hs, Hm. apply Math_floor_thousandth, E.
  - reflexivity.
Qed.

Example fromUnixMilliseconds_scenario :
  integerPart 1999.9%float = 1999
  /\ integerPart (-0.5)%float = 0
  /\ fromUnixMilliseconds utcZone utcName nan = Throw (RangeError "Invalid time value")
  /\ fromUnixMilliseconds utcZone utcName 8.64e15%float <> Throw (RangeError "Invalid time value")
  /\ fromUnixMilliseconds utcZone utcName 8640000000000001%float
     = Throw (RangeError "Invalid time value").
Proof. repeat split; try (vm_compute; reflexivity). vm_compute. discriminate. Qed.

(** ** The datetime validator and the datetime converters *)

(** X5.  [isValidDatetime] accepts exactly the strings on which
    [fromLocalDatetime] returns a result, and [fromUTCDatetime] is the
    same function as [fromLocalDatetime]: both hand the string to
    [new Date] as it is, so a string without a zone designator is read
    in the host's zone by both. *)
Theorem isValidDatetime_iff_converts
    (LocalTZA : Z -> bool -> Z) (Date_parse : string -> option Z)
    (timeZoneNamePart : Z -> option string) (datetimeString : string) :
  (isValidDatetime Date_parse datetimeString = true
   <-> exists r, fromLocalDatetime LocalTZA Date_parse timeZoneNamePart datetimeString
                 = Return r)
  /\ (isValidDatetime Date_parse datetimeString = false
      <-> fromLocalDatetime LocalTZA Date_parse timeZoneNamePart datetimeString
          = Throw (RangeError "Invalid time value"))
  /\ fromUTCDatetime LocalTZA Date_parse timeZoneNamePart datetimeString
     = fromLocalDatetime LocalTZA Date_parse timeZoneNamePart datetimeString.
Proof.
  unfold isValidDatetime, fromUTCDatetime, fromLocalDatetime.
  destruct (newDate Date_parse datetimeString) as [t |] eqn:Hd.
  - pose proof (newDate_range Date_parse datetimeString t Hd) as Ht.
    assert (Hnan : Js.isNaN (JsDate.getTime (Some t)) = false).
    { apply isNaN_ofZ. unfold JsDate.maxTime in Ht.
      change (2 ^ 53) with 9007199254740992. lia. }
    rewrite Hnan.
    destruct (convertDate_valid LocalTZA timeZoneNamePart t) as (r & Hr & _).
    rewrite Hr. repeat split; try discriminate.
    intros _. now exists r.
  - rewrite convertDate_invalid. repeat split; try discriminate.
    intros (r & Hr). discriminate.
Qed.

(** ** The timestamp validators and the timestamp converters *)

Lemma validated_number (num bound : number) (b : positive) :
  Z.pos b < 2 ^ 53 -> bound = Js.ofZ (Z.pos b) ->
  (if Js.isNaN num || negb (Js.isFinite num) then false
   else ((0 <=? num) && (num <=? bound))%float) = true ->
  (exists s, Prim2SF num = S754_zero s)
  \/ (exists m e, Prim2SF num = S754_finite false m e
                  /\ (SFvalue false m e <= inject_Z (Z.pos b))%Q).
Proof.
  intros Hb -> H.
  destruct (Js.isNaN num || negb (Js.isFinite num)) eqn:Hguard; [discriminate |].
  apply orb_false_elim in Hguard. destruct Hguard as [_ Hfin].
  apply negb_false_iff in Hfin.
  apply andb_prop in H. destruct H as [H0 Hle].
  destruct (nonneg_cases num Hfin H0) as [Hz | (m & e & Hx)]; [left; exact Hz | right].
  exists m, e. split; [exact Hx |]. exact (leb_ofZ_value num m e b Hx Hb Hle).
Qed.

(** X6.  Every string that [isValidUnixMilliseconds] accepts converts:
    [fromUnixMilliseconds(Number(value))] returns a result, whose
    [unixMilliseconds] is an integer between 0 and 4 102 444 800 000 and
    whose [unixSeconds] is the integer floor of its thousandth. *)
Theorem validated_milliseconds_convert
    (LocalTZA : Z -> bool -> Z) (timeZoneNamePart : Z -> option string)
    (StringNumericValue : string -> number) (value : string) :
  isValidUnixMilliseconds StringNumericValue value = true ->
  exists r t,
    fromUnixMilliseconds LocalTZA timeZoneNamePart (Number StringNumericValue value)
    = Return r
    /\ unixMilliseconds r = Js.ofZ t /\ 0 <= t <= 4102444800000
    /\ unixSeconds r = Js.ofZ (t / 1000).
Proof.
  intros Hvalid.
  assert (Hdate : exists t,
             JsDate.ofNumber (Number StringNumericValue value) = Some t
             /\ 0 <= t <= 4102444800000).
  { destruct (validated_number (Number StringNumericValue value) 4102444800000%float
                  4102444800000) as [(s & Hx) | (m & e & Hx & Hv)];
      [reflexivity | reflexivity | exact Hvalid | |].
    - exists 0. unfold JsDate.ofNumber. rewrite Hx. split; [reflexivity | lia].
    - exists (Js.truncate false m e). unfold JsDate.ofNumber. rewrite Hx, truncate_Qfloor.
      pose proof (SFvalue_positive m e) as Hpos.
      pose proof (Qfloor_le (SFvalue false m e)) as Hf1.
      pose proof (Qlt_floor (SFvalue false m e)) as Hf2.
      assert (H0 : (inject_Z 0 < inject_Z (Qfloor (SFvalue false m e) + 1))%Q)
        by (eapply Qlt_trans; [exact Hpos | exact Hf2]).
      assert (H1 : (inject_Z (Qfloor (SFvalue false m e)) <= inject_Z 4102444800000)%Q)
        by (eapply Qle_trans; eassumption).
      rewrite <- Zlt_Qlt in H0. rewrite <- Zle_Qle in H1.
      split; [| lia]. unfold JsDate.timeClip, JsDate.maxTime.
      replace (8640000000000000 <? Z.abs (Qfloor (SFvalue false m e))) with false;
        [reflexivity |].
      symmetry. apply Z.ltb_ge. lia. }
  destruct Hdate as (t & Hd & Ht).
  unfold fromUnixMilliseconds. rewrite Hd.
  destruct (convertDate_valid LocalTZA timeZoneNamePart t) as (r & Hr & Hm & Hs).
  exists r, t. split; [exact Hr |]. split; [exact Hm |]. split; [exact Ht |].
  rewrite Hs, Hm. apply Math_floor_thousandth. unfold JsDate.maxTime. lia.
Qed.

Lemma validated_milliseconds_convert_witness :
  exists r t,
    fromUnixMilliseconds utcZone utcName (Number sampleParseFloat "205") = Return r
    /\ unixMilliseconds r = Js.ofZ t /\ 0 <= t <= 4102444800000
    /\ unixSeconds r = Js.ofZ (t / 1000).
Proof.
  apply (validated_milliseconds_convert utcZone utcName sampleParseFloat "205"%string).
  reflexivity.
Defined.

(** X7.  Every string that [isValidUnixSeconds] accepts converts:
    [fromUnixSeconds(Number(value))] returns a result, whose
    [unixMilliseconds] is an integer between 0 and 4 102 444 800 000
    (the product by 1000, computed in binary64, with its fraction
    dropped) and whose [unixSeconds] is the integer floor of its
    thousandth. *)
Theorem validated_seconds_convert
    (LocalTZA : Z -> bool -> Z) (timeZoneNamePart : Z -> option string)
    (StringNumericValue : string -> number) (value : string) :
  isValidUnixSeconds StringNumericValue value = true ->
  exists r t,
    fromUnixSeconds LocalTZA timeZoneNamePart (Number StringNumericValue value) = Return r
    /\ unixMilliseconds r = Js.ofZ t /\ 0 <= t <= 4102444800000
    /\ unixSeconds r = Js.ofZ (t / 1000) /\ 0 <= t / 1000 <= 4102444800.
Proof.
  intros Hvalid.
  assert (Hdate : exists t,
             JsDate.ofNumber (Number StringNumericValue value * 1000)%float = Some t
             /\ 0 <= t <= 4102444800000).
  { destruct (validated_number (Number StringNumericValue value) 4102444800%float
                  4102444800) as [(s & Hx) | (m & e & Hx & Hv)];
      [reflexivity | reflexivity | exact Hvalid | |].
    - exists 0. unfold JsDate.ofNumber. rewrite mul_spec, Hx.
      split; [reflexivity | lia].
    - exact (mul_1000_date _ m e Hx Hv). }
  destruct Hdate as (t & Hd & Ht).
  unfold fromUnixSeconds. rewrite Hd.
  destruct (convertDate_valid LocalTZA timeZoneNamePart t) as (r & Hr & Hm & Hs).
  exists r, t. split; [exact Hr |]. split; [exact Hm |]. split; [exact Ht |]. split.
  - rewrite Hs, Hm. apply Math_floor_thousandth. unfold JsDate.maxTime. lia.
  - split; [apply Z.div_pos; lia |].
    apply Z.div_le_upper_bound; lia.
Qed.

Lemma validated_seconds_convert_witness :
  exists r t,
    fromUnixSeconds utcZone utcName (Number sampleParseFloat "205") = Return r
    /\ unixMilliseconds r = Js.ofZ t /\ 0 <= t <= 4102444800000
    /\ unixSeconds r = Js.ofZ (t / 1000) /\ 0 <= t / 1000 <= 4102444800.
Proof.
  apply (validated_seconds_convert utcZone utcName sampleParseFloat "205"%string).
  reflexivity.
Defined.

(** ** Blank input: accepted by the schemas, rejected by the handlers *)

(** X8.  The time form on a value of white space only (at least one
    character, each a StrWhiteSpaceChar of the language, NO-BREAK SPACE
    and the like included), in the modes 'unix-seconds' and
    'unix-milliseconds': the
    schema accepts the value, because [Number] reads it as 0, while
    [handleConvert] converts [parseFloat(value)], which is NaN for such a
    string; the conversion throws and the handler reports "Failed to
    convert. Please check your input." *)
Theorem blank_timestamp_form
    (LocalTZA : Z -> bool -> Z) (Date_parse : string -> option Z)
    (timeZoneNamePart : Z -> option string)
    (StringNumericValue parseFloat : string -> number) (value unit : string) :
  value <> ""%string -> isBlank value = true -> parseFloat value = nan ->
  unit = "unix-seconds"%string \/ unit = "unix-milliseconds"%string ->
  let data := {| TimeConverterForm.value := value; TimeConverterForm.fromUnit := unit |} in
  TimeConverterForm.createFormSchema Date_parse StringNumericValue unit data = true
  /\ TimeConverterForm.handleConvert LocalTZA Date_parse timeZoneNamePart parseFloat data
     = TimeConverterForm.SetError "Failed to convert. Please check your input.".
Proof.
  intros Hne Hblank Hnan Hunit data.
  assert (Hv : String.eqb value "" = false) by (apply String.eqb_neq; exact Hne).
  unfold TimeConverterForm.createFormSchema, TimeConverterForm.handleConvert,
    isValidUnixSeconds, isValidUnixMilliseconds.
  cbn [TimeConverterForm.value TimeConverterForm.fromUnit data].
  rewrite Hv, Hnan, (Number_blank StringNumericValue value Hblank).
  destruct Hunit as [-> | ->]; split; reflexivity.
Qed.

Lemma blank_timestamp_form_witness :
  let data := {| TimeConverterForm.value := " " ++ noBreakSpace;
                 TimeConverterForm.fromUnit := "unix-seconds" |} in
  TimeConverterForm.createFormSchema epochParser sampleParseFloat "unix-seconds" data = true
  /\ TimeConverterForm.handleConvert utcZone epochParser utcName sampleParseFloat data
     = TimeConverterForm.SetError "Failed to convert. Please check your input.".
Proof.
  apply (blank_timestamp_form utcZone epochParser utcName sampleParseFloat sampleParseFloat
           (" " ++ noBreakSpace)%string "unix-seconds"%string).
  - discriminate.
  - reflexivity.
  - reflexivity.
  - left. reflexivity.
Defined.

Lemma sub_nan (y : number) : (y - nan)%float = nan.
Proof.
  apply Prim2SF_inj. rewrite sub_spec.
  change (Prim2SF nan) with S754_nan. destruct (Prim2SF y); reflexivity.
Qed.

(** X9.  The numbers form on a first number of white space only (at
    least one character, each a StrWhiteSpaceChar of the language): the
    compare schema accepts it whenever it accepts the second field,
    because [Number] reads it as 0, while [handleCompare] computes with
    [parseFloat], which is NaN for such a string; the difference and the
    percentage it stores are then both NaN. *)
Theorem blank_compare_form
    (StringNumericValue parseFloat : string -> number) (data : CompareFormData) :
  first data <> ""%string -> isBlank (first data) = true ->
  parseFloat (first data) = nan ->
  numberField StringNumericValue (second data) = true ->
  compareSchema StringNumericValue data = true
  /\ diff (handleCompare parseFloat data) = nan
  /\ percent (handleCompare parseFloat data) = nan.
Proof.
  intros Hne Hblank Hnan Hsecond.
  assert (Hv : String.eqb (first data) "" = false) by (apply String.eqb_neq; exact Hne).
  split; [| split].
  - unfold compareSchema, numberField at 1.
    rewrite Hv, (Number_blank StringNumericValue _ Hblank), Hsecond. reflexivity.
  - unfold handleCompare. cbn [diff]. rewrite Hnan. apply sub_nan.
  - unfold handleCompare. cbn [percent]. rewrite Hnan, sub_nan. reflexivity.
Qed.

Lemma blank_compare_form_witness :
  compareSchema sampleParseFloat {| first := ideographicSpace; second := "5" |} = true
  /\ diff (handleCompare sampleParseFloat {| first := ideographicSpace; second := "5" |}) = nan
  /\ percent (handleCompare sampleParseFloat {| first := ideographicSpace; second := "5" |})
     = nan.
Proof.
  apply (blank_compare_form sampleParseFloat sampleParseFloat
           {| first := ideographicSpace; second := "5" |}).
  - discriminate.
  - reflexivity.
  - reflexivity.
  - reflexivity.
Defined.

(** ** Display of timestamps *)

Lemma filter_groupRev (n : nat) (l : list ascii) :
  (List.length l <= n)%nat -> forallb notComma l = true ->
  filter notComma (Js.groupRev l) = l.
Proof.
  revert l. induction n as [| n IH]; intros l Hlen Hok.
  - destruct l; [reflexivity | simpl in Hlen; lia].
  - destruct l as [| a [| b [| c [| d rest]]]];
      try (simpl in *; repeat (destruct (notComma _); try discriminate); reflexivity).
    change (Js.groupRev (a :: b :: c :: d :: rest))
      with (a :: b :: c :: ","%char :: Js.groupRev (d :: rest)).
    cbn [forallb] in Hok.
    apply andb_prop in Hok. destruct Hok as [Ha Hok].
    apply andb_prop in Hok. destruct Hok as [Hb Hok].
    apply andb_prop in Hok. destruct Hok as [Hc Hok].
    cbn [filter]. rewrite Ha, Hb, Hc.
    change (notComma ","%char) with false. cbv iota.
    rewrite IH; [reflexivity | simpl in *; lia | exact Hok].
Qed.

Lemma digits_notComma (ds : list ascii) :
  Forall (fun c => isDigit c = true) ds -> forallb notComma ds = true.
Proof.
  induction 1 as [| c ds Hc _ IH]; [reflexivity |].
  cbn [forallb]. rewrite IH, andb_true_r.
  unfold notComma. destruct (Ascii.eqb_spec c ","%char) as [-> | _]; [discriminate | reflexivity].
Qed.

Lemma filter_groupThousands (ds : list ascii) :
  Forall (fun c => isDigit c = true) ds ->
  filter notComma (Js.groupThousands ds) = ds.
Proof.
  intros Hd. unfold Js.groupThousands.
  rewrite <- (rev_involutive ds) at 2.
  rewrite <- (filter_groupRev (List.length (rev ds)) (rev ds)) at 2.
  - generalize (Js.groupRev (rev ds)). intros l.
    induction l as [| c l IH]; [reflexivity |].
    simpl. rewrite filter_app, IH. simpl.
    destruct (notComma c); simpl; [reflexivity | now rewrite app_nil_r].
  - lia.
  - rewrite forallb_forall. intros c Hc. apply in_rev in Hc.
    pose proof (digits_notComma ds Hd) as Hall. rewrite forallb_forall in Hall.
    now apply Hall.
Qed.

Lemma toLocaleString_ofZ (k : Z) :
  Z.abs k < 2 ^ 53 ->
  Js.toLocaleString 0 3 (Js.ofZ k)
  = string_of_list_ascii
      (Js.signPrefix (k <? 0) ++ Js.groupThousands (Js.decimal (Z.abs_N k))).
Proof.
  intros Hk. pose proof (Prim2SF_ofZ k Hk) as Hrepr.
  destruct k as [| p | p].
  - unfold Js.toLocaleString. rewrite Hrepr. reflexivity.
  - assert (Hp : Z.pos (digits2_pos p) <= 53) by (apply digits_of_small; lia).
    destruct (toLocaleString_integer _ _ _ _ p Hrepr (SFvalue_canonical false p Hp))
      as (N & Hout & _ & _ & _ & Heq).
    rewrite Hout, (Heq ltac:(lia)). reflexivity.
  - assert (Hp : Z.pos (digits2_pos p) <= 53) by (apply digits_of_small; lia).
    destruct (toLocaleString_integer _ _ _ _ p Hrepr (SFvalue_canonical false p Hp))
      as (N & Hout & _ & _ & _ & Heq).
    rewrite Hout, (Heq ltac:(lia)). reflexivity.
Qed.

(** X10.  [formatUnixSeconds] and [formatUnixMilliseconds] of an integer
    of magnitude below 2^53 (every timestamp the engine returns is one)
    give its decimal numeral with a comma before each complete group of
    three digits and nothing after the digits; deleting the commas gives
    back the plain numeral [String(k)]. *)
Theorem formatUnixSeconds_integer (k : Z) :
  Z.abs k < 2 ^ 53 ->
  formatUnixSeconds (Js.ofZ k)
  = string_of_list_ascii
      (Js.signPrefix (k <? 0) ++ Js.groupThousands (Js.decimal (Z.abs_N k)))
  /\ formatUnixMilliseconds (Js.ofZ k) = formatUnixSeconds (Js.ofZ k)
  /\ string_of_list_ascii
       (filter notComma (list_ascii_of_string (formatUnixSeconds (Js.ofZ k))))
     = Js.stringOfZ k.
Proof.
  intros Hk. unfold formatUnixMilliseconds, formatUnixSeconds.
  rewrite (toLocaleString_ofZ k Hk).
  split; [reflexivity |]. split; [reflexivity |].
  rewrite list_ascii_of_string_of_list_ascii, filter_app.
  rewrite (filter_groupThousands _ (decimal_digits _)).
  destruct k as [| p | p]; reflexivity.
Qed.

Lemma formatUnixSeconds_integer_witness :
  formatUnixSeconds (Js.ofZ 1640995200)
  = string_of_list_ascii
      (Js.signPrefix (1640995200 <? 0)
       ++ Js.groupThousands (Js.decimal (Z.abs_N 1640995200)))
  /\ formatUnixMilliseconds (Js.ofZ 1640995200) = formatUnixSeconds (Js.ofZ 1640995200)
  /\ string_of_list_ascii
       (filter notComma (list_ascii_of_string (formatUnixSeconds (Js.ofZ 1640995200))))
     = Js.stringOfZ 1640995200.
Proof.
  apply (formatUnixSeconds_integer 1640995200). reflexivity.
Defined.

Example formatUnixSeconds_scenario :
  formatUnixSeconds 1640995200%float = "1,640,995,200"%string
  /\ formatUnixMilliseconds (-1500)%float = "-1,500"%string
  /\ formatUnixSeconds 0.5%float = "0.5"%string.
Proof. repeat split; vm_compute; reflexivity. Qed.

(** ** Zone information *)

Lemma convertDate_info (LocalTZA : Z -> bool -> Z) (timeZoneNamePart : Z -> option string) (t : Z) :
  exists r,
    convertDate LocalTZA timeZoneNamePart (Some t) = Return r
    /\ getTimezoneInfo LocalTZA timeZoneNamePart (Some t) = Return (timezone r, isDST r).
Proof.
  unfold convertDate, JsDate.toISOString, Js.bind, getTimezoneInfo.
  eexists. split; [reflexivity |]. cbv zeta. cbn [timezone isDST fst snd]. reflexivity.
Qed.

(** X11.  The zone information of a result.  For every valid Date
    [convertDate] returns a result whose [timezone] is not the empty
    string (a missing or empty zone name part is replaced by "Unknown"),
    and on a host whose zone has a fixed offset from UTC its [isDST] is
    false. *)
Theorem timezone_info (LocalTZA : Z -> bool -> Z) (timeZoneNamePart : Z -> option string)
    (t : Z) :
  exists r,
    convertDate LocalTZA timeZoneNamePart (Some t) = Return r
    /\ timezone r <> ""%string
    /\ (timeZoneNamePart t = None -> timezone r = "Unknown"%string)
    /\ ((exists offset, forall t' isUTC, LocalTZA t' isUTC = offset) -> isDST r = false).
Proof.
  destruct (convertDate_info LocalTZA timeZoneNamePart t) as (r & Hr & Hinfo).
  exists r. split; [exact Hr |].
  revert Hinfo. generalize (timezone r) (isDST r). intros tz dst Hinfo.
  unfold getTimezoneInfo in Hinfo.
  apply (f_equal (fun c => match c with Return p => p | Throw _ => (EmptyString, false) end))
    in Hinfo.
  cbv beta iota zeta in Hinfo. apply pair_equal_spec in Hinfo. destruct Hinfo as [Hz Hd].
  split; [| split].
  - rewrite <- Hz. destruct (timeZoneNamePart t) as [v |]; [| discriminate].
    destruct (String.eqb_spec v ""); [discriminate | assumption].
  - intros Hnone. rewrite <- Hz, Hnone. reflexivity.
  - intros (offset & Hoff). rewrite <- Hd.
    unfold JsDate.timezoneOffsetMs, JsDate.ofLocalYearMonth, JsDate.getFullYear,
      JsDate.LocalTime, ltOffset, maxOffset.
    cbn [option_map].
    destruct (JsDate.timeClip _) as [jan |]; cbn [option_map]; [| reflexivity].
    destruct (JsDate.timeClip _) as [jul |]; cbn [option_map]; [| reflexivity].
    rewrite !Hoff. apply Z.ltb_ge. lia.
Qed.

(** ** The formatter on numbers close to zero *)

Lemma tiny_exponent (x : number) (s : bool) (m : positive) (e : Z) :
  Prim2SF x = S754_finite s m e ->
  (abs x <? 0.0001)%float = true -> e <= -66.
Proof.
  intros Hx Hlt. rewrite ltb_spec, abs_spec, Hx in Hlt.
  change (Prim2SF 0.0001%float) with (S754_finite false 7378697629483821 (-66)) in Hlt.
  unfold SFltb, SFabs, SFcompare in Hlt.
  destruct (Z.compare_spec e (-66)); first [lia | discriminate].
Qed.

Lemma abs_lt_of_bounds (x : number) (s : bool) (m : positive) (e : Z) :
  Prim2SF x = S754_finite s m e ->
  (if s then (-0.0001 <? x)%float else (x <? 0.0001)%float) = true ->
  (abs x <? 0.0001)%float = true.
Proof.
  intros Hx H. rewrite ltb_spec, abs_spec, Hx.
  destruct s; rewrite ltb_spec, Hx in H.
  - change (Prim2SF 0.0001%float) with (S754_finite false 7378697629483821 (-66)).
    change (Prim2SF (-0.0001)%float) with (S754_finite true 7378697629483821 (-66)) in H.
    unfold SFltb, SFabs, SFcompare in *.
    rewrite (Z.compare_antisym e (-66)) in H.
    destruct (Z.compare_spec e (-66)) as [E | L | G]; cbn [CompOpp] in H; try discriminate;
      try reflexivity.
    rewrite Pos.compare_cont_antisym in H. exact H.
  - exact H.
Qed.

(** X12.  A non-zero number of magnitude below 0.0001 counts as whole
    and is displayed as zero with its sign: "0" for a positive one and
    "-0" for a negative one. *)
Theorem formatNumber_tiny (x : number) :
  ((0 <? x) && (x <? 0.0001))%float = true \/ ((-0.0001 <? x) && (x <? 0))%float = true ->
  isWholeNumber x = true
  /\ formatNumber x = (if (x <? 0)%float then "-0" else "0")%string.
Proof.
  intros Hrange.
  assert (Hfin : exists s m e,
             Prim2SF x = S754_finite s m e
             /\ (x <? 0)%float = s
             /\ (if s then (-0.0001 <? x)%float else (x <? 0.0001)%float) = true).
  { destruct Hrange as [H | H]; apply andb_prop in H; destruct H as [H1 H2].
    - rewrite ltb_spec in H1. change (Prim2SF 0%float) with (S754_zero false) in H1.
      pose proof H2 as H2'. rewrite ltb_spec in H2'.
      change (Prim2SF 0.0001%float) with (S754_finite false 7378697629483821 (-66)) in H2'.
      destruct (Prim2SF x) as [s | s | | s m e] eqn:Hx; try discriminate.
      + destruct s; discriminate.
      + destruct s; [discriminate |]. exists false, m, e.
        split; [reflexivity |]. split; [| exact H2].
        rewrite ltb_spec, Hx. reflexivity.
    - rewrite ltb_spec in H2. change (Prim2SF 0%float) with (S754_zero false) in H2.
      pose proof H1 as H1'. rewrite ltb_spec in H1'.
      change (Prim2SF (-0.0001)%float) with (S754_finite true 7378697629483821 (-66)) in H1'.
      destruct (Prim2SF x) as [s | s | | s m e] eqn:Hx; try discriminate.
      + destruct s; discriminate.
      + destruct s; [| discriminate]. exists true, m, e.
        split; [reflexivity |]. split; [| exact H1].
        rewrite ltb_spec, Hx. reflexivity. }
  destruct Hfin as (s & m & e & Hx & Hsign & Hb).
  pose proof (abs_lt_of_bounds x s m e Hx Hb) as Habs.
  pose proof (tiny_exponent x s m e Hx Habs) as He.
  destruct (finite_mantissa_bound x s m e Hx) as [Hd _].
  assert (Hm : 2 * Z.pos m < 2 ^ (- e)).
  { pose proof (digits2_bounds m) as [_ Hm2].
    apply Z.lt_le_trans with (2 ^ 54).
    - change (2 ^ 54) with (2 * 2 ^ 53).
      assert (2 ^ Z.pos (digits2_pos m) <= 2 ^ 53) by (apply Z.pow_le_mono_r; lia). lia.
    - apply Z.pow_le_mono_r; lia. }
  assert (Hround : Js.Math_round x = if s then (-0)%float else 0%float).
  { unfold Js.Math_round. rewrite Hx.
    replace (0 <=? e) with false by (symmetry; apply Z.leb_gt; lia).
    assert (Hz : Js.roundHalfUp s m e 1 = 0).
    { unfold Js.roundHalfUp.
      replace (0 <=? e) with false by (symmetry; apply Z.leb_gt; lia).
      apply Z.div_small. destruct s; lia. }
    rewrite Hz. reflexivity. }
  assert (Hsub : (x - Js.Math_round x)%float = x).
  { apply Prim2SF_inj. rewrite Hround, sub_spec, Hx. destruct s; reflexivity. }
  assert (Hwhole : isWholeNumber x = true).
  { unfold isWholeNumber, Js.Math_abs. rewrite Hsub. exact Habs. }
  split; [exact Hwhole |].
  unfold formatNumber. rewrite Hwhole, Hround, Hsign. destruct s; reflexivity.
Qed.

Lemma formatNumber_tiny_witness :
  isWholeNumber (-0.00001)%float = true
  /\ formatNumber (-0.00001)%float
     = (if ((-0.00001) <? 0)%float then "-0" else "0")%string.
Proof.
  apply (formatNumber_tiny (-0.00001)%float). right. reflexivity.
Defined.

Example negative_zero_display :
  formatNumber (-0)%float = "-0"%string
  /\ formatNumber (kelvinToCelsius 273.14999)%float = "-0"%string
  /\ formatNumber (-0.0001)%float = "-0.00"%string.
Proof. repeat split; vm_compute; reflexivity. Qed.

(** ** Whole numbers through the formatter and the factor 1000 *)

Lemma Math_round_ofZ (z : Z) : Z.abs z < 2 ^ 53 -> Js.Math_round (Js.ofZ z) = Js.ofZ z.
Proof.
  intros Hz. unfold Js.Math_round. rewrite Prim2SF_ofZ by exact Hz.
  destruct z as [| p | p]; [reflexivity | |].
  - assert (Hd : Z.pos (digits2_pos p) <= 53) by (apply digits_of_small; lia).
    destruct (Z.leb_spec 0 (Z.pos (digits2_pos p) - 53)); [reflexivity |].
    rewrite (roundHalfUp_canonical p 1 Hd), Z.mul_1_r. reflexivity.
  - assert (Hd : Z.pos (digits2_pos p) <= 53) by (apply digits_of_small; lia).
    destruct (Z.leb_spec 0 (Z.pos (digits2_pos p) - 53)) as [H0 | H0]; [reflexivity |].
    assert (Hr : Js.roundHalfUp true (Js.mantissaOf p) (Z.pos (digits2_pos p) - 53) 1
                 = Z.neg p).
    { unfold Js.roundHalfUp.
      replace (0 <=? Z.pos (digits2_pos p) - 53) with false
        by (symmetry; apply Z.leb_gt; lia).
      change (Z.neg (Js.mantissaOf p)) with (- Z.pos (Js.mantissaOf p)).
      rewrite (mantissaOf_value p Hd).
      replace (- (Z.pos (digits2_pos p) - 53)) with (53 - Z.pos (digits2_pos p)) by lia.
      assert (Hpos : 0 < 2 ^ (53 - Z.pos (digits2_pos p))) by (apply Z.pow_pos_nonneg; lia).
      symmetry. apply (Z.div_unique _ _ _ (2 ^ (53 - Z.pos (digits2_pos p)))); lia. }
    rewrite Hr. reflexivity.
Qed.

(** The formatter on an integer of at most 53 bits. *)
Lemma formatNumber_ofZ (z : Z) :
  Z.abs z < 2 ^ 53 ->
  formatNumber (Js.ofZ z)
  = string_of_list_ascii
      (Js.signPrefix (z <? 0) ++ Js.groupThousands (Js.decimal (Z.abs_N z))).
Proof.
  intros Hz.
  assert (Hwhole : isWholeNumber (Js.ofZ z) = true).
  { unfold isWholeNumber, Js.Math_abs. rewrite (Math_round_ofZ z Hz).
    assert (E : (Js.ofZ z - Js.ofZ z)%float = 0%float).
    { apply Prim2SF_inj. now rewrite sub_ofZ_same. }
    rewrite E. reflexivity. }
  unfold formatNumber. rewrite Hwhole, (Math_round_ofZ z Hz). apply toLocaleString_ofZ, Hz.
Qed.

Lemma mul_1000_exact (k : Z) :
  Z.abs (k * 1000) < 2 ^ 53 -> (Js.ofZ k * 1000)%float = Js.ofZ (k * 1000).
Proof.
  intros Hk.
  assert (H1000 : Prim2SF 1000%float
                  = S754_finite false (Js.mantissaOf 1000) (Z.pos (digits2_pos 1000) - 53))
    by reflexivity.
  destruct k as [| p | p]; [reflexivity | |]; apply Prim2SF_inj.
  - assert (Hp : Z.pos (p * 1000) < 2 ^ 53) by lia.
    rewrite mul_spec, H1000, Prim2SF_ofZ_pos by (apply digits_of_small; lia).
    rewrite SFmul_canonical by exact Hp.
    change (Z.pos p * 1000) with (Z.pos (p * 1000)).
    rewrite Prim2SF_ofZ_pos by (apply digits_of_small, Hp). reflexivity.
  - assert (Hp : Z.pos (p * 1000) < 2 ^ 53) by lia.
    rewrite mul_spec, H1000, Prim2SF_ofZ_neg by (apply digits_of_small; lia).
    rewrite SFmul_canonical by exact Hp.
    change (Z.neg p * 1000) with (Z.neg (p * 1000)).
    rewrite Prim2SF_ofZ_neg by (apply digits_of_small, Hp). reflexivity.
Qed.

(** X13.  Whole kilometers, metric tons and liters convert exactly to
    the thousand times smaller unit: for an integer [k] with
    [|1000 k| < 2^53], the convert functions list, for meters, kilograms
    and milliliters, the decimal numeral of [1000 k] with a comma before
    each complete group of three digits and no decimal point. *)
Theorem thousandfold_conversions (k : Z) :
  Z.abs (k * 1000) < 2 ^ 53 ->
  let numeral :=
    string_of_list_ascii
      (Js.signPrefix (k <? 0) ++ Js.groupThousands (Js.decimal (Z.abs_N (k * 1000)))) in
  (exists results,
      convertLength (Js.ofZ k) "kilometer" = Return results
      /\ In {| unitId := "meter"; unitName := "Meters"; symbol := "m"; value := numeral |}
            results)
  /\ (exists results,
         convertWeight (Js.ofZ k) "metricTon" = Return results
         /\ In {| unitId := "kilogram"; unitName := "Kilograms"; symbol := "kg";
                  value := numeral |} results)
  /\ (exists results,
         convertVolume (Js.ofZ k) "liter" = Return results
         /\ In {| unitId := "milliliter"; unitName := "Milliliters"; symbol := "mL";
                  value := numeral |} results).
Proof.
  intros Hk numeral.
  assert (Hnum : formatNumber (Js.ofZ k * 1000)%float = numeral).
  { rewrite (mul_1000_exact k Hk), (formatNumber_ofZ (k * 1000) Hk). subst numeral.
    do 3 f_equal. destruct k; reflexivity. }
  split; [| split]; (eexists; split; [reflexivity |]); cbn [map filter Js.values snd id name
    unitSymbol fromBase toBase lengthUnits weightUnits volumeUnits String.eqb Ascii.eqb
    Bool.eqb negb In]; rewrite <- Hnum; tauto.
Qed.

Lemma thousandfold_conversions_witness :
  let numeral :=
    string_of_list_ascii
      (Js.signPrefix (5 <? 0) ++ Js.groupThousands (Js.decimal (Z.abs_N (5 * 1000)))) in
  (exists results,
      convertLength (Js.ofZ 5) "kilometer" = Return results
      /\ In {| unitId := "meter"; unitName := "Meters"; symbol := "m"; value := numeral |}
            results)
  /\ (exists results,
         convertWeight (Js.ofZ 5) "metricTon" = Return results
         /\ In {| unitId := "kilogram"; unitName := "Kilograms"; symbol := "kg";
                  value := numeral |} results)
  /\ (exists results,
         convertVolume (Js.ofZ 5) "liter" = Return results
         /\ In {| unitId := "milliliter"; unitName := "Milliliters"; symbol := "mL";
                  value := numeral |} results).
Proof.
  apply (thousandfold_conversions 5). reflexivity.
Defined.

Example thousandfold_scenario :
  string_of_list_ascii
    (Js.signPrefix (5 <? 0) ++ Js.groupThousands (Js.decimal (Z.abs_N (5 * 1000))))
  = "5,000"%string.
Proof. reflexivity. Qed.

(** ** The civil calendar *)

Lemma eraCheck_all : holdsFrom eraCheck 0 (Z.to_nat 146097) = true.
Proof. vm_compute. reflexivity. Qed.

Lemma civil_roundtrip (z : Z) :
  JsDate.daysFromCivil (fst (fst (JsDate.civilFromDays z))) (snd (fst (JsDate.civilFromDays z)))
    (snd (JsDate.civilFromDays z)) = z
  /\ 1 <= snd (fst (JsDate.civilFromDays z)) <= 12
  /\ 1 <= snd (JsDate.civilFromDays z) <= 31.
Proof.
  unfold JsDate.civilFromDays. cbv zeta. cbn [fst snd].
  pose proof (Z.div_mod (z + 719468) 146097 ltac:(lia)) as Hdm.
  pose proof (Z.mod_pos_bound (z + 719468) 146097 ltac:(lia)) as Hmod.
  set (era := (z + 719468) / 146097) in *.
  set (doe := z + 719468 - era * 146097).
  assert (Hdoe : 0 <= doe < 146097) by (subst doe; lia).
  pose proof (holdsFrom_spec eraCheck _ 0 eraCheck_all doe) as Hok.
  rewrite Z2Nat.id in Hok by lia. specialize (Hok ltac:(lia)).
  unfold eraCheck in Hok. cbv zeta in Hok.
  set (yoe := (doe - doe / 1460 + doe / 36524 - doe / 146096) / 365) in *.
  set (doy := doe - (365 * yoe + yoe / 4 - yoe / 100)) in *.
  set (mp := (5 * doy + 2) / 153) in *.
  set (d := doy - (153 * mp + 2) / 5 + 1) in *.
  set (m := if mp <? 10 then mp + 3 else mp - 9) in *.
  repeat (apply andb_prop in Hok; destruct Hok as [Hok ?]).
  repeat match goal with
         | H : (_ <=? _) = true |- _ => apply Z.leb_le in H
         | H : (_ =? _) = true |- _ => apply Z.eqb_eq in H
         end.
  split; [| lia].
  unfold JsDate.daysFromCivil. cbv zeta.
  set (y' := if m <=? 2 then yoe + era * 400 + (if m <=? 2 then 1 else 0) - 1
             else yoe + era * 400 + (if m <=? 2 then 1 else 0)).
  assert (Hy' : y' = yoe + era * 400) by (subst y'; destruct (m <=? 2); lia).
  rewrite Hy'.
  assert (Hera : (yoe + era * 400) / 400 = era).
  { symmetry. apply (Z.div_unique _ _ _ yoe); lia. }
  rewrite Hera. replace (yoe + era * 400 - era * 400) with yoe by lia.
  subst doe. lia.
Qed.

(** ** The date calculator: adding days *)

Lemma daysFromCivil_linear (y m d : Z) :
  JsDate.daysFromCivil y m d = JsDate.daysFromCivil y m 1 + d - 1.
Proof. unfold JsDate.daysFromCivil. cbv zeta. lia. Qed.

(** [MakeDay] on the civil date of a day number, with the day of the
    month moved by [k], is that day number moved by [k]. *)
Lemma MakeDay_shift (lt k : Z) :
  MakeDay (JsDate.yearOf lt) (JsDate.monthOf lt) (JsDate.dateOf lt + k)
  = lt / JsDate.msPerDay + k.
Proof.
  unfold MakeDay, JsDate.yearOf, JsDate.monthOf, JsDate.dateOf. cbv zeta.
  destruct (civil_roundtrip (lt / JsDate.msPerDay)) as (Hrt & Hm & Hd).
  set (c := JsDate.civilFromDays (lt / JsDate.msPerDay)) in *.
  rewrite Z.div_small, Z.mod_small, Z.add_0_r by lia.
  replace (snd (fst c) - 1 + 1) with (snd (fst c)) by lia.
  rewrite (daysFromCivil_linear _ _ (snd c)) in Hrt. lia.
Qed.

Lemma setDate_shift (LocalTZA : Z -> bool -> Z) (t k : Z) :
  Z.abs (JsDate.dateOf (JsDate.LocalTime LocalTZA t) + k) < 2 ^ 53 ->
  setDate LocalTZA (Some t) (Js.ofZ (JsDate.dateOf (JsDate.LocalTime LocalTZA t) + k))
  = JsDate.timeClip
      (JsDate.UTC LocalTZA (JsDate.LocalTime LocalTZA t + k * JsDate.msPerDay)).
Proof.
  intros Hdk. unfold setDate. cbv zeta.
  set (lt := JsDate.LocalTime LocalTZA t) in *.
  assert (Hnew : MakeDate (MakeDay (JsDate.yearOf lt) (JsDate.monthOf lt)
                             (JsDate.dateOf lt + k)) (lt mod JsDate.msPerDay)
                 = lt + k * JsDate.msPerDay).
  { rewrite MakeDay_shift. unfold MakeDate.
    pose proof (Z.div_mod lt JsDate.msPerDay ltac:(unfold JsDate.msPerDay; lia)). lia. }
  rewrite (Prim2SF_ofZ _ Hdk).
  destruct (JsDate.dateOf lt + k) as [| p | p] eqn:E.
  - rewrite <- Hnew. reflexivity.
  - rewrite (truncate_canonical false p) by (apply digits_of_small; lia).
    rewrite <- Hnew. reflexivity.
  - rewrite (truncate_canonical true p) by (apply digits_of_small; lia).
    rewrite <- Hnew. reflexivity.
Qed.

Lemma dateOf_bounds (lt : Z) : 1 <= JsDate.dateOf lt <= 31.
Proof. unfold JsDate.dateOf. apply civil_roundtrip. Qed.

Lemma effect_days (LocalTZA : Z -> bool -> Z) (StringNumericValue : string -> number)
    (t k : Z) (toDate : option JsDate.Date) (days : option string) :
  Z.abs t <= JsDate.maxTime -> Z.abs k < 2 ^ 52 ->
  DateConverterForm.NumberOfField StringNumericValue days = Js.ofZ k ->
  DateConverterForm.effect LocalTZA StringNumericValue "days" (Some (Some t)) toDate days
  = Some {| DateConverterForm.daysDiff := Some (Js.ofZ k);
            DateConverterForm.endDate :=
              Some (JsDate.timeClip
                      (JsDate.UTC LocalTZA
                         (JsDate.LocalTime LocalTZA t + k * JsDate.msPerDay))) |}.
Proof.
  intros Ht Hk Hn. unfold DateConverterForm.effect.
  assert (Ht53 : Z.abs t < 2 ^ 53).
  { unfold JsDate.maxTime in Ht. change (2 ^ 53) with 9007199254740992. lia. }
  assert (Hk53 : Z.abs k < 2 ^ 53).
  { change (2 ^ 53) with (2 * 2 ^ 52). lia. }
  unfold JsDate.getTime at 1. rewrite (isNaN_ofZ t Ht53).
  change (String.eqb "days" "date") with false. change (String.eqb "days" "days") with true.
  cbv iota zeta. rewrite Hn, (isNaN_ofZ k Hk53). cbn [negb].
  pose proof (dateOf_bounds (JsDate.LocalTime LocalTZA t)) as Hd.
  assert (Hsum : Z.abs (JsDate.dateOf (JsDate.LocalTime LocalTZA t) + k) < 2 ^ 53).
  { change (2 ^ 53) with (2 * 2 ^ 52). change (2 ^ 52) with 4503599627370496 in *. lia. }
  unfold JsDate.getDate, numberOf. cbn [option_map].
  rewrite add_ofZ_exact; try assumption.
  - rewrite setDate_shift by exact Hsum. reflexivity.
  - change (2 ^ 53) with 9007199254740992. lia.
Qed.

(** X14.  Mode 'days' of the date calculator.  For a valid [fromDate]
    and a [days] field that [Number] reads as the integer [k], the
    effect stores [daysDiff = k] and as [endDate] the Date whose local
    wall-clock time is [k] times 24 hours after that of [fromDate]: the
    same local time of day, [k] calendar days later (earlier for a
    negative [k]), across the ends of months and years; on a host with a
    fixed offset from UTC that is the instant [k * 86 400 000] ms after
    [fromDate].  The Date is invalid when that instant leaves the range
    of Date. *)
Theorem addDays_end_date (LocalTZA : Z -> bool -> Z) (StringNumericValue : string -> number)
    (t k : Z) (toDate : option JsDate.Date) (days : option string) :
  Z.abs t <= JsDate.maxTime -> Z.abs k < 2 ^ 52 ->
  DateConverterForm.NumberOfField StringNumericValue days = Js.ofZ k ->
  let endDate' :=
    JsDate.timeClip
      (JsDate.UTC LocalTZA (JsDate.LocalTime LocalTZA t + k * JsDate.msPerDay)) in
  DateConverterForm.effect LocalTZA StringNumericValue "days" (Some (Some t)) toDate days
  = Some {| DateConverterForm.daysDiff := Some (Js.ofZ k);
            DateConverterForm.endDate := Some endDate' |}
  /\ ((exists offset, forall u isUTC, LocalTZA u isUTC = offset) ->
      endDate' = JsDate.timeClip (t + k * JsDate.msPerDay)).
Proof.
  intros Ht Hk Hn endDate'. split.
  - exact (effect_days LocalTZA StringNumericValue t k toDate days Ht Hk Hn).
  - intros (offset & Hoff). subst endDate'.
    unfold JsDate.UTC, JsDate.LocalTime. rewrite !Hoff. f_equal. lia.
Qed.

Lemma addDays_end_date_witness :
  let endDate' :=
    JsDate.timeClip
      (JsDate.UTC shiftingZone
         (JsDate.LocalTime shiftingZone 1640995200000 + 5 * JsDate.msPerDay)) in
  DateConverterForm.effect shiftingZone sampleParseFloat "days"
    (Some (Some 1640995200000)) None (Some "5"%string)
  = Some {| DateConverterForm.daysDiff := Some (Js.ofZ 5);
            DateConverterForm.endDate := Some endDate' |}
  /\ ((exists offset, forall u isUTC, shiftingZone u isUTC = offset) ->
      endDate' = JsDate.timeClip (1640995200000 + 5 * JsDate.msPerDay)).
Proof.
  apply (addDays_end_date shiftingZone sampleParseFloat 1640995200000 5 None
           (Some "5"%string)).
  - vm_compute. discriminate.
  - reflexivity.
  - reflexivity.
Defined.

(** X15.  The two modes of the date calculator agree.  In a zone whose
    offset from UTC varies by less than twelve hours (by 43 199 seconds
    at most), from the local midnight of a calendar day [day] that is
    not skipped by the zone: adding [k] days gives the local midnight of
    day [day + k], and the difference mode on [fromDate] and that end
    date gives back [k]. *)
Theorem addDays_then_difference
    (LocalTZA : Z -> bool -> Z) (StringNumericValue : string -> number)
    (day k : Z) (days : option string) :
  (forall u u', Z.abs (LocalTZA u false - LocalTZA u' false) <= 43199000) ->
  JsDate.LocalTime LocalTZA (JsDate.localMidnight LocalTZA day) = day * JsDate.msPerDay ->
  Z.abs (JsDate.localMidnight LocalTZA day) <= JsDate.maxTime ->
  Z.abs (JsDate.localMidnight LocalTZA (day + k)) <= JsDate.maxTime ->
  Z.abs k < 2 ^ 52 ->
  DateConverterForm.NumberOfField StringNumericValue days = Js.ofZ k ->
  let fromDate : JsDate.Date := Some (JsDate.localMidnight LocalTZA day) in
  let endDate' : JsDate.Date := Some (JsDate.localMidnight LocalTZA (day + k)) in
  DateConverterForm.effect LocalTZA StringNumericValue "days" (Some fromDate) None days
  = Some {| DateConverterForm.daysDiff := Some (Js.ofZ k);
            DateConverterForm.endDate := Some endDate' |}
  /\ DateConverterForm.effect LocalTZA StringNumericValue "date" (Some fromDate)
       (Some endDate') days
     = Some {| DateConverterForm.daysDiff := Some (Js.ofZ k);
               DateConverterForm.endDate := None |}.
Proof.
  intros Hzone Hmid Hfrom Hto Hk Hn fromDate endDate'.
  set (a := JsDate.localMidnight LocalTZA day) in *.
  set (b := JsDate.localMidnight LocalTZA (day + k)) in *.
  fold a in Hmid.
  assert (Hsmall : forall z, Z.abs z <= JsDate.maxTime -> Z.abs z < 2 ^ 53).
  { intros z Hz. unfold JsDate.maxTime in Hz. change (2 ^ 53) with 9007199254740992. lia. }
  split.
  - unfold fromDate, endDate'.
    etransitivity;
      [exact (effect_days LocalTZA StringNumericValue a k None days Hfrom Hk Hn) |].
    rewrite Hmid. do 3 f_equal.
    replace (day * JsDate.msPerDay + k * JsDate.msPerDay) with ((day + k) * JsDate.msPerDay)
      by lia.
    change (JsDate.UTC LocalTZA ((day + k) * JsDate.msPerDay)) with b.
    unfold JsDate.timeClip.
    replace (JsDate.maxTime <? Z.abs b) with false; [reflexivity |].
    symmetry. apply Z.ltb_ge. exact Hto.
  - unfold DateConverterForm.effect, fromDate, endDate', JsDate.getTime.
    rewrite !isNaN_ofZ by (apply Hsmall; assumption).
    change (String.eqb "date" "date") with true. cbv iota zeta. cbn [negb].
    do 3 f_equal. unfold dayDifference, JsDate.getTime.
    assert (Hoff : Z.abs (b - a - k * 86400000) <= 43199000).
    { specialize (Hzone (day * JsDate.msPerDay) ((day + k) * JsDate.msPerDay)).
      subst a b. unfold JsDate.localMidnight, JsDate.UTC, JsDate.msPerDay in *. lia. }
    destruct (Z.eq_dec k 0) as [-> | Hk0].
    + assert (Eab : b = a) by (subst a b; rewrite Z.add_0_r; reflexivity).
      rewrite Eab. apply dayDifference_same, Hfrom.
    + apply dayDifference_value; try assumption; lia.
Qed.

Lemma addDays_then_difference_witness :
  let fromDate : JsDate.Date := Some (JsDate.localMidnight shiftingZone 18999) in
  let endDate' : JsDate.Date := Some (JsDate.localMidnight shiftingZone (18999 + 5)) in
  DateConverterForm.effect shiftingZone sampleParseFloat "days" (Some fromDate) None
    (Some "5"%string)
  = Some {| DateConverterForm.daysDiff := Some (Js.ofZ 5);
            DateConverterForm.endDate := Some endDate' |}
  /\ DateConverterForm.effect shiftingZone sampleParseFloat "date" (Some fromDate)
       (Some endDate') (Some "5"%string)
     = Some {| DateConverterForm.daysDiff := Some (Js.ofZ 5);
               DateConverterForm.endDate := None |}.
Proof.
  apply (addDays_then_difference shiftingZone sampleParseFloat 18999 5 (Some "5"%string)).
  - intros u u'. unfold shiftingZone.
    destruct (19000 * 86400000 <=? u), (19000 * 86400000 <=? u'); simpl; lia.
  - reflexivity.
  - vm_compute. discriminate.
  - vm_compute. discriminate.
  - reflexivity.
  - reflexivity.
Defined.

Example addDays_scenario :
  (* 31 January 2024, 12:00 UTC, plus one day and plus thirty days on a host in UTC *)
  DateConverterForm.effect utcZone sampleParseFloat "days"
    (Some (Some 1706702400000)) None (Some "5"%string)
  = Some {| DateConverterForm.daysDiff := Some 5%float;
            DateConverterForm.endDate := Some (Some 1707134400000) |}
  /\ JsDate.toISOString (Some 1707134400000) = Return "2024-02-05T12:00:00.000Z"%string
  /\ DateConverterForm.effect utcZone sampleParseFloat "days"
       (Some (Some 1706702400000)) None (Some ""%string)
     = Some {| DateConverterForm.daysDiff := Some 0%float;
               DateConverterForm.endDate := Some (Some 1706702400000) |}
  /\ DateConverterForm.effect utcZone sampleParseFloat "days"
       (Some (Some 1706702400000)) None None
     = Some {| DateConverterForm.daysDiff := None; DateConverterForm.endDate := None |}
  /\ DateConverterForm.effect utcZone sampleParseFloat "weeks"
       (Some (Some 1706702400000)) None None = None.
Proof. repeat split; vm_compute; reflexivity. Qed.

(** ** The shape of the datetime fields *)

Lemma length_append (a b : string) :
  String.length (a ++ b) = (String.length a + String.length b)%nat.
Proof. induction a as [| c a IH]; simpl; [reflexivity | now rewrite IH]. Qed.

Lemma append_assoc (a b c : string) : ((a ++ b) ++ c = a ++ (b ++ c))%string.
Proof. induction a as [| x a IH]; simpl; [reflexivity | now rewrite IH]. Qed.

Lemma twoDigits_all : holdsFrom twoDigits 0 (Z.to_nat 100) = true.
Proof. vm_compute. reflexivity. Qed.

Lemma fourDigits_all : holdsFrom fourDigits 1000 (Z.to_nat 9000) = true.
Proof. vm_compute. reflexivity. Qed.

Lemma pad2_length (v : Z) :
  0 <= v <= 99 -> String.length (Js.padStart 2 "0" (Js.stringOfZ v)) = 2%nat.
Proof.
  intros Hv. apply Nat.eqb_eq.
  apply (holdsFrom_spec twoDigits _ 0 twoDigits_all v).
  rewrite Z2Nat.id; lia.
Qed.

Lemma year4 (y : Z) :
  1000 <= y <= 9999 ->
  String.length (Js.stringOfZ y) = 4%nat /\ JsDate.pad 4 y = Js.stringOfZ y.
Proof.
  intros Hy.
  pose proof (holdsFrom_spec fourDigits _ 1000 fourDigits_all y) as H.
  rewrite Z2Nat.id in H by lia. specialize (H ltac:(lia)).
  unfold fourDigits in H. apply andb_prop in H. destruct H as [H1 H2].
  split; [now apply Nat.eqb_eq | now apply String.eqb_eq].
Qed.

Lemma clock_bounds (lt : Z) :
  0 <= JsDate.monthOf lt + 1 <= 99 /\ 0 <= JsDate.dateOf lt <= 99
  /\ 0 <= JsDate.hourOf lt <= 99 /\ 0 <= JsDate.minuteOf lt <= 99
  /\ 0 <= JsDate.secondOf lt <= 99.
Proof.
  destruct (civil_roundtrip (lt / JsDate.msPerDay)) as (_ & Hm & Hd).
  unfold JsDate.monthOf, JsDate.dateOf, JsDate.hourOf, JsDate.minuteOf, JsDate.secondOf,
    JsDate.msPerDay in *.
  pose proof (Z.mod_pos_bound lt 86400000 ltac:(lia)).
  pose proof (Z.mod_pos_bound lt 3600000 ltac:(lia)).
  pose proof (Z.mod_pos_bound lt 60000 ltac:(lia)).
  repeat split; try lia.
  - apply Z.div_pos; lia.
  - assert (lt mod 86400000 / 3600000 < 24) by (apply Z.div_lt_upper_bound; lia). lia.
  - apply Z.div_pos; lia.
  - assert (lt mod 3600000 / 60000 < 60) by (apply Z.div_lt_upper_bound; lia). lia.
  - apply Z.div_pos; lia.
  - assert (lt mod 60000 / 1000 < 60) by (apply Z.div_lt_upper_bound; lia). lia.
Qed.

Lemma convertDate_strings (LocalTZA : Z -> bool -> Z) (timeZoneNamePart : Z -> option string)
    (t : Z) :
  exists r,
    convertDate LocalTZA timeZoneNamePart (Some t) = Return r
    /\ localDatetime r = formatLocalDatetime LocalTZA (Some t)
    /\ JsDate.toISOString (Some t) = Return (utcDatetime r).
Proof.
  unfold convertDate, Js.bind, getTimezoneInfo.
  change (JsDate.toISOString (Some t)) with
    (Return (match JsDate.toISOString (Some t) with Return s => s | Throw _ => EmptyString end)).
  cbv beta iota zeta.
  eexists. split; [reflexivity |]. cbn [localDatetime utcDatetime]. split; reflexivity.
Qed.

(** X16.  The datetime strings of a result whose local year has four
    digits (1000 to 9999): [localDatetime] has the 19 characters of
    YYYY-MM-DDTHH:mm:ss, every field after the year being padded to two
    digits, and on a host whose offset from UTC is zero at that instant
    [utcDatetime] is [localDatetime] followed by the milliseconds and
    "Z". *)
Theorem datetime_strings (LocalTZA : Z -> bool -> Z) (timeZoneNamePart : Z -> option string)
    (t : Z) :
  1000 <= JsDate.yearOf (JsDate.LocalTime LocalTZA t) <= 9999 ->
  exists r,
    convertDate LocalTZA timeZoneNamePart (Some t) = Return r
    /\ String.length (localDatetime r) = 19%nat
    /\ (exists year month day hours minutes seconds,
           localDatetime r
           = (year ++ "-" ++ month ++ "-" ++ day ++ "T" ++ hours ++ ":" ++ minutes
              ++ ":" ++ seconds)%string
           /\ year = Js.stringOfZ (JsDate.yearOf (JsDate.LocalTime LocalTZA t))
           /\ String.length year = 4%nat /\ String.length month = 2%nat
           /\ String.length day = 2%nat /\ String.length hours = 2%nat
           /\ String.length minutes = 2%nat /\ String.length seconds = 2%nat)
    /\ (LocalTZA t true = 0 ->
        utcDatetime r
        = (localDatetime r ++ "." ++ JsDate.pad 3 (JsDate.msOf t) ++ "Z")%string).
Proof.
  intros Hy.
  destruct (convertDate_strings LocalTZA timeZoneNamePart t) as (r & Hr & Hl & Hu).
  exists r. split; [exact Hr |].
  destruct (year4 _ Hy) as [Hy4 Hpad].
  destruct (clock_bounds (JsDate.LocalTime LocalTZA t)) as (Hmo & Hd & Hh & Hmi & Hs).
  assert (Hfmt : formatLocalDatetime LocalTZA (Some t)
                 = (Js.stringOfZ (JsDate.yearOf (JsDate.LocalTime LocalTZA t)) ++ "-"
                    ++ Js.padStart 2 "0"
                         (Js.stringOfZ (JsDate.monthOf (JsDate.LocalTime LocalTZA t) + 1))
                    ++ "-"
                    ++ Js.padStart 2 "0"
                         (Js.stringOfZ (JsDate.dateOf (JsDate.LocalTime LocalTZA t)))
                    ++ "T"
                    ++ Js.padStart 2 "0"
                         (Js.stringOfZ (JsDate.hourOf (JsDate.LocalTime LocalTZA t)))
                    ++ ":"
                    ++ Js.padStart 2 "0"
                         (Js.stringOfZ (JsDate.minuteOf (JsDate.LocalTime LocalTZA t)))
                    ++ ":"
                    ++ Js.padStart 2 "0"
                         (Js.stringOfZ (JsDate.secondOf (JsDate.LocalTime LocalTZA t))))%string)
    by reflexivity.
  split; [| split].
  - rewrite Hl, Hfmt, !length_append, Hy4, !pad2_length by assumption. reflexivity.
  - do 6 eexists. split; [rewrite Hl; exact Hfmt |].
    split; [reflexivity |]. split; [exact Hy4 |].
    repeat split; apply pad2_length; assumption.
  - intros Hutc. rewrite Hl, Hfmt.
    assert (Elt : JsDate.LocalTime LocalTZA t = t) by (unfold JsDate.LocalTime; lia).
    rewrite Elt in *.
    assert (Hiso : JsDate.toISOString (Some t)
                   = Return (JsDate.pad 4 (JsDate.yearOf t) ++ "-"
                             ++ JsDate.pad 2 (JsDate.monthOf t + 1) ++ "-"
                             ++ JsDate.pad 2 (JsDate.dateOf t) ++ "T"
                             ++ JsDate.pad 2 (JsDate.hourOf t) ++ ":"
                             ++ JsDate.pad 2 (JsDate.minuteOf t) ++ ":"
                             ++ JsDate.pad 2 (JsDate.secondOf t) ++ "."
                             ++ JsDate.pad 3 (JsDate.msOf t) ++ "Z")%string).
    { unfold JsDate.toISOString. cbv zeta.
      replace ((0 <=? JsDate.yearOf t) && (JsDate.yearOf t <=? 9999)) with true; [reflexivity |].
      symmetry. apply andb_true_intro. split; apply Z.leb_le; lia. }
    rewrite Hiso in Hu. injection Hu as <-. rewrite Hpad. unfold JsDate.pad.
    rewrite !append_assoc. reflexivity.
Qed.

Lemma datetime_strings_witness :
  exists r,
    convertDate utcZone utcName (Some 1709210096789) = Return r
    /\ String.length (localDatetime r) = 19%nat
    /\ (exists year month day hours minutes seconds,
           localDatetime r
           = (year ++ "-" ++ month ++ "-" ++ day ++ "T" ++ hours ++ ":" ++ minutes
              ++ ":" ++ seconds)%string
           /\ year = Js.stringOfZ (JsDate.yearOf (JsDate.LocalTime utcZone 1709210096789))
           /\ String.length year = 4%nat /\ String.length month = 2%nat
           /\ String.length day = 2%nat /\ String.length hours = 2%nat
           /\ String.length minutes = 2%nat /\ String.length seconds = 2%nat)
    /\ (utcZone 1709210096789 true = 0 ->
        utcDatetime r
        = (localDatetime r ++ "." ++ JsDate.pad 3 (JsDate.msOf 1709210096789) ++ "Z")%string).
Proof.
  apply (datetime_strings utcZone utcName 1709210096789).
  vm_compute. split; discriminate.
Defined.

(** Outside the four-digit years the local string is longer or shorter
    than the ISO one: year 12345 is written with five digits, year 999
    with three. *)
Example datetime_strings_scenario :
  formatLocalDatetime utcZone (Some 1709210096789) = "2024-02-29T12:34:56"%string
  /\ formatLocalDatetime utcZone (Some (-30641760000000)) = "999-01-01T00:00:00"%string
  /\ JsDate.toISOString (Some (-30641760000000)) = Return "0999-01-01T00:00:00.000Z"%string.
Proof. repeat split; vm_compute; reflexivity. Qed.

